(** * Social scraper scripts: comment parsing and engagement scheduling

    A shallow embedding of the Python scripts under
    [src/social-scraper/python-scripts] (Instagram, Facebook, Reddit,
    LinkedIn and Twitter variants) and the properties of their comment
    parsers, cleaning helpers, reply loops and progress protocol.

    Modelling conventions.
    - Text is a [string] of 8-bit characters.  The classes [\d], [\s], [\w]
      and case folding are the ASCII ones (for [\s]: the ASCII characters
      Python's [str.isspace] accepts); characters above 127 appear only
      through the UTF-8 bytes of the literals the scripts use.
    - Python [int] is [Z]; a float that results from [/] is idealised as the
      exact rational it approximates, within the range of a float: a
      quotient beyond it raises [OverflowError], as in Python.  [int(s)]
      on a digit run of a text, and [str(n)] on a number computed from
      one, take at most [max_str_digits] digits, the default of CPython
      3.11, and raise [ValueError] beyond; the counts and indexes that the
      scripts print are within it.
    - Calls into the browser driver and the text generation service are
      external: their outcomes come from an environment indexed by the
      number of external calls made so far, and each may raise. *)

From Stdlib Require Import ZArith QArith Qround Ascii String List Lia Sorted
  DecimalString.
From stdpp Require Import gmap strings list.

Open Scope string_scope.

(** ** Python text primitives *)

Module Py.

Definition code (c : ascii) : N := N_of_ascii c.

Definition in_range (lo hi : N) (c : ascii) : bool :=
  ((lo <=? code c) && (code c <=? hi))%N.

Definition is_digit (c : ascii) : bool := in_range 48 57 c.
Definition is_upper (c : ascii) : bool := in_range 65 90 c.
Definition is_lower (c : ascii) : bool := in_range 97 122 c.
Definition is_alpha (c : ascii) : bool := is_upper c || is_lower c.

(** [\w] *)
Definition is_word (c : ascii) : bool :=
  is_alpha c || is_digit c || (code c =? 95)%N.

(** [\s], and the characters [str.strip()] removes. *)
Definition is_space (c : ascii) : bool := in_range 9 13 c || in_range 28 32 c.

Definition lower_char (c : ascii) : ascii :=
  if is_upper c then ascii_of_N (code c + 32) else c.

(** [s.lower()] *)
Fixpoint lower (s : string) : string :=
  match s with
  | EmptyString => EmptyString
  | String c r => String (lower_char c) (lower r)
  end.

Fixpoint all_chars (p : ascii -> bool) (s : string) : bool :=
  match s with
  | EmptyString => true
  | String c r => p c && all_chars p r
  end.

(** The longest prefix of [s] whose characters satisfy [p]: what a greedy
    [p*] consumes. *)
Fixpoint take_while (p : ascii -> bool) (s : string) : string :=
  match s with
  | EmptyString => EmptyString
  | String c r => if p c then String c (take_while p r) else EmptyString
  end.

Fixpoint drop_while (p : ascii -> bool) (s : string) : string :=
  match s with
  | EmptyString => EmptyString
  | String c r => if p c then drop_while p r else s
  end.

Definition is_empty (s : string) : bool :=
  match s with EmptyString => true | _ => false end.

(** Some character of [s] satisfies [p]. *)
Fixpoint contains_char (p : ascii -> bool) (s : string) : bool :=
  match s with
  | EmptyString => false
  | String c r => p c || contains_char p r
  end.

(** Python truthiness of a [str]. *)
Definition truthy (s : string) : bool := negb (is_empty s).

Definition lstrip (s : string) : string := drop_while is_space s.

Fixpoint rstrip (s : string) : string :=
  match s with
  | EmptyString => EmptyString
  | String c r =>
      let r' := rstrip r in
      if is_space c && is_empty r' then EmptyString else String c r'
  end.

(** [s.strip()] *)
Definition strip (s : string) : string := rstrip (lstrip s).

Definition head (s : string) : option ascii :=
  match s with EmptyString => None | String c _ => Some c end.

Definition is_word_opt (o : option ascii) : bool :=
  match o with Some c => is_word c | None => false end.

(** [\b] between the character [prev] (if any) and the head of [s]. *)
Definition word_boundary (prev : option ascii) (s : string) : bool :=
  xorb (is_word_opt prev) (is_word_opt (head s)).

Definition digit_val (c : ascii) : Z := Z.of_N (code c) - 48.

Fixpoint int_of_digits_from (acc : Z) (s : string) : Z :=
  match s with
  | EmptyString => acc
  | String c r => int_of_digits_from (10 * acc + digit_val c) r
  end.

(** The number that a string of decimal digits denotes. *)
Definition int_of_digits (s : string) : Z := int_of_digits_from 0 s.

(** [sys.int_info.default_max_str_digits]: the most digits that [int(s)]
    and [str(n)] take. *)
Definition max_str_digits : nat := 4300.

(** [int(s)] for a string of decimal digits; [None] stands for the
    [ValueError] raised when [s] has more than [max_str_digits] digits
    (leading zeros count). *)
Definition int_of_str (s : string) : option Z :=
  if (max_str_digits <? String.length s)%nat then None
  else Some (int_of_digits s).

(** [sep.join(l)] *)
Fixpoint join (sep : string) (l : list string) : string :=
  match l with
  | [] => EmptyString
  | [x] => x
  | x :: r => x +:+ sep +:+ join sep r
  end.

(** [s.startswith(p)] *)
Fixpoint startswith (p s : string) : bool :=
  match p, s with
  | EmptyString, _ => true
  | String a p', String b s' => Ascii.eqb a b && startswith p' s'
  | String _ _, EmptyString => false
  end.

(** A literal matched under [re.IGNORECASE] at the head of [s]; the rest
    of [s] after it. *)
Fixpoint match_ci (p s : string) : option string :=
  match p, s with
  | EmptyString, _ => Some s
  | String a p', String b s' =>
      if Ascii.eqb (lower_char a) (lower_char b) then match_ci p' s' else None
  | String _ _, EmptyString => None
  end.

(** A literal matched case-sensitively at the head of [s]. *)
Fixpoint match_lit (p s : string) : option string :=
  match p, s with
  | EmptyString, _ => Some s
  | String a p', String b s' =>
      if Ascii.eqb a b then match_lit p' s' else None
  | String _ _, EmptyString => None
  end.

(** [needle in s] *)
Fixpoint contains (needle s : string) : bool :=
  startswith needle s
  || match s with
     | EmptyString => false
     | String _ r => contains needle r
     end.

(** [s.split(sep)[0]] for a one-character separator. *)
Definition split_head (sep : ascii) (s : string) : string :=
  take_while (fun c => negb (Ascii.eqb c sep)) s.

(** [s[:n]] *)
Definition slice_to (n : nat) (s : string) : string := String.substring 0 n s.

(** A Python number: [int], or a [float] idealised as a rational in lowest
    terms. *)
Inductive num :=
  | Int (z : Z)
  | Float (q : Q).

Definition num_val (n : num) : Q :=
  match n with Int z => inject_Z z | Float q => q end.

(** The least magnitude that rounds to no finite float:
    [2^1024 - 2^970], half a unit in the last place above the largest
    double. *)
Definition float_limit : Z := 2 ^ 1024 - 2 ^ 970.

(** The quotient of [a] by [b] is beyond the range of a float. *)
Definition float_overflow (a b : Z) : bool :=
  (float_limit * Z.abs b <=? Z.abs a)%Z.

(** The quotient of [a] by [b] as a float. *)
Definition quotient (a b : Z) : num := Float (Qred (inject_Z a / inject_Z b)).

(** [a / b] on ints (true division), [b] non-zero; [None] stands for the
    [OverflowError] raised when the quotient is too large for a float. *)
Definition true_div (a b : Z) : option num :=
  if float_overflow a b then None else Some (quotient a b).

(** [int(x)]: truncation toward zero. *)
Definition int_of_num (n : num) : Z :=
  match n with
  | Int z => z
  | Float q => Z.quot (Qnum q) (Z.pos (Qden q))
  end.

Definition num_add (a b : num) : num :=
  match a, b with
  | Int x, Int y => Int (x + y)
  | _, _ => Float (Qred (num_val a + num_val b))
  end.

Definition num_mul (a b : num) : num :=
  match a, b with
  | Int x, Int y => Int (x * y)
  | _, _ => Float (Qred (num_val a * num_val b))
  end.

(** A value that may or may not be a [str]. *)
Inductive val :=
  | Str (s : string)
  | NoneVal
  | Num (n : num).

End Py.

(** ** instagram_scraper.py: the fragment tokenizer *)

Module InstagramParse.
Import Py.

Definition newline : ascii := "010"%char.

(** [$] without [re.MULTILINE]: the end of the string, or just before a
    newline that ends the string. *)
Definition dollar (s : string) : bool :=
  match s with
  | EmptyString => true
  | String c r => Ascii.eqb c newline && is_empty r
  end.

(** [[A-Za-z0-9._]] *)
Definition is_handle_char (c : ascii) : bool :=
  is_alpha c || is_digit c || Ascii.eqb c "." || Ascii.eqb c "_".

(** [username_pattern.match(s)] for [^[A-Za-z0-9._]+$]. *)
Definition username_pattern (s : string) : bool :=
  negb (is_empty (take_while is_handle_char s))
  && dollar (drop_while is_handle_char s).

(** [time_pattern.match(s)] for [^\d+\s*(h|d|w|m)$] with [re.IGNORECASE]. *)
Definition time_pattern (s : string) : bool :=
  negb (is_empty (take_while is_digit s))
  && match drop_while is_space (drop_while is_digit s) with
     | String u rest =>
         existsb (Ascii.eqb (lower_char u)) ["h"; "d"; "w"; "m"]%char
         && dollar rest
     | EmptyString => false
     end.

(** [^(w1|w2|...)$] with [re.IGNORECASE], tried with [match]. *)
Definition words_pattern (words : list string) (s : string) : bool :=
  existsb (fun w => match match_ci w s with
                    | Some rest => dollar rest
                    | None => false
                    end) words.

Definition noise_patterns : list (string -> bool) :=
  [ words_pattern ["reply"; "like"; "likes"; "view all"];
    words_pattern ["locations"; "threads"; "instagram lite"; "meta ai";
                   "meta verified"];
    words_pattern ["about"; "blog"; "jobs"; "help"; "api"; "privacy"; "terms";
                   "contact uploading and non-users"];
    startswith "©" ].

Definition is_noise (text : string) : bool :=
  let text_clean := strip text in
  if is_empty text_clean then true
  else existsb (fun p => p text_clean) noise_patterns.

(** [re.match(r"^\d+\s+likes?$", s)] *)
Definition likes_count (s : string) : bool :=
  negb (is_empty (take_while is_digit s))
  && negb (is_empty (take_while is_space (drop_while is_digit s)))
  && match match_lit "like" (drop_while is_space (drop_while is_digit s)) with
     | Some rest =>
         match rest with
         | String "s" r => dollar r || dollar rest
         | _ => dollar rest
         end
     | None => false
     end.

(** [raw_texts[i].strip() in ["•", ""]] *)
Definition is_stray_bullet (s : string) : bool :=
  String.eqb (strip s) "•" || String.eqb (strip s) "".

(** The dict [parse_ig_comment_blocks] appends. *)
Record Parsed := {
  author : string;
  time : string;
  text : string
}.

(** [while i < len(raw_texts) and raw_texts[i].strip() in ["•", ""]: i += 1],
    on the fragments from index [i] on. *)
Fixpoint skip_bullets (l : list string) : list string :=
  match l with
  | s :: r => if is_stray_bullet s then skip_bullets r else l
  | [] => []
  end.

(** The gathering loop: returns [text_lines] and the fragments left. *)
Fixpoint gather (l : list string) (text_lines : list string)
  : list string * list string :=
  match l with
  | [] => (text_lines, [])
  | s :: r =>
      if username_pattern s && negb (is_noise s) then (text_lines, l)
      else if time_pattern s then (text_lines, l)
      else if is_noise s || likes_count (lower (strip s)) then
        gather r text_lines
      else gather r (text_lines ++ [s])
  end.

(** One pass of the outer [while i < len(raw_texts)] loop per unit of
    [fuel]; [l] is [raw_texts[i:]]. *)
Fixpoint parse_loop (fuel : nat) (l : list string) (comments : list Parsed)
  : list Parsed :=
  match fuel with
  | O => comments
  | S fuel' =>
      match l with
      | [] => comments
      | s :: r =>
          if username_pattern s && negb (is_noise s) then
            let username := s in
            let l1 := skip_bullets r in
            match l1 with
            | t :: l2 =>
                if time_pattern t then
                  let timestamp := t in
                  let '(text_lines, l3) := gather l2 [] in
                  let comment_text := strip (join " " text_lines) in
                  if truthy username && truthy timestamp
                     && truthy comment_text
                  then parse_loop fuel' l3
                         (comments ++ [{| author := username;
                                          time := timestamp;
                                          text := comment_text |}])
                  else parse_loop fuel' l3 comments
                else parse_loop fuel' l1 comments
            | [] => parse_loop fuel' l1 comments
            end
          else parse_loop fuel' r comments
      end
  end.

(** Every pass that does not leave the loop advances [i], so
    [len(raw_texts)] passes suffice. *)
Definition parse_ig_comment_blocks (raw_texts : list string) : list Parsed :=
  parse_loop (List.length raw_texts) raw_texts [].

(** What every emitted record satisfies: author, time and text are all
    present, the author and the time are fragments of the input that pass
    the user name and the time test, and the text is trimmed. *)
Definition complete_record (raw_texts : list string) (c : Parsed) : Prop :=
  truthy (author c) = true /\
  username_pattern (author c) = true /\
  is_noise (author c) = false /\
  In (author c) raw_texts /\
  truthy (time c) = true /\
  time_pattern (time c) = true /\
  In (time c) raw_texts /\
  truthy (text c) = true /\
  strip (text c) = text c.

End InstagramParse.

(** ** Exceptions, the process state and the monad of a script run *)

Module Run.
Import Py.

Inductive exn :=
  | NoSuchElementException
  | StaleElementReferenceException
  | TimeoutException
  | WebDriverException
  | ServiceError
  | NameError (name : string)
  | UnboundLocalError (name : string)
  | ZeroDivisionError
  | OverflowError
  | ValueError
  | KeyError (key : string)
  | TypeError
  | KeyboardInterrupt
  | SystemExit (code : Z).

(** What [except Exception] catches; a bare [except:] catches all. *)
Definition is_Exception (e : exn) : bool :=
  match e with
  | KeyboardInterrupt | SystemExit _ => false
  | _ => true
  end.

(** [str(e)] *)
Definition str_of_exn (e : exn) : string :=
  match e with
  | NoSuchElementException => "no such element"
  | StaleElementReferenceException => "stale element reference"
  | TimeoutException => "timeout"
  | WebDriverException => "webdriver error"
  | ServiceError => "service error"
  | NameError n => "name '" +:+ n +:+ "' is not defined"
  | UnboundLocalError n =>
      "cannot access local variable '" +:+ n +:+ "'"
  | ZeroDivisionError => "division by zero"
  | OverflowError => "integer division result too large for a float"
  | ValueError => "Exceeds the limit (4300 digits) for integer string conversion"
  | KeyError k => "'" +:+ k +:+ "'"
  | TypeError => "'NoneType' object is not subscriptable"
  | KeyboardInterrupt => ""
  | SystemExit _ => ""
  end.

Inductive result (A : Type) :=
  | Ok (a : A)
  | Raise (e : exn).
Arguments Ok {A} a.
Arguments Raise {A} e.

(** [try: r except Exception: h] for a computation without state. *)
Definition catch_Exception {A} (r : result A) (h : result A) : result A :=
  match r with
  | Ok a => Ok a
  | Raise e => if is_Exception e then h else Raise e
  end.

(** [try: r except: h] *)
Definition catch_all {A} (r : result A) (h : result A) : result A :=
  match r with
  | Ok a => Ok a
  | Raise _ => h
  end.

Definition rbind {A B} (r : result A) (k : A -> result B) : result B :=
  match r with
  | Ok a => k a
  | Raise e => Raise e
  end.

(** The browser process behind the driver. *)
Inductive Session := NoSession | Open | Closed.

(** The dict [log_progress] prints. *)
Record Event := {
  status : string;
  progress : num;
  totalComments : Z;
  totalReplies : Z;
  message : string
}.

(** An entry of [replies_data]. *)
Record ReplyAttempt := {
  username : string;
  reply_text : string;
  success : bool
}.

(** An entry of the [comments] list of the result. *)
Record CommentOut := {
  out_post_url : string;
  out_username : string;
  out_comment : string;
  out_time : val
}.

(** The result object printed at the end of a run. *)
Record RunResult := {
  res_success : bool;
  res_platform : string;
  res_totalComments : Z;
  res_totalReplies : Z;
  res_comments : list CommentOut;
  res_replies : list ReplyAttempt;
  res_stats : option (Z * Z * Z)
}.

(** What a run writes to its standard output: progress lines, the plain
    messages of [print], and the result object. *)
Inductive Line :=
  | Progress (e : Event)
  | Print (s : string)
  | Output (r : RunResult).

Record State := {
  tick : nat;               (* external calls made so far *)
  session : Session;
  stdout : list Line;       (* oldest first *)
  globals : gset string;    (* names bound in the module namespace *)
  locals : gset string      (* names bound in the frame of [main] *)
}.

Definition with_tick (n : nat) (w : State) : State :=
  {| tick := n; session := session w; stdout := stdout w;
     globals := globals w; locals := locals w |}.
Definition with_session (s : Session) (w : State) : State :=
  {| tick := tick w; session := s; stdout := stdout w;
     globals := globals w; locals := locals w |}.
Definition with_stdout (l : list Line) (w : State) : State :=
  {| tick := tick w; session := session w; stdout := l;
     globals := globals w; locals := locals w |}.
Definition with_globals (g : gset string) (w : State) : State :=
  {| tick := tick w; session := session w; stdout := stdout w;
     globals := g; locals := locals w |}.
Definition with_locals (g : gset string) (w : State) : State :=
  {| tick := tick w; session := session w; stdout := stdout w;
     globals := globals w; locals := g |}.

Definition start (g : gset string) : State :=
  {| tick := 0; session := NoSession; stdout := [];
     globals := g; locals := ∅ |}.

(** A lookup on a DOM element: the value, or the error it raises. *)
Record Abbr := {
  aria_label : result (option string);   (* get_attribute("aria-label") *)
  abbr_text : result string
}.

(** A Facebook comment container, as the lookups of [parse_blocks] see it. *)
Record FbBlock := {
  fb_link_text : result string;          (* find_element(".//a").text *)
  fb_span_texts : result (list string);  (* the .text of each ".//span" *)
  fb_abbr : result Abbr                  (* find_element(".//abbr") *)
}.

(** A tweet container, as the lookups of [parse_replies] see it. *)
Record TwBlock := {
  tw_text : result string;       (* find_element(tweetText).text *)
  tw_user : result string;       (* find_element(".//div[@dir='ltr']/span").text *)
  tw_reply_btn : result nat      (* find_element(reply), an element handle *)
}.

(** A LinkedIn comment container, as the lookups of [parse_comments] see
    it. *)
Record LiBlock := {
  li_user : result string;
  li_comment : result string;
  li_time : result string
}.

(** The outcomes of the external calls, by call number. *)
Record Env := {
  raises : nat -> option exn;
  texts : nat -> string;
  attrs : nat -> option string;
  flags : nat -> bool;
  counts : nat -> nat;
  numbers : nat -> Z;
  fb_blocks : nat -> list FbBlock;
  tw_blocks : nat -> list TwBlock;
  li_blocks : nat -> list LiBlock
}.

Definition M (A : Type) : Type := State -> result A * State.

Definition ret {A} (a : A) : M A := fun w => (Ok a, w).

Definition bind {A B} (c : M A) (k : A -> M B) : M B :=
  fun w =>
    match c w with
    | (Ok a, w') => k a w'
    | (Raise e, w') => (Raise e, w')
    end.

Definition raise {A} (e : exn) : M A := fun w => (Raise e, w).

(** [try: body except Exception as e: handler(e)] *)
Definition try_except {A} (body : M A) (handler : exn -> M A) : M A :=
  fun w =>
    match body w with
    | (Ok a, w') => (Ok a, w')
    | (Raise e, w') =>
        if is_Exception e then handler e w' else (Raise e, w')
    end.

(** [try: body except TimeoutException: handler] *)
Definition try_except_timeout {A} (body : M A) (handler : M A) : M A :=
  fun w =>
    match body w with
    | (Raise TimeoutException, w') => handler w'
    | other => other
    end.

(** [try: body except: handler] *)
Definition try_except_all {A} (body : M A) (handler : M A) : M A :=
  fun w =>
    match body w with
    | (Ok a, w') => (Ok a, w')
    | (Raise _, w') => handler w'
    end.

(** [try: body finally: fin] *)
Definition try_finally {A} (body : M A) (fin : M unit) : M A :=
  fun w =>
    match body w with
    | (r, w') =>
        match fin w' with
        | (Ok _, w'') => (r, w'')
        | (Raise e, w'') => (Raise e, w'')
        end
    end.

Definition get_state : M State := fun w => (Ok w, w).

Definition emit (l : Line) : M unit :=
  fun w => (Ok tt, with_stdout (stdout w ++ [l]) w).

Definition set_session (s : Session) : M unit :=
  fun w => (Ok tt, with_session s w).

(** An [import] or an assignment at module level. *)
Definition bind_global (n : string) : M unit :=
  fun w => (Ok tt, with_globals ({[n]} ∪ globals w) w).

(** An assignment in [main]. *)
Definition bind_local (n : string) : M unit :=
  fun w => (Ok tt, with_locals ({[n]} ∪ locals w) w).

(** Reading a global name from inside a function. *)
Definition load_global (n : string) : M unit :=
  fun w => if bool_decide (n ∈ globals w) then (Ok tt, w)
           else (Raise (NameError n), w).

(** Reading a local of [main] that is assigned somewhere in [main]. *)
Definition load_local (n : string) : M unit :=
  fun w => if bool_decide (n ∈ locals w) then (Ok tt, w)
           else (Raise (UnboundLocalError n), w).

(** The outcome of a step of a [for] loop body. *)
Inductive ctl (S : Type) :=
  | Break (s : S)
  | Next (s : S).
Arguments Break {S} s.
Arguments Next {S} s.

(** How a [for] loop was left. *)
Inductive loop_exit := Exhausted | Broke.

Notation "x <- c1 ;; c2" := (bind c1 (fun x => c2))
  (at level 100, c1 at next level, right associativity).
Notation "c1 ;; c2" := (bind c1 (fun _ => c2))
  (at level 100, right associativity).

(** [for x in l: body], the loop variables threaded as [s]. *)
Fixpoint for_each {A S} (body : A -> S -> M (ctl S)) (l : list A) (s : S)
  : M (S * loop_exit) :=
  match l with
  | [] => ret (s, Exhausted)
  | x :: r =>
      c <- body x s ;;
      match c with
      | Break s' => ret (s', Broke)
      | Next s' => for_each body r s'
      end
  end.

(** [str(n)] for an int. *)
Definition str_of_Z (z : Z) : string :=
  NilZero.string_of_int (Z.to_int z).

Definition len {A} (l : list A) : Z := Z.of_nat (List.length l).

(** [range(n)] *)
Definition range (n : Z) : list Z := map Z.of_nat (seq 0 (Z.to_nat n)).

Section WithEnv.
Context (env : Env).

(** An external call: the [tick]-th one; it raises or returns what the
    environment holds for it. *)
Definition ext {A} (get : Env -> nat -> A) : M A :=
  fun w =>
    let n := tick w in
    match raises env n with
    | Some e => (Raise e, with_tick (S n) w)
    | None => (Ok (get env n), with_tick (S n) w)
    end.

Definition ext_unit : M unit := ext (fun _ _ => tt).
Definition ext_text : M string := ext texts.
Definition ext_attr : M (option string) := ext attrs.
Definition ext_flag : M bool := ext flags.
Definition ext_count : M nat := ext counts.
Definition ext_number : M Z := ext numbers.

(** [n] external calls in a row, e.g. one [send_keys] per character. *)
Fixpoint ext_times (n : nat) : M unit :=
  match n with
  | O => ret tt
  | S k => ext_unit ;; ext_times k
  end.

End WithEnv.

(** A value, or the exception that stands for its absence. *)
Definition or_raise {A} (e : exn) (o : option A) : result A :=
  match o with
  | Some a => Ok a
  | None => Raise e
  end.

(** A computation without state, run inside a script. *)
Definition lift {A} (r : result A) : M A := fun w => (r, w).

(** [a / b] on ints. *)
Definition div (a b : Z) : M num :=
  if (b =? 0)%Z then raise ZeroDivisionError
  else lift (or_raise OverflowError (true_div a b)).

(** [log_progress]: it reads the global [json]. *)
Definition log_progress (status : string) (progress : num)
    (total_comments total_replies : Z) (message : string) : M unit :=
  let data := {| status := status; progress := progress;
                 totalComments := total_comments;
                 totalReplies := total_replies; message := message |} in
  load_global "json" ;;
  emit (Progress data).

Definition print (s : string) : M unit := emit (Print s).

(** The newline at the head of some messages. *)
Definition nl : string := String "010"%char EmptyString.

(** [enumerate(l, start)] *)
Fixpoint enumerate {A} (start : Z) (l : list A) : list (Z * A) :=
  match l with
  | [] => []
  | x :: r => (start, x) :: enumerate (start + 1)%Z r
  end.

(** [links.add(u)]; the set of links is kept as a list without
    duplicates, [list(links)] enumerating it in some order. *)
Definition set_add (u : string) (links : list string) : list string :=
  if existsb (String.eqb u) links then links else links ++ [u].

(** *** Judgments about runs *)

(** From a state that satisfies [P], [c] ends in a state that satisfies
    [Q] with its result, or [E] with the exception it raises. *)
Definition hoare {A} (P : State -> Prop) (c : M A)
    (Q : A -> State -> Prop) (E : exn -> State -> Prop) : Prop :=
  forall w, P w ->
    match c w with
    | (Ok a, w') => Q a w'
    | (Raise e, w') => E e w'
    end.

(** [c] makes external calls and writes lines that satisfy [ok], and does
    nothing else to the state; what it raises satisfies [E]. *)
Definition appends {A} (ok : Line -> bool) (E : exn -> Prop) (c : M A)
  : Prop :=
  forall w,
    (exists n ls,
       snd (c w) = with_tick n (with_stdout (stdout w ++ ls) w) /\
       forallb ok ls = true) /\
    (forall e, fst (c w) = Raise e -> E e).

(** [P] does not depend on the number of external calls made, nor on the
    lines that satisfy [ok]. *)
Definition stable (ok : Line -> bool) (P : State -> Prop) : Prop :=
  forall w n ls,
    forallb ok ls = true ->
    P w -> P (with_tick n (with_stdout (stdout w ++ ls) w)).

(** The exception is one the environment raises at some call. *)
Definition from_env (env : Env) (e : exn) : Prop :=
  exists n, raises env n = Some e.

(** The environment raises nothing. *)
Definition quiet (env : Env) : Prop := forall n, raises env n = None.

(** An environment in which no call raises and nothing is found. *)
Definition calm_env : Env :=
  {| raises := fun _ => None;
     texts := fun _ => "ok";
     attrs := fun _ => None;
     flags := fun _ => true;
     counts := fun _ => O;
     numbers := fun _ => 0%Z;
     fb_blocks := fun _ => [];
     tw_blocks := fun _ => [];
     li_blocks := fun _ => [] |}.

(** [env], except that the call number [k] raises [e]. *)
Definition failing_at (k : nat) (e : exn) (env : Env) : Env :=
  {| raises := fun n => if Nat.eqb n k then Some e else raises env n;
     texts := texts env;
     attrs := attrs env;
     flags := flags env;
     counts := counts env;
     numbers := numbers env;
     fb_blocks := fb_blocks env;
     tw_blocks := tw_blocks env;
     li_blocks := li_blocks env |}.

(** The [progress] fields of the progress lines written. *)
Definition progress_values (out : list Line) : list num :=
  flat_map (fun l => match l with
                     | Progress e => [progress e]
                     | _ => []
                     end) out.

Definition is_progress (l : Line) : bool :=
  match l with Progress _ => true | _ => false end.

Definition not_progress (l : Line) : bool := negb (is_progress l).

(** The progress values written so far are all ints; after the first one
    they do not decrease and stay at or below [b]. *)
Definition mono (b : Z) (w : State) : Prop :=
  "json" ∈ globals w /\
  exists z0 zs,
    progress_values (stdout w) = map Int (z0 :: zs) /\
    Sorted Z.le zs /\
    Forall (fun z => (z <= b)%Z) zs.

(** The global [json] is bound. *)
Definition has_json (w : State) : Prop := "json" ∈ globals w.

(** A run that has written no progress line yet. *)
Definition fresh (w : State) : Prop :=
  "json" ∈ globals w /\ progress_values (stdout w) = [].

(** The progress values written are ints that, after the first one, do not
    decrease and end at 100. *)
Definition completed (w : State) : Prop :=
  exists z0 zs,
    progress_values (stdout w) = map Int (z0 :: zs) /\
    Sorted Z.le zs /\
    last zs = Some 100%Z.

(** The progress values among the lines [out] are ints that, after the
    first one, do not decrease. *)
Definition ordered (out : list Line) : Prop :=
  exists vs, progress_values out = map Int vs /\ Sorted Z.le (tl vs).

(** [json] is bound and the progress values written so far are in
    order. *)
Definition in_order (w : State) : Prop :=
  has_json w /\ ordered (stdout w).

(** Where a run is when an exception leaves a phase of [main]: the
    values written so far are in order. *)
Definition halted : exn -> State -> Prop := fun _ w => in_order w.

(** The event the [except] handler of [main] writes. *)
Definition failed_event (e : exn) : Event :=
  {| status := "failed"; progress := Int 0; totalComments := 0;
     totalReplies := 0; message := str_of_exn e |}.

(** The lines end with the failed event for an error of class
    [Exception], and are in order before it. *)
Definition ends_failed (out : list Line) : Prop :=
  exists out0 e,
    out = (out0 ++ [Progress (failed_event e)])%list /\
    is_Exception e = true /\
    ordered out0.

(** The user names of the successful entries of [replies_data]. *)
Definition replied_names (rs : list ReplyAttempt) : list string :=
  map username (List.filter success rs).

(** The loop variables of a reply loop. *)
Record Sched := {
  replied_users : gset string;
  reply_count : Z;
  failed_count : Z;                 (* Facebook only *)
  replies_data : list ReplyAttempt
}.

Definition sched0 : Sched :=
  {| replied_users := ∅; reply_count := 0; failed_count := 0;
     replies_data := [] |}.

End Run.

(** ** facebook_scraper.py: relative time *)

Module FacebookTime.
Import Py Run.

(** The alternation [(m|h|d|w|y)]. *)
Definition is_unit (c : ascii) : bool :=
  existsb (Ascii.eqb c) ["m"; "h"; "d"; "w"; "y"]%char.

(** [\b(\d+)\s*(m|h|d|w|y)\b] tried at the head of [s], [prev] being the
    character before it.  Digits, whitespace and unit letters are disjoint
    classes, so the greedy extents of [\d+] and [\s*] are the only ones that
    can lead to a match.  Returns the two groups. *)
Definition time_match_here (prev : option ascii) (s : string)
  : option (string * ascii) :=
  if word_boundary prev s then
    let ds := take_while is_digit s in
    if is_empty ds then None
    else
      match drop_while is_space (drop_while is_digit s) with
      | String u rest =>
          if is_unit u && word_boundary (Some u) rest then Some (ds, u)
          else None
      | EmptyString => None
      end
  else None.

(** [re.search]: the leftmost position where the pattern matches. *)
Fixpoint time_search (prev : option ascii) (s : string)
  : option (string * ascii) :=
  match time_match_here prev s with
  | Some m => Some m
  | None =>
      match s with
      | EmptyString => None
      | String c r => time_search (Some c) r
      end
  end.

(** [if unit == ...: return ...]: the branches of the conversion, for the
    value that [int] returned; [value / 60] raises [OverflowError] beyond
    the range of a float. *)
Definition converted (unit : ascii) (value : Z) : result (option num) :=
  if Ascii.eqb unit "m" then
    rbind (or_raise OverflowError (true_div value 60)) (fun q => Ok (Some q))
  else if Ascii.eqb unit "h" then Ok (Some (Int value))
  else if Ascii.eqb unit "d" then Ok (Some (Int (value * 24)))
  else if Ascii.eqb unit "w" then Ok (Some (Int (value * 168)))
  else if Ascii.eqb unit "y" then Ok (Some (Int (value * 8760)))
  else Ok None.

(** The return value, or the exception raised; [int] raises [ValueError]
    on a digit run beyond [max_str_digits]. *)
Definition fb_time_to_hours_from_comment (text : val) : result (option num) :=
  match text with
  | Str text =>
      match time_search None (lower text) with
      | None => Ok None
      | Some (g1, unit) =>
          rbind (or_raise ValueError (int_of_str g1)) (converted unit)
      end
  | _ => Ok None
  end.

(** The conversion table of the specification, in hours. *)
Definition hours_of (unit : ascii) (value : Z) : option Q :=
  if Ascii.eqb unit "m" then Some (inject_Z value / 60)%Q
  else if Ascii.eqb unit "h" then Some (inject_Z value)
  else if Ascii.eqb unit "d" then Some (inject_Z (value * 24))
  else if Ascii.eqb unit "w" then Some (inject_Z (value * 168))
  else if Ascii.eqb unit "y" then Some (inject_Z (value * 8760))
  else None.

(** The last character of [pre], or [prev] when [pre] is empty. *)
Fixpoint last_char (prev : option ascii) (pre : string) : option ascii :=
  match pre with
  | EmptyString => prev
  | String c r => last_char (Some c) r
  end.

(** [s] holds a relative-time token somewhere: digits, optional whitespace
    and a unit letter, delimited by word boundaries.  [prev] is the
    character before [s], if any. *)
Definition has_time_token_after (prev : option ascii) (s : string)
  (ds : string) (u : ascii) : Prop :=
  exists pre sp post,
    s = pre +:+ ds +:+ sp +:+ String u post /\
    ds <> EmptyString /\
    all_chars is_digit ds = true /\
    all_chars is_space sp = true /\
    is_unit u = true /\
    is_word_opt (last_char prev pre) = false /\
    is_word_opt (head post) = false.

Definition has_time_token (s : string) : Prop :=
  exists ds u, has_time_token_after None s ds u.

(** What the function returns agrees with an entry of the table. *)
Definition agrees (r : option num) (h : option Q) : Prop :=
  match r, h with
  | Some n, Some q => num_val n == q
  | None, None => True
  | _, _ => False
  end.

(** The digit run [ds] with the unit [u] is within the limits of the
    conversion: [int] takes it, and for minutes the quotient by 60 is
    within the range of a float. *)
Definition convertible (ds : string) (u : ascii) : Prop :=
  (String.length ds <= max_str_digits)%nat /\
  (u = "m"%char -> float_overflow (int_of_digits ds) 60 = false).

(** [n] copies of the character [c]. *)
Fixpoint repeat_char (c : ascii) (n : nat) : string :=
  match n with
  | O => EmptyString
  | S k => String c (repeat_char c k)
  end.

End FacebookTime.

(** ** Regular-expression substitution *)

Module Re.
Import Py.

(** A pattern tried at one position: [m prev s] is the length of its match
    at the head of [s], [prev] being the character before.  None of the
    patterns of the scripts matches the empty string. *)
Definition matcher := option ascii -> string -> option nat.

(** [re.sub(pattern, repl, s)]: scan from the left; at a match write [repl]
    and resume after it ([skip] counts the characters of the match still to
    pass over), otherwise copy one character. *)
Fixpoint sub_scan (m : matcher) (repl : string) (skip : nat)
    (prev : option ascii) (s : string) : string :=
  match s with
  | EmptyString => EmptyString
  | String c r =>
      match skip with
      | S k => sub_scan m repl k (Some c) r
      | O =>
          match m prev s with
          | Some (S k) => repl +:+ sub_scan m repl k (Some c) r
          | _ => String c (sub_scan m repl 0 (Some c) r)
          end
      end
  end.

Definition sub (m : matcher) (repl : string) (s : string) : string :=
  sub_scan m repl 0 None s.

(** [re.search(pattern, s) is not None] *)
Fixpoint search_from (m : matcher) (prev : option ascii) (s : string) : bool :=
  match m prev s with
  | Some (S _) => true
  | _ =>
      match s with
      | EmptyString => false
      | String c r => search_from m (Some c) r
      end
  end.

Definition search (m : matcher) (s : string) : bool := search_from m None s.

End Re.

(** ** facebook_scraper.py *)

Module Facebook.
Import Py Run Re.

Definition REPLY_DELAY : Z := 30.
Definition SCROLL_ROUNDS : Z := 15.

(** *** Cleaning helpers *)

Definition not_space (c : ascii) : bool := negb (is_space c).

(** [https?://\S+] *)
Definition url_pattern : matcher := fun _ s =>
  match match_lit "http" s with
  | Some r =>
      let r' := match r with
                | String "s" r2 => if startswith "://" r2 then r2 else r
                | _ => r
                end in
      match match_lit "://" r' with
      | Some body =>
          let run := take_while not_space body in
          if is_empty run then None
          else Some (String.length s - String.length body
                     + String.length run)%nat
      | None => None
      end
  | None => None
  end.

(** [\bLike\b\s*\bLike\b] with [re.IGNORECASE] *)
Definition like_like_pattern : matcher := fun prev s =>
  if word_boundary prev s then
    match match_ci "Like" s with
    | Some r1 =>
        if word_boundary (Some "e"%char) r1 then
          let sp := take_while is_space r1 in
          let r2 := drop_while is_space r1 in
          if word_boundary (FacebookTime.last_char (Some "e"%char) sp) r2 then
            match match_ci "Like" r2 with
            | Some r3 =>
                if word_boundary (Some "e"%char) r3
                then Some (String.length s - String.length r3)%nat
                else None
            | None => None
            end
          else None
        else None
    | None => None
    end
  else None.

(** [\s*\bLike\b\s*] *)
Definition like_pattern : matcher := fun prev s =>
  let sp := take_while is_space s in
  let r := drop_while is_space s in
  if word_boundary (FacebookTime.last_char prev sp) r then
    match match_lit "Like" r with
    | Some r2 =>
        if word_boundary (Some "e"%char) r2
        then Some (String.length s - String.length (drop_while is_space r2))%nat
        else None
    | None => None
    end
  else None.

(** [\bword\b] with [re.IGNORECASE], for a word of letters *)
Definition word_pattern (word : string) : matcher := fun prev s =>
  if word_boundary prev s then
    match match_ci word s with
    | Some r =>
        if word_boundary (FacebookTime.last_char None word) r
        then Some (String.length word)
        else None
    | None => None
    end
  else None.

(** [\b(\d+)\s+\1\b] *)
Definition count_pattern : matcher := fun prev s =>
  if word_boundary prev s then
    let ds := take_while is_digit s in
    let r1 := drop_while is_digit s in
    let sp := take_while is_space r1 in
    if is_empty ds || is_empty sp then None
    else
      match match_lit ds (drop_while is_space r1) with
      | Some r3 =>
          if word_boundary (FacebookTime.last_char None ds) r3
          then Some (String.length s - String.length r3)%nat
          else None
      | None => None
      end
  else None.

(** [·\s*Follow\s*·?\s*Follow] *)
Definition follow_pattern : matcher := fun _ s =>
  match match_lit "·" s with
  | Some r1 =>
      match match_lit "Follow" (drop_while is_space r1) with
      | Some r3 =>
          let r4 := drop_while is_space r3 in
          let r5 := match match_lit "·" r4 with
                    | Some r => r
                    | None => r4
                    end in
          match match_lit "Follow" (drop_while is_space r5) with
          | Some r7 => Some (String.length s - String.length r7)%nat
          | None => None
          end
      | None => None
      end
  | None => None
  end.

(** [\s+] *)
Definition spaces_pattern : matcher := fun _ s =>
  match String.length (take_while is_space s) with
  | O => None
  | n => Some n
  end.

(** [s.replace('\n', ' ')] *)
Fixpoint replace_newlines (s : string) : string :=
  match s with
  | EmptyString => EmptyString
  | String c r =>
      String (if Ascii.eqb c InstagramParse.newline then " "%char else c)
             (replace_newlines r)
  end.

(** The removal steps of [clean_comment], in order, up to the whitespace
    normalisation. *)
Definition remove_tokens (comment_text : string) : string :=
  let comment_text := sub url_pattern "" comment_text in
  let comment_text := sub like_like_pattern "" comment_text in
  let comment_text := strip (sub like_pattern " " comment_text) in
  let comment_text := sub (word_pattern "Edited") "" comment_text in
  let comment_text := sub count_pattern "" comment_text in
  let comment_text := sub follow_pattern "" comment_text in
  let comment_text := sub (word_pattern "Reply") "" comment_text in
  comment_text.

(** The last two steps: newlines to spaces, runs of whitespace to one
    space, trim. *)
Definition normalize_spaces (comment_text : string) : string :=
  let comment_text := replace_newlines comment_text in
  strip (sub spaces_pattern " " comment_text).

Definition clean_comment (comment_text : string) : string :=
  if is_empty comment_text then ""
  else normalize_spaces (remove_tokens comment_text).

(** The patterns of the removal steps. *)
Definition removal_patterns : list matcher :=
  [ url_pattern; like_like_pattern; like_pattern; word_pattern "Edited";
    count_pattern; follow_pattern; word_pattern "Reply" ].

(** None of the removal patterns is found in [s]. *)
Definition tokens_free (s : string) : bool :=
  forallb (fun m => negb (search m s)) removal_patterns.

(** Runs of whitespace collapsed to one space, by direct recursion;
    [in_run] tells that the character before was whitespace. *)
Fixpoint squeeze (in_run : bool) (s : string) : string :=
  match s with
  | EmptyString => EmptyString
  | String c r =>
      if is_space c then
        if in_run then squeeze true r else String " " (squeeze true r)
      else String c (squeeze false r)
  end.

(** Every whitespace character of [s] is a space that follows a
    character that is not whitespace. *)
Fixpoint single_spaced (prev_space : bool) (s : string) : bool :=
  match s with
  | EmptyString => true
  | String c r =>
      if is_space c then
        Ascii.eqb c " " && negb prev_space && single_spaced true r
      else single_spaced false r
  end.

(** Whitespace-normal text: single spaces between words, none at the
    ends. *)
Definition ws_normal (s : string) : Prop :=
  single_spaced true s = true /\ rstrip s = s.

(** *** The container parser *)

(** The dict [parse_blocks] appends. *)
Record Comment := {
  post_url : string;
  c_username : string;
  comment : string;
  time_raw : val;
  block : FbBlock
}.

(** [abbr.get_attribute("aria-label") or abbr.text] inside its own
    [try/except]. *)
Definition time_raw_of (block : FbBlock) : val :=
  match fb_abbr block with
  | Ok abbr =>
      match aria_label abbr with
      | Ok (Some l) =>
          if truthy l then Str l
          else match abbr_text abbr with Ok t => Str t | Raise _ => NoneVal end
      | Ok None =>
          match abbr_text abbr with Ok t => Str t | Raise _ => NoneVal end
      | Raise _ => NoneVal
      end
  | Raise _ => NoneVal
  end.

(** The body of the [try] for one container: [None] stands for the
    [continue] on a short text. *)
Definition parse_block (url : string) (block : FbBlock)
  : result (option Comment) :=
  rbind (fb_link_text block) (fun link_text =>
  let username := strip link_text in
  rbind (fb_span_texts block) (fun spans =>
  let text := strip (join " " (List.filter truthy spans)) in
  if (String.length text <? 5)%nat then Ok None
  else
    let time_raw := time_raw_of block in
    Ok (Some {| post_url := url;
                c_username := if truthy username then username
                              else "Anonymous";
                comment := text;
                time_raw := time_raw;
                block := block |}))).

Fixpoint parse_blocks_from (data : list Comment) (blocks : list FbBlock)
    (url : string) : result (list Comment) :=
  match blocks with
  | [] => Ok data
  | block :: rest =>
      rbind
        (catch_Exception
           (rbind (parse_block url block) (fun o =>
              match o with
              | Some c => Ok (data ++ [c])%list
              | None => Ok data
              end))
           (Ok data))
        (fun data' => parse_blocks_from data' rest url)
  end.

Definition parse_blocks (blocks : list FbBlock) (url : string)
  : result (list Comment) :=
  parse_blocks_from [] blocks url.

(** A container [parse_blocks] keeps: both lookups succeed and the text has
    at least 5 characters. *)
Definition accepted (block : FbBlock) : bool :=
  match fb_link_text block, fb_span_texts block with
  | Ok _, Ok spans =>
      (5 <=? String.length (strip (join " " (List.filter truthy spans))))%nat
  | _, _ => false
  end.

(** A container whose structural lookup raises. *)
Definition malformed (block : FbBlock) : bool :=
  match fb_link_text block, fb_span_texts block with
  | Ok _, Ok _ => false
  | _, _ => true
  end.

(** The lookups of a container raise nothing beyond [Exception]. *)
Definition raises_Exception_only (block : FbBlock) : Prop :=
  (forall e, fb_link_text block = Raise e -> is_Exception e = true) /\
  (forall e, fb_span_texts block = Raise e -> is_Exception e = true).

(** *** The script *)

(** The names the [import] statements at the top of the file bind. *)
Definition imports : gset string :=
  list_to_set ["uc"; "By"; "Keys"; "WebDriverWait"; "EC"; "TimeoutException";
               "time"; "os"; "re"; "sys"; "pd"; "Groq"; "argparse"; "json"].

Section Script.
Context (env : Env).
Context (REPLY_LIMIT GOOGLE_PAGES : Z).

Definition setup_driver : M unit :=
  ext_unit env ;;                 (* uc.Chrome(options=options) *)
  set_session Open ;;
  ext_unit env.                   (* driver.execute_script(...) *)

Definition is_reel_loaded : M bool :=
  current_url <- ext_text env ;;
  let u := lower current_url in
  ret (existsb (fun x => contains x u) ["/reel/"; "/reels/"; "/watch/"]).

(** One page of search results: the [href] of every link, then the click
    on "next"; [true] when the loop goes on. *)
Fixpoint collect_hrefs (n : nat) (links : list string) : M (list string) :=
  match n with
  | O => ret links
  | S k =>
      url <- ext_attr env ;;      (* a.get_attribute("href") *)
      match url with
      | None => collect_hrefs k links
      | Some url =>
          if is_empty url then collect_hrefs k links
          else
            let u := lower url in
            if contains "facebook.com" u
               && existsb (fun x => contains x u)
                    ["/posts/"; "/groups/"; "permalink.php"; "/reel/";
                     "/reels/"]
               && negb (existsb (fun x => contains x u) ["/video"; "/watch"])
            then collect_hrefs k (set_add (split_head "?" url) links)
            else collect_hrefs k links
      end
  end.

Definition search_page (page : Z) (links : list string)
  : M (ctl (list string)) :=
  print ("🔍 Google page " +:+ str_of_Z (page + 1)) ;;
  n <- ext_count env ;;           (* driver.find_elements("//a[@href]") *)
  links <- collect_hrefs n links ;;
  try_except_all
    (ext_unit env ;;              (* driver.find_element(By.ID, "pnnext") *)
     ext_unit env ;;              (* .click() *)
     ret (Next links))
    (ret (Break links)).

Definition google_search_and_collect_links : M (list string) :=
  ext_unit env ;;                 (* driver.get("https://www.google.com") *)
  try_except_all
    (ext_unit env ;; ext_unit env)  (* find the Accept button, click it *)
    (ret tt) ;;
  ext_unit env ;;                 (* q = driver.find_element(By.NAME, "q") *)
  ext_unit env ;;                 (* q.send_keys(query) *)
  ext_unit env ;;                 (* q.send_keys(Keys.RETURN) *)
  p <- for_each search_page (range GOOGLE_PAGES) [] ;;
  ret (fst p).

(** The clicks on the "View more" buttons of one scroll round. *)
Fixpoint click_buttons (n : nat) (round_num : Z) : M unit :=
  match n with
  | O => ret tt
  | S k =>
      try_except_all
        (ext_unit env ;;          (* b.click() *)
         print ("   📂 Clicked to expand comments (round "
                +:+ str_of_Z (round_num + 1) +:+ ")"))
        (ret tt) ;;
      click_buttons k round_num
  end.

(** [for round_num in range(SCROLL_ROUNDS)], [rounds] passes left. *)
Fixpoint scroll_rounds (rounds : nat) (round_num : Z) : M unit :=
  match rounds with
  | O => ret tt
  | S k =>
      n <- ext_count env ;;       (* the buttons found *)
      click_buttons n round_num ;;
      ext_unit env ;;             (* driver.execute_script(scroll) *)
      scroll_rounds k (round_num + 1)
  end.

Definition load_all_post_comments : M (list FbBlock) :=
  dialog <-
    try_except_timeout
      (ext_unit env ;;            (* WebDriverWait(driver, 10).until(dialog) *)
       print "📁 Dialog detected for comments" ;;
       ret true)
      (print "⚠️ No dialog found, returning empty list" ;;
       ret false) ;;
  if negb dialog then ret []
  else
    scrollers <- ext_count env ;; (* dialog.find_elements(scrollers) *)
    (if (0 <? scrollers)%nat then print "   📜 Found scroller element"
     else print "   ⚠️ No scroller found, will use window scroll") ;;
    scroll_rounds (Z.to_nat SCROLL_ROUNDS) 0 ;;
    article_elements <- ext env fb_blocks ;;  (* dialog.find_elements *)
    print ("   🔍 Found " +:+ str_of_Z (len article_elements)
           +:+ " unique article elements total") ;;
    ret article_elements.

Definition click_reel_comment_button : M bool :=
  try_except_all
    (ext_unit env ;;              (* wait for the button *)
     ext_unit env ;;              (* click it *)
     ret true)
    (ret false).

Definition prepare_post_for_reply : M unit :=
  reel <- is_reel_loaded ;;
  (if reel then _ <- click_reel_comment_button ;; ret tt
   else _ <- load_all_post_comments ;; ret tt) ;;
  ext_unit env.                   (* driver.execute_script(scroll) *)

Definition generate_reply (username comment : string) : M string :=
  try_except
    (r <- ext_text env ;; ret (strip r))
    (fun e =>
       print ("Groq error: " +:+ str_of_exn e) ;;
       ret ("Thanks for sharing your thoughts, " +:+ username +:+ "!")).

Definition post_reply (reply_text : string) : M bool :=
  try_except
    (ext_unit env ;;              (* find the Reply button *)
     ext_unit env ;;              (* click it *)
     ext_unit env ;;              (* find the input box *)
     ext_times env (String.length reply_text) ;;   (* send_keys(ch) *)
     ext_unit env ;;              (* send_keys(Keys.ENTER) *)
     ret true)
    (fun e => print ("Reply error: " +:+ str_of_exn e) ;; ret false).

(** The body of [for i, url in enumerate(urls, 1)]. *)
Definition url_body (n_urls : Z) (iu : Z * string)
    (all_comments : list Comment) : M (ctl (list Comment)) :=
  let i := fst iu in
  let progress_here (total : Z) (msg : string) : M unit :=
    q <- div i n_urls ;;
    log_progress "RUNNING" (num_add (Int 10) (num_mul q (Int 40)))
      total 0 msg in
  let with_blocks (blocks : list FbBlock) : M (ctl (list Comment)) :=
    match blocks with
    | [] =>
        print "ℹ️ No comments found or timed out" ;;
        progress_here (len all_comments)
          ("Processed " +:+ str_of_Z i +:+ "/" +:+ str_of_Z n_urls
           +:+ " - 0 comments") ;;
        ret (Next all_comments)
    | _ =>
        current_url <- ext_text env ;;
        match parse_blocks blocks current_url with
        | Raise e => raise e
        | Ok data =>
            print ("   ➜ " +:+ str_of_Z (len data) +:+ " comments") ;;
            let all_comments := (all_comments ++ data)%list in
            progress_here (len all_comments)
              ("Found " +:+ str_of_Z (len all_comments)
               +:+ " total comments") ;;
            ret (Next all_comments)
        end
    end in
  try_except
    (print (nl +:+ "📄 Processing " +:+ str_of_Z i +:+ "/"
            +:+ str_of_Z n_urls +:+ ": " +:+ snd iu) ;;
     ext_unit env ;;              (* driver.get(url) *)
     reel <- is_reel_loaded ;;
     if reel then
       print "🎬 Reel detected" ;;
       clicked <- click_reel_comment_button ;;
       if negb clicked then
         print "ℹ️ No comment button" ;;
         progress_here (len all_comments)
           ("Processed " +:+ str_of_Z i +:+ "/" +:+ str_of_Z n_urls
            +:+ " - No comments") ;;
         ret (Next all_comments)
       else
         blocks <- ext env fb_blocks ;;
         with_blocks blocks
     else
       print "📰 Post detected" ;;
       blocks <- load_all_post_comments ;;
       with_blocks blocks)
    (fun e =>
       print ("⚠️ Error skipping URL " +:+ str_of_Z i +:+ ": "
              +:+ str_of_exn e) ;;
       progress_here (len all_comments)
         ("Error on page " +:+ str_of_Z i) ;;
       ret (Next all_comments)).

(** The body of the reply loop, [for _, row in df.iterrows()]. *)
Definition reply_body (total_comments : Z) (row : Comment) (s : Sched)
  : M (ctl Sched) :=
  if (reply_count s >=? REPLY_LIMIT)%Z then ret (Break s)
  else if bool_decide (c_username row ∈ replied_users s) then ret (Next s)
  else
    print (nl +:+ "-----------------------------------") ;;
    print ("👤 User: " +:+ c_username row) ;;
    print ("💬 Comment: " +:+ slice_to 120 (comment row)) ;;
    reply_text <- generate_reply (c_username row) (comment row) ;;
    print ("🤖 LLM Reply: " +:+ reply_text) ;;
    ext_unit env ;;               (* driver.get(row["post_url"]) *)
    prepare_post_for_reply ;;
    success <- post_reply reply_text ;;
    s <- (if success then
            print "✅ Reply posted successfully" ;;
            ret {| replied_users := {[c_username row]} ∪ replied_users s;
                   reply_count := reply_count s + 1;
                   failed_count := failed_count s;
                   replies_data := replies_data s |}
          else
            print "❌ Failed to post reply" ;;
            ret {| replied_users := replied_users s;
                   reply_count := reply_count s;
                   failed_count := failed_count s + 1;
                   replies_data := replies_data s |}) ;;
    let s := {| replied_users := replied_users s;
                reply_count := reply_count s;
                failed_count := failed_count s;
                replies_data :=
                  replies_data s ++ [{| username := c_username row;
                                        reply_text := reply_text;
                                        success := success |}] |} in
    q <- div (reply_count s) REPLY_LIMIT ;;
    log_progress "RUNNING" (num_add (Int 50) (num_mul q (Int 40)))
      total_comments (reply_count s) ("Engaged with " +:+ c_username row) ;;
    ret (Next s).

Definition reply_loop (total_comments : Z) (rows : list Comment)
  : M (Sched * loop_exit) :=
  for_each (reply_body total_comments) rows sched0.

(** A container of [username] with the given text and no time element, and
    one without a link, for examples. *)
Definition sample_block (username comment : string) : FbBlock :=
  {| fb_link_text := Ok username; fb_span_texts := Ok [comment];
     fb_abbr := Raise NoSuchElementException |}.

Definition broken_block : FbBlock :=
  {| fb_link_text := Raise NoSuchElementException;
     fb_span_texts := Ok ["a comment without a link"];
     fb_abbr := Raise NoSuchElementException |}.

(** A row of [username] with the given text, for examples. *)
Definition sample_comment (username comment : string) : Comment :=
  {| post_url := "https://www.facebook.com/posts/x";
     c_username := username; comment := comment; time_raw := NoneVal;
     block := sample_block username comment |}.







(** [df["time_raw"].apply(fb_time_to_hours_from_comment)]: the converted
    column, or the first exception a conversion raises. *)
Fixpoint hours_ago (rows : list Comment) : result (list (option num)) :=
  match rows with
  | [] => Ok []
  | row :: r =>
      rbind (FacebookTime.fb_time_to_hours_from_comment (time_raw row))
        (fun h => rbind (hours_ago r) (fun hs => Ok (h :: hs)))
  end.

(** [(df["hours_ago"] <= h).sum()], a missing value counting as false. *)
Definition count_within (h : Z) (hours : list (option num)) : Z :=
  len (List.filter
         (fun x =>
            match x with
            | Some n => Qle_bool (num_val n) (inject_Z h)
            | None => false
            end) hours).

Definition comment_out (row : Comment) : CommentOut :=
  {| out_post_url := post_url row; out_username := c_username row;
     out_comment := comment row; out_time := time_raw row |}.

(** The [if __name__ == "__main__":] block. *)
Definition main : M unit :=
  setup_driver ;;
  bind_global "driver" ;;
  print "➡️ Log in to Facebook (15s)" ;;
  urls <- google_search_and_collect_links ;;
  print ("🔗 Found " +:+ str_of_Z (len urls) +:+ " URLs") ;;
  log_progress "RUNNING" (Int 10) 0 0
    ("Found " +:+ str_of_Z (len urls) +:+ " target posts") ;;
  p <- for_each (url_body (len urls)) (enumerate 1 urls) [] ;;
  let all_comments := fst p in
  hours <- match all_comments with  (* if df.empty *)
           | [] => print (nl +:+ "⚠️ No comments found to process") ;; ret []
           | _ => lift (hours_ago all_comments)
           end ;;
  let total_comments := len all_comments in
  let last_1h := count_within 1 hours in
  let last_24h := count_within 24 hours in
  print (nl +:+ "================ STARTING REPLIES ================" +:+ nl) ;;
  s <- match all_comments with      (* if not df.empty *)
       | [] => print "ℹ️ No comments available for replies" ;; ret sched0
       | _ => p <- reply_loop total_comments all_comments ;; ret (fst p)
       end ;;
  print (nl +:+ "================ FINAL LOGS ================" +:+ nl) ;;
  print ("📊 Total comments found       : " +:+ str_of_Z total_comments) ;;
  print ("🕐 Comments last 1 hour       : " +:+ str_of_Z last_1h) ;;
  print ("🕘 Comments last 24 hours     : " +:+ str_of_Z last_24h) ;;
  print (nl +:+ "🎉 DONE") ;;
  ext_unit env ;;                 (* driver.quit() *)
  set_session Closed ;;
  bind_global "json" ;;           (* import json *)
  emit (Output {| res_success := true;
                  res_platform := "";
                  res_totalComments := total_comments;
                  res_totalReplies := reply_count s;
                  res_comments := map comment_out all_comments;
                  res_replies := replies_data s;
                  res_stats := Some (last_1h, last_24h, failed_count s) |}).

End Script.

End Facebook.

(** ** instagram_scraper.py: the script *)

Module Instagram.
Import Py Run.

Definition REPLY_DELAY : Z := 40.

(** A parsed comment with the [post_url] that [extract_ig_comments] adds. *)
Record Comment := {
  author : string;
  time : string;
  text : string;
  post_url : string
}.

Definition imports : gset string :=
  list_to_set ["argparse"; "json"; "sys"; "time"; "os"; "re"; "pd"; "uc";
               "By"; "Keys"; "WebDriverWait"; "EC"; "ActionChains";
               "pyperclip"; "Groq"].

(** A comment of [author] with the given [text], for examples. *)
Definition sample_comment (author text : string) : Comment :=
  {| author := author; time := "2h"; text := text;
     post_url := "https://www.instagram.com/p/x/" |}.

Section Script.
Context (env : Env).
Context (google_pages reply_limit : Z).

Definition setup_driver : M unit :=
  ext_unit env ;;                 (* uc.Chrome(...) *)
  set_session Open ;;
  ext_unit env.                   (* driver.execute_script(...) *)

Fixpoint collect_hrefs (n : nat) (links : list string) : M (list string) :=
  match n with
  | O => ret links
  | S k =>
      href <- ext_attr env ;;     (* a.get_attribute("href") *)
      match href with
      | None => collect_hrefs k links
      | Some href =>
          if is_empty href then collect_hrefs k links
          else
            let clean := split_head "?" href in
            if contains "instagram.com/p/" clean
               && negb (contains "/reel/" clean)
            then collect_hrefs k (set_add clean links)
            else collect_hrefs k links
      end
  end.

(** The body of [for page in range(google_pages)]. *)
Definition search_page (page : Z) (links : list string)
  : M (ctl (list string)) :=
  q <- div page google_pages ;;
  log_progress "searching" (Int (int_of_num (num_mul q (Int 30)))) 0 0
    ("Google page " +:+ str_of_Z (page + 1)) ;;
  n <- ext_count env ;;           (* driver.find_elements("//a[@href]") *)
  links <- collect_hrefs n links ;;
  try_except_all
    (ext_unit env ;;              (* driver.find_element(By.ID, "pnnext") *)
     ext_unit env ;;              (* next_btn.click() *)
     ret (Next links))
    (ret (Break links)).

Definition google_search_instagram : M (list string) :=
  ext_unit env ;;                 (* driver.get("https://www.google.com") *)
  try_except_all
    (ext_unit env ;; ext_unit env)  (* find the Accept button, click it *)
    (ret tt) ;;
  ext_unit env ;;                 (* q = driver.find_element(By.NAME, "q") *)
  ext_unit env ;;                 (* q.send_keys(query) *)
  ext_unit env ;;                 (* q.send_keys(Keys.RETURN) *)
  p <- for_each search_page (range google_pages) [] ;;
  let links := fst p in
  log_progress "searching" (Int 30) 0 0
    ("Found " +:+ str_of_Z (len links) +:+ " Instagram posts") ;;
  ret links.

(** [for i in range(80)] of [scroll_comment_panel], [rounds] passes left. *)
Fixpoint scroll_loop (rounds : nat) (last_scroll : Z) (stable : Z) : M unit :=
  match rounds with
  | O => ret tt
  | S k =>
      ext_unit env ;;             (* scroll the panel down *)
      new_scroll <- ext_number env ;;   (* read scrollTop *)
      if (new_scroll =? last_scroll)%Z then
        if (stable + 1 >=? 5)%Z then ret tt
        else scroll_loop k new_scroll (stable + 1)
      else scroll_loop k new_scroll 0
  end.

Definition scroll_comment_panel : M unit :=
  try_except
    (ext_unit env ;;              (* find the comment box *)
     scroll_loop 80 (-1) 0)
    (fun e => print ("❌ Error scrolling comments: " +:+ str_of_exn e)).

(** [[el.text.strip() for el in raw_elements if el.text.strip()]] *)
Fixpoint element_texts (n : nat) : M (list string) :=
  match n with
  | O => ret []
  | S k =>
      t <- ext_text env ;;        (* el.text, in the condition *)
      if truthy (strip t) then
        t' <- ext_text env ;;     (* el.text, in the element *)
        rest <- element_texts k ;;
        ret (strip t' :: rest)
      else element_texts k
  end.

Definition extract_ig_comments (post_url : string) : M (list Comment) :=
  print (nl +:+ "📄 Opening: " +:+ post_url) ;;
  ext_unit env ;;                 (* driver.get(post_url) *)
  scroll_comment_panel ;;
  n <- ext_count env ;;           (* driver.find_elements(spans) *)
  raw_texts <- element_texts n ;;
  let parsed := InstagramParse.parse_ig_comment_blocks raw_texts in
  print ("💬 Extracted: " +:+ str_of_Z (len parsed) +:+ " comments") ;;
  ret (map (fun p => {| author := InstagramParse.author p;
                        time := InstagramParse.time p;
                        text := InstagramParse.text p;
                        post_url := post_url |}) parsed).

Definition generate_reply (author comment : string) : M string :=
  try_except_all
    (r <- ext_text env ;; ret (strip r))
    (ret ("Thank you for your comment, " +:+ author +:+ "!")).

Definition post_ig_reply (author reply_text : string) : M bool :=
  try_except
    (ext_unit env ;;              (* window.scrollBy *)
     ext_unit env ;;              (* wait for the comment box *)
     ext_unit env ;;              (* scrollIntoView *)
     ext_unit env ;;              (* comment_box.click() *)
     ext_unit env ;;              (* pyperclip.copy(full_text) *)
     ext_unit env ;;              (* paste *)
     ext_unit env ;;              (* find the Post button *)
     ext_unit env ;;              (* scrollIntoView *)
     ext_unit env ;;              (* post_btn.click() *)
     print ("✅ Reply posted for @" +:+ author) ;;
     ret true)
    (fun e => print ("❌ Reply failed: " +:+ str_of_exn e) ;; ret false).

(** The body of [for idx, url in enumerate(post_urls[:3])]. *)
Definition post_body (iu : Z * string) (all_comments : list Comment)
  : M (ctl (list Comment)) :=
  let idx := fst iu in
  q <- div idx 3 ;;
  let progress := (30 + int_of_num (num_mul q (Int 40)))%Z in
  log_progress "running" (Int progress) (len all_comments) 0
    ("Processing post " +:+ str_of_Z (idx + 1)) ;;
  comments <- extract_ig_comments (snd iu) ;;
  ret (Next (all_comments ++ comments)%list).

(** The body of the reply loop, [for comment in all_comments]. *)
Definition reply_body (n_comments : Z) (comment : Comment) (s : Sched)
  : M (ctl Sched) :=
  if (reply_count s >=? reply_limit)%Z then ret (Break s)
  else
    let user := author comment in
    let text := text comment in
    if bool_decide (user ∈ replied_users s) then ret (Next s)
    else
      print ("👤 " +:+ user) ;;
      print ("💬 " +:+ slice_to 100 text) ;;
      reply <- generate_reply user text ;;
      print ("🤖 " +:+ reply) ;;
      ext_unit env ;;             (* driver.get(comment["post_url"]) *)
      posted <- post_ig_reply user reply ;;
      if posted then
        let s := {| replied_users := {[user]} ∪ replied_users s;
                    reply_count := reply_count s + 1;
                    failed_count := failed_count s;
                    replies_data :=
                      replies_data s ++ [{| username := user;
                                            reply_text := reply;
                                            success := true |}] |} in
        q <- div (reply_count s) reply_limit ;;
        let progress := (70 + int_of_num (num_mul q (Int 30)))%Z in
        log_progress "running" (Int progress) n_comments (reply_count s)
          ("Replied to " +:+ user) ;;
        ret (Next s)
      else
        ret (Next {| replied_users := replied_users s;
                     reply_count := reply_count s;
                     failed_count := failed_count s;
                     replies_data :=
                       replies_data s ++ [{| username := user;
                                             reply_text := reply;
                                             success := false |}] |}).

Definition reply_loop (all_comments : list Comment) : M (Sched * loop_exit) :=
  for_each (reply_body (len all_comments)) all_comments sched0.

(** The invariant of the loop variables: the successful entries carry
    distinct user names, all in [replied_users]; they are as many as
    [reply_count], which stays within a limit that is not negative; an
    entry fails only when some external call raises. *)
Definition sched_inv (s : Sched) : Prop :=
  NoDup (replied_names (replies_data s)) /\
  (forall u, In u (replied_names (replies_data s)) -> u ∈ replied_users s) /\
  len (List.filter success (replies_data s)) = reply_count s /\
  (0 <= reply_count s)%Z /\
  (0 <= reply_limit -> reply_count s <= reply_limit)%Z /\
  (quiet env -> Forall (fun r => success r = true) (replies_data s)).

Definition comment_out (c : Comment) : CommentOut :=
  {| out_post_url := post_url c; out_username := author c;
     out_comment := text c; out_time := Str (time c) |}.

(** The [try] block of [main]. *)
Definition main_body : M unit :=
  setup_driver ;;
  bind_local "driver" ;;
  ext_unit env ;;                 (* Groq(api_key=args.api_key) *)
  log_progress "running" (Int 5) 0 0 "Starting Instagram scraper" ;;
  post_urls <- google_search_instagram ;;
  p <- for_each post_body (enumerate 0 (firstn 3 post_urls)) [] ;;
  let all_comments := fst p in
  log_progress "running" (Int 70) (len all_comments) 0
    ("Collected " +:+ str_of_Z (len all_comments) +:+ " comments") ;;
  p <- reply_loop all_comments ;;
  let s := fst p in
  emit (Output {| res_success := true;
                  res_platform := "INSTAGRAM";
                  res_totalComments := len all_comments;
                  res_totalReplies := reply_count s;
                  res_comments := firstn 100 (map comment_out all_comments);
                  res_replies := replies_data s;
                  res_stats := None |}) ;;
  log_progress "completed" (Int 100) (len all_comments) (reply_count s)
    "Job completed".

Definition main : M unit :=
  try_finally
    (try_except main_body
       (fun e =>
          log_progress "failed" (Int 0) 0 0 (str_of_exn e) ;;
          raise (SystemExit 1)))
    (load_local "driver" ;;
     ext_unit env ;;              (* driver.quit() *)
     set_session Closed).

End Script.

End Instagram.

(** ** twitter_scraper.py: the container parser *)

Module Twitter.
Import Py Run.

(** The dict [parse_replies] appends. *)
Record Comment := {
  post_url : string;
  c_username : string;
  comment : string;
  block : TwBlock;
  reply_btn : nat
}.

(** The body of the [try] for one container: [None] stands for the
    [continue] on a short text, taken before the other lookups. *)
Definition parse_reply (url : string) (block : TwBlock)
  : result (option Comment) :=
  rbind (tw_text block) (fun t =>
  let comment := strip t in
  if (String.length comment <? 5)%nat then Ok None
  else
    rbind (tw_user block) (fun u =>
    let username := strip u in
    rbind (tw_reply_btn block) (fun reply_btn =>
    Ok (Some {| post_url := url; c_username := username;
                comment := comment; block := block;
                reply_btn := reply_btn |})))).

Fixpoint parse_replies_from (data : list Comment) (blocks : list TwBlock)
    (url : string) : result (list Comment) :=
  match blocks with
  | [] => Ok data
  | block :: rest =>
      rbind
        (catch_all
           (rbind (parse_reply url block) (fun o =>
              match o with
              | Some c => Ok (data ++ [c])%list
              | None => Ok data
              end))
           (Ok data))
        (fun data' => parse_replies_from data' rest url)
  end.

Definition parse_replies (blocks : list TwBlock) (url : string)
  : result (list Comment) :=
  parse_replies_from [] blocks url.

(** A container [parse_replies] keeps. *)
Definition accepted (block : TwBlock) : bool :=
  match tw_text block with
  | Ok t =>
      (5 <=? String.length (strip t))%nat
      && match tw_user block, tw_reply_btn block with
         | Ok _, Ok _ => true
         | _, _ => false
         end
  | Raise _ => false
  end.

End Twitter.

(** ** linkedin_scraper.py *)

Module LinkedIn.
Import Py Run.

Definition REPLY_DELAY : Z := 45.
Definition SCROLL_ROUNDS : Z := 6.

(** The dict [parse_comments] appends. *)
Record Comment := {
  post_url : string;
  c_username : string;
  comment : string;
  time_str : val;
  block : LiBlock
}.

Definition parse_comment (url : string) (block : LiBlock)
  : result (option Comment) :=
  rbind (li_user block) (fun u =>
  let username := strip u in
  rbind (li_comment block) (fun c =>
  let comment := strip c in
  let time_raw := match li_time block with
                  | Ok t => Str (strip t)
                  | Raise _ => NoneVal
                  end in
  if (String.length comment <? 5)%nat then Ok None
  else Ok (Some {| post_url := url; c_username := username;
                   comment := comment; time_str := time_raw;
                   block := block |}))).

Fixpoint parse_comments_from (data : list Comment) (blocks : list LiBlock)
    (url : string) : result (list Comment) :=
  match blocks with
  | [] => Ok data
  | block :: rest =>
      rbind
        (catch_all
           (rbind (parse_comment url block) (fun o =>
              match o with
              | Some c => Ok (data ++ [c])%list
              | None => Ok data
              end))
           (Ok data))
        (fun data' => parse_comments_from data' rest url)
  end.

Definition parse_comments (blocks : list LiBlock) (url : string)
  : result (list Comment) :=
  parse_comments_from [] blocks url.

Definition imports : gset string :=
  list_to_set ["argparse"; "json"; "sys"; "time"; "os"; "re"; "pd"; "uc";
               "By"; "Keys"; "WebDriverWait"; "EC"; "Groq"].

(** A comment of [username] with the given text, for examples. *)
Definition sample_comment (username comment : string) : Comment :=
  {| post_url := "https://www.linkedin.com/posts/x";
     c_username := username; comment := comment; time_str := NoneVal;
     block := {| li_user := Ok username; li_comment := Ok comment;
                 li_time := Raise NoSuchElementException |} |}.

Section Script.
Context (env : Env).
Context (google_pages reply_limit : Z).

Definition setup_driver : M unit :=
  ext_unit env ;;                 (* uc.Chrome(options=options) *)
  set_session Open ;;
  ext_unit env.                   (* driver.execute_script(...) *)

Fixpoint collect_hrefs (n : nat) (links : list string) : M (list string) :=
  match n with
  | O => ret links
  | S k =>
      href <- ext_attr env ;;     (* a.get_attribute("href") *)
      match href with
      | None => collect_hrefs k links
      | Some href =>
          if truthy href
             && startswith "https://www.linkedin.com/posts/" href
             && negb (contains "google" href)
          then collect_hrefs k (set_add (split_head "?" href) links)
          else collect_hrefs k links
      end
  end.

Definition search_page (page : Z) (links : list string)
  : M (ctl (list string)) :=
  q <- div page google_pages ;;
  log_progress "searching" (Int (int_of_num (num_mul q (Int 30)))) 0 0
    ("Google page " +:+ str_of_Z (page + 1)) ;;
  n <- ext_count env ;;           (* driver.find_elements("//a[@href]") *)
  links <- collect_hrefs n links ;;
  try_except_all
    (ext_unit env ;;              (* driver.find_element(By.ID, "pnnext") *)
     ext_unit env ;;              (* .click() *)
     ret (Next links))
    (ret (Break links)).

Definition google_search : M (list string) :=
  ext_unit env ;;                 (* driver.get("https://www.google.com") *)
  try_except_all
    (ext_unit env ;; ext_unit env)  (* find the Accept button, click it *)
    (ret tt) ;;
  ext_unit env ;;                 (* q = driver.find_element(By.NAME, "q") *)
  ext_unit env ;;                 (* q.send_keys(query) *)
  ext_unit env ;;                 (* q.send_keys(Keys.RETURN) *)
  p <- for_each search_page (range google_pages) [] ;;
  ret (fst p).

Definition open_linkedin_comments : M unit :=
  try_except_all
    (ext_unit env ;;              (* wait for the Comment button *)
     ext_unit env)                (* click it *)
    (ret tt).

Fixpoint click_buttons (n : nat) : M unit :=
  match n with
  | O => ret tt
  | S k => try_except_all (ext_unit env) (ret tt) ;; click_buttons k
  end.

(** [for _ in range(max_rounds)] of [load_all_linkedin_comments]. *)
Fixpoint load_rounds (rounds : nat) (last_count : Z)
    (comments : list LiBlock) : M (list LiBlock) :=
  match rounds with
  | O => ret comments
  | S k =>
      ext_unit env ;;             (* window.scrollBy *)
      n <- ext_count env ;;       (* the Load / See previous buttons *)
      click_buttons n ;;
      comments <- ext env li_blocks ;;   (* the comment articles *)
      if (len comments =? last_count)%Z then ret comments
      else load_rounds k (len comments) comments
  end.

Definition load_all_linkedin_comments : M (list LiBlock) :=
  load_rounds (Z.to_nat SCROLL_ROUNDS) 0 [].

Definition generate_reply (username comment : string) : M string :=
  try_except_all
    (r <- ext_text env ;; ret (strip r))
    (ret ("Great insights, " +:+ username +:+ "!")).

Definition post_linkedin_reply (block : LiBlock) (reply_text : string)
  : M bool :=
  try_except
    (ext_unit env ;;              (* find the reply button *)
     ext_unit env ;;              (* click it *)
     ext_unit env ;;              (* wait for the reply box *)
     ext_unit env ;;              (* find the editor *)
     ext_unit env ;;              (* editor.click() *)
     ext_unit env ;;              (* editor.send_keys(Keys.END) *)
     ext_times env (String.length reply_text) ;;   (* send_keys(ch) *)
     ext_unit env ;;              (* find the submit button *)
     ext_unit env ;;              (* click it *)
     ret true)
    (fun e =>
       print ("LinkedIn reply error: " +:+ str_of_exn e) ;; ret false).

(** The body of [for row in parsed]: no [break], no check of the author. *)
Definition reply_body (row : Comment) (s : Sched) : M (ctl Sched) :=
  if (reply_count s <? reply_limit)%Z then
    reply_text <- generate_reply (c_username row) (comment row) ;;
    posted <- post_linkedin_reply (block row) reply_text ;;
    if posted then
      ret (Next {| replied_users := replied_users s;
                   reply_count := reply_count s + 1;
                   failed_count := failed_count s;
                   replies_data :=
                     replies_data s ++ [{| username := c_username row;
                                           reply_text := reply_text;
                                           success := true |}] |})
    else
      ret (Next {| replied_users := replied_users s;
                   reply_count := reply_count s;
                   failed_count := failed_count s;
                   replies_data :=
                     replies_data s ++ [{| username := c_username row;
                                           reply_text := reply_text;
                                           success := false |}] |})
  else ret (Next s).

Definition reply_loop (parsed : list Comment) (s : Sched)
  : M (Sched * loop_exit) :=
  for_each reply_body parsed s.

(** The counter of successes stays within a limit that is not negative. *)
Definition count_inv (s : Sched) : Prop :=
  len (List.filter success (replies_data s)) = reply_count s /\
  (0 <= reply_count s)%Z /\
  (0 <= reply_limit -> reply_count s <= reply_limit)%Z.

(** The body of [for i, url in enumerate(urls[:10])]; the loop variables
    are [all_comments] and those of the reply loop. *)
Definition url_body (iu : Z * string) (st : list Comment * Sched)
  : M (ctl (list Comment * Sched)) :=
  let i := fst iu in
  let all_comments := fst st in
  q <- div i 10 ;;
  let progress := (30 + int_of_num (num_mul q (Int 40)))%Z in
  log_progress "running" (Int progress) (len all_comments)
    (reply_count (snd st)) ("Processing post " +:+ str_of_Z (i + 1)) ;;
  ext_unit env ;;                 (* driver.get(url) *)
  open_linkedin_comments ;;
  blocks <- load_all_linkedin_comments ;;
  match parse_comments blocks (snd iu) with
  | Raise e => raise e
  | Ok parsed =>
      p <- reply_loop parsed (snd st) ;;
      ret (Next ((all_comments ++ parsed)%list, fst p))
  end.

Definition comment_out (c : Comment) : CommentOut :=
  {| out_post_url := post_url c; out_username := c_username c;
     out_comment := comment c; out_time := time_str c |}.

(** The [try] block of [main]. *)
Definition main_body : M unit :=
  log_progress "running" (Int 5) 0 0 "Starting LinkedIn scraper" ;;
  urls <- google_search ;;
  log_progress "running" (Int 30) 0 0
    ("Found " +:+ str_of_Z (len urls) +:+ " posts") ;;
  p <- for_each url_body (enumerate 0 (firstn 10 urls)) ([], sched0) ;;
  let all_comments := fst (fst p) in
  let s := snd (fst p) in
  emit (Output {| res_success := true;
                  res_platform := "LINKEDIN";
                  res_totalComments := len all_comments;
                  res_totalReplies := reply_count s;
                  res_comments := firstn 100 (map comment_out all_comments);
                  res_replies := replies_data s;
                  res_stats := None |}) ;;
  log_progress "completed" (Int 100) (len all_comments) (reply_count s)
    "Job completed".

Definition main : M unit :=
  setup_driver ;;
  bind_local "driver" ;;
  ext_unit env ;;                 (* Groq(api_key=args.api_key) *)
  try_finally
    (try_except main_body
       (fun e =>
          log_progress "failed" (Int 0) 0 0 (str_of_exn e) ;;
          raise (SystemExit 1)))
    (load_local "driver" ;;
     ext_unit env ;;              (* driver.quit() *)
     set_session Closed).

End Script.

End LinkedIn.

(** ** reddit_scraper.py *)

Module Reddit.
Import Py Run Re.

Definition REPLY_DELAY : Z := 45.
Definition SCROLL_ROUNDS : Z := 4.

(** *** Text cleaning *)

(** [[A-Za-z0-9_-]] *)
Definition is_user_char (c : ascii) : bool :=
  is_alpha c || is_digit c || Ascii.eqb c "_" || Ascii.eqb c "-".

(** The class after the user name in [META_PATTERN], one code point of
    four, as UTF-8. *)
Definition bullets : list string := ["•"; "â"; "€"; "¢"].

Fixpoint match_any (alts : list string) (s : string) : option string :=
  match alts with
  | [] => None
  | a :: rest =>
      match match_lit a s with
      | Some r => Some r
      | None => match_any rest s
      end
  end.

(** [META_PATTERN] tried at the head of [s]: the groups [username],
    [value] and [unit]. *)
Definition meta_match_here (s : string) : option (string * string * string) :=
  let user := take_while is_user_char s in
  let r1 := drop_while is_user_char s in
  if is_empty user || is_empty (take_while is_space r1) then None
  else
    match match_any bullets (drop_while is_space r1) with
    | Some r2 =>
        let r3 := drop_while is_space r2 in
        let value := take_while is_digit r3 in
        let r4 := drop_while is_space (drop_while is_digit r3) in
        let unit := take_while is_alpha r4 in
        if is_empty (take_while is_space r2) || is_empty value
           || is_empty unit
        then None
        else Some (user, value, unit)
    | None => None
    end.

(** [META_PATTERN.search(s)] *)
Fixpoint meta_search (s : string) : option (string * string * string) :=
  match meta_match_here s with
  | Some g => Some g
  | None =>
      match s with
      | EmptyString => None
      | String _ r => meta_search r
      end
  end.

Definition REDUNDANT_LINES : list string :=
  ["upvote"; "downvote"; "reply"; "award"; "share"; "follow"; "report";
   "save"].

(** [f"{n}"] followed by [suffix], for a number computed from a digit
    run; [str(n)] raises [ValueError] beyond [max_str_digits] digits. *)
Definition shown (n : Z) (suffix : string) : result (option string) :=
  let s := str_of_Z n in
  if (max_str_digits <? String.length (str_of_Z (Z.abs n)))%nat
  then Raise ValueError
  else Ok (Some (s +:+ suffix)).

(** [str(n)] is within [max_str_digits]. *)
Definition printable (n : Z) : Prop :=
  (String.length (str_of_Z (Z.abs n)) <= max_str_digits)%nat.

Definition normalize_time (value : Z) (unit : string)
  : result (option string) :=
  let unit := lower unit in
  if startswith "min" unit then shown (Z.max 1 (value / 60)) "h"
  else if startswith "h" unit then shown value "h"
  else if startswith "d" unit then shown (value * 24) "h"
  else if startswith "y" unit then shown value "y"
  else Ok None.

(** The ASCII line boundaries of [str.splitlines]. *)
Definition is_linebreak (c : ascii) : bool :=
  in_range 10 13 c || in_range 28 30 c.

(** [s.splitlines()]; a carriage return followed by a newline gives an
    empty line between, which the caller drops. *)
Fixpoint splitlines (s : string) : list string :=
  match s with
  | EmptyString => []
  | String c r =>
      if is_linebreak c then EmptyString :: splitlines r
      else
        match splitlines r with
        | [] => [String c EmptyString]
        | l :: ls => String c l :: ls
        end
  end.

(** [l.isdigit()] *)
Definition isdigit (l : string) : bool := truthy l && all_chars is_digit l.

Definition not_break (c : ascii) : bool := negb (is_linebreak c).

(** The test of the loop of [clean_comment_text]: the line is kept. *)
Definition keep_line (line : string) : bool :=
  let l := lower line in
  negb (existsb (String.eqb l) REDUNDANT_LINES)
  && negb (isdigit l)
  && negb (bool_decide (is_Some (meta_search line)))
  && negb (existsb (String.eqb line) ["•"; "â€¢"]).

Definition clean_comment_text (raw_text : val) : option string :=
  match raw_text with
  | Str raw_text =>
      let lines :=
        List.filter truthy (map strip (splitlines raw_text)) in
      let cleaned := List.filter keep_line lines in
      match cleaned with
      | [] => None
      | _ => Some (strip (join " " cleaned))
      end
  | _ => None
  end.

Definition val_of (o : option string) : val :=
  match o with Some s => Str s | None => NoneVal end.

(** *** The script *)

(** The dict [extract_comments] appends. *)
Record Comment := {
  post_url : string;
  author : string;
  text : string
}.

(** A row of the frame after [process_reddit_csv]. *)
Record Row := {
  row_post_url : string;
  row_author : option string;
  row_text : option string;
  row_time : option string
}.

(** The names the [import] statements at the top of the file bind: [json]
    is not among them. *)
Definition imports : gset string :=
  list_to_set ["uc"; "By"; "Keys"; "WebDriverWait"; "EC"; "time"; "os";
               "re"; "sys"; "pd"; "Groq"; "pyperclip"; "ActionChains";
               "argparse"].

(** A literal as a pattern, for [str.replace]. *)
Definition lit_pattern (p : string) : matcher := fun _ s =>
  match match_lit p s with
  | Some _ => Some (String.length p)
  | None => None
  end.

(** [str(x)] in an f-string, [x] a string or [None]. *)
Definition str_of_opt (o : option string) : string :=
  match o with Some s => s | None => "None" end.

Section Script.
Context (env : Env).
Context (REPLY_LIMIT GOOGLE_PAGES : Z).

Definition setup_driver : M unit :=
  ext_unit env ;;                 (* uc.Chrome(options=options) *)
  set_session Open ;;
  ext_unit env.                   (* driver.execute_script(...) *)

Fixpoint collect_hrefs (n : nat) (links : list string) : M (list string) :=
  match n with
  | O => ret links
  | S k =>
      href <- ext_attr env ;;     (* a.get_attribute("href") *)
      match href with
      | None => collect_hrefs k links
      | Some href =>
          if truthy href && contains "reddit.com/comments/" href
             && negb (contains "old.reddit.com" href)
          then collect_hrefs k (set_add (split_head "?" href) links)
          else collect_hrefs k links
      end
  end.

Definition search_page (page : Z) (links : list string)
  : M (ctl (list string)) :=
  print ("🔍 Google page " +:+ str_of_Z (page + 1)) ;;
  n <- ext_count env ;;           (* driver.find_elements("//a[@href]") *)
  links <- collect_hrefs n links ;;
  try_except_all
    (ext_unit env ;;              (* driver.find_element(By.ID, "pnnext") *)
     ext_unit env ;;              (* .click() *)
     ret (Next links))
    (ret (Break links)).

Definition google_search_reddit_posts : M (list string) :=
  ext_unit env ;;                 (* driver.get("https://www.google.com") *)
  try_except_all
    (ext_unit env ;; ext_unit env)  (* find the Accept button, click it *)
    (ret tt) ;;
  ext_unit env ;;                 (* q = driver.find_element(By.NAME, "q") *)
  ext_unit env ;;                 (* q.send_keys(query) *)
  ext_unit env ;;                 (* q.send_keys(Keys.RETURN) *)
  p <- for_each search_page (range GOOGLE_PAGES) [] ;;
  let links := fst p in
  print ("Found " +:+ str_of_Z (len links) +:+ " Reddit links") ;;
  log_progress "RUNNING" (Int 10) 0 0
    ("Found " +:+ str_of_Z (len links) +:+ " Reddit threads") ;;
  ret links.

Definition scroll_page (rounds : Z) : M unit :=
  ext_times env (Z.to_nat rounds).

(** The body of the [try] of [extract_comments] for one container. *)
Definition extract_block (post_url : string) : M (option Comment) :=
  t <- ext_text env ;;            (* block.text *)
  let full_text := strip t in
  if is_empty full_text || (String.length full_text <? 5)%nat then ret None
  else
    author <-
      try_except_all
        (ext_unit env ;;          (* block.find_element(user link) *)
         a <- ext_text env ;;     (* author_el.text *)
         ret (sub (lit_pattern "u/") "" (strip a)))
        (ret match meta_search full_text with
             | Some (username, _, _) => username
             | None => "Unknown"
             end) ;;
    match clean_comment_text (Str full_text) with
    | None => ret None
    | Some text =>
        if is_empty text || (String.length text <? 5)%nat then ret None
        else ret (Some {| post_url := post_url; author := author;
                          text := text |})
    end.

Fixpoint extract_blocks (n : nat) (post_url : string)
    (comments : list Comment) : M (list Comment) :=
  match n with
  | O => ret comments
  | S k =>
      comments <-
        try_except_all
          (o <- extract_block post_url ;;
           ret match o with
               | Some c => (comments ++ [c])%list
               | None => comments
               end)
          (ret comments) ;;
      extract_blocks k post_url comments
  end.

Definition extract_comments (post_url : string) : M (list Comment) :=
  print (nl +:+ "📄 Opening: " +:+ post_url) ;;
  ext_unit env ;;                 (* driver.get(post_url) *)
  scroll_page SCROLL_ROUNDS ;;
  n <- ext_count env ;;           (* driver.find_elements(comments) *)
  print ("💬 Found " +:+ str_of_Z (Z.of_nat n) +:+ " comments") ;;
  extract_blocks n post_url [].

Definition generate_reply (username comment : string) : M string :=
  try_except
    (r <- ext_text env ;; ret (strip r))
    (fun e =>
       print ("Groq error: " +:+ str_of_exn e) ;;
       ret ("Interesting perspective, " +:+ username +:+ "!")).

Definition post_reply (reply_text : string) : M bool :=
  try_except
    (ext_unit env ;;              (* scrollIntoView *)
     ext_unit env ;;              (* find the Reply button *)
     ext_unit env ;;              (* click it *)
     ext_unit env ;;              (* pyperclip.copy(reply_text) *)
     ext_unit env ;;              (* three TABs *)
     ext_unit env ;;              (* paste *)
     ext_unit env ;;              (* CTRL + ENTER *)
     print "✅ Reply posted" ;;
     ret true)
    (fun e => print ("❌ Reply failed: " +:+ str_of_exn e) ;; ret false).

(** [process_reddit_csv]: author and time from [META_PATTERN] on the text,
    and the text cleaned once more. *)
Definition process_row (c : Comment) : result Row :=
  let m := meta_search (text c) in
  rbind (match m with
         | Some (_, value, unit) =>
             rbind (or_raise ValueError (int_of_str value))
                   (fun value => normalize_time value unit)
         | None => Ok None
         end)
    (fun time =>
       Ok {| row_post_url := post_url c;
             row_author := match m with
                           | Some (u, _, _) => Some u
                           | None => None
                           end;
             row_text := clean_comment_text (Str (text c));
             row_time := time |}).

(** The rows of the frame, in order; the first exception ends it. *)
Fixpoint process_rows (cs : list Comment) : result (list Row) :=
  match cs with
  | [] => Ok []
  | c :: r =>
      rbind (process_row c)
        (fun row => rbind (process_rows r) (fun rows => Ok (row :: rows)))
  end.

(** The body of [for i, url in enumerate(post_urls)]. *)
Definition url_body (n_urls : Z) (iu : Z * string)
    (all_comments : list Comment) : M (ctl (list Comment)) :=
  let i := fst iu in
  print ("📄 Thread " +:+ str_of_Z (i + 1) +:+ "/" +:+ str_of_Z n_urls) ;;
  q <- div (i + 1) n_urls ;;
  log_progress "RUNNING" (num_add (Int 10) (num_mul q (Int 40))) 0 0
    ("Processing thread " +:+ str_of_Z (i + 1) +:+ "/" +:+ str_of_Z n_urls) ;;
  comments <- extract_comments (snd iu) ;;
  let all_comments := (all_comments ++ comments)%list in
  if (i + 1 >? 1)%Z then ret (Break all_comments)
  else ret (Next all_comments).

(** [for block in blocks] of the reply loop: the first container whose
    text contains the author gets the reply. *)
Fixpoint reply_blocks (n : nat) (n_comments : Z) (author reply : string)
    (s : Sched) : M Sched :=
  match n with
  | O => ret s
  | S k =>
      t <- ext_text env ;;        (* block.text *)
      if truthy author && contains author t then
        posted <- post_reply reply ;;
        s <- (if posted then
                let s := {| replied_users := {[author]} ∪ replied_users s;
                            reply_count := reply_count s + 1;
                            failed_count := failed_count s;
                            replies_data := replies_data s |} in
                q <- div (reply_count s) REPLY_LIMIT ;;
                log_progress "RUNNING"
                  (num_add (Int 50) (num_mul q (Int 40)))
                  n_comments (reply_count s) ("Engaged with " +:+ author) ;;
                ret s
              else ret s) ;;
        ret {| replied_users := replied_users s;
               reply_count := reply_count s;
               failed_count := failed_count s;
               replies_data :=
                 replies_data s ++ [{| username := author;
                                       reply_text := reply;
                                       success := posted |}] |}
      else reply_blocks k n_comments author reply s
  end.

(** The body of the reply loop, [for _, row in df.iterrows()]. *)
Definition reply_body (n_comments : Z) (row : Row) (s : Sched)
  : M (ctl Sched) :=
  if (reply_count s >=? REPLY_LIMIT)%Z then ret (Break s)
  else if match row_author row with
          | Some a => bool_decide (a ∈ replied_users s)
          | None => false
          end
  then ret (Next s)
  else
    print ("👤 " +:+ str_of_opt (row_author row)) ;;
    match row_text row with
    | None => raise TypeError     (* row['text'][:120] *)
    | Some text =>
        print ("💬 " +:+ slice_to 120 text) ;;
        reply <- generate_reply (str_of_opt (row_author row)) text ;;
        print ("🤖 " +:+ reply) ;;
        ext_unit env ;;           (* driver.get(row["post_url"]) *)
        scroll_page 3 ;;
        n <- ext_count env ;;     (* driver.find_elements(comments) *)
        match row_author row with
        | None => ret (Next s)    (* no container matches a missing author *)
        | Some a =>
            s <- reply_blocks n n_comments a reply s ;;
            ret (Next s)
        end
    end.

Definition comment_out (r : Row) : CommentOut :=
  {| out_post_url := row_post_url r;
     out_username := str_of_opt (row_author r);
     out_comment := str_of_opt (row_text r);
     out_time := val_of (row_time r) |}.

(** The [if __name__ == "__main__":] block. *)
Definition main : M unit :=
  setup_driver ;;
  bind_global "driver" ;;
  bind_global "wait" ;;           (* WebDriverWait(driver, 12) *)
  print "➡️ Log in to Reddit manually (15s)" ;;
  post_urls <- google_search_reddit_posts ;;
  p <- for_each (url_body (len post_urls)) (enumerate 0 post_urls) [] ;;
  let all_comments := fst p in
  rows <- match all_comments with
          | [] => raise (KeyError "text")   (* df["text"] on an empty frame *)
          | _ => lift (process_rows all_comments)
          end ;;
  print (nl +:+ "📊 Total comments collected: " +:+ str_of_Z (len rows)) ;;
  log_progress "RUNNING" (Int 50) (len rows) 0
    ("Collected " +:+ str_of_Z (len rows) +:+ " comments") ;;
  print (nl +:+ "================ STARTING REPLIES ================" +:+ nl) ;;
  p <- for_each (reply_body (len all_comments)) rows sched0 ;;
  let s := fst p in
  print (nl +:+ "🎉 DONE") ;;
  ext_unit env ;;                 (* driver.quit() *)
  set_session Closed ;;
  bind_global "json" ;;           (* import json *)
  emit (Output {| res_success := true;
                  res_platform := "";
                  res_totalComments := len rows;
                  res_totalReplies := reply_count s;
                  res_comments := map comment_out rows;
                  res_replies := replies_data s;
                  res_stats := None |}).

End Script.

(** A line written before any thread is opened: a plain message other
    than the one at the head of [extract_comments]. *)
Definition search_line (l : Line) : bool :=
  match l with
  | Print s => negb (startswith (nl +:+ "📄 Opening: ") s)
  | _ => false
  end.

(** [json] is not bound, no progress line has been written and no thread
    has been opened. *)
Definition silent_no_json (w : State) : Prop :=
  ("json" ∉ globals w) /\ forallb search_line (stdout w) = true.

End Reddit.

(** ** facebook_scraper.py: the helpers for user names and time tokens *)

Module FacebookNames.
Import Py Re Facebook.

(** What is left of [s] after the repetitions of
    [Anonymous participant\s*\d*\s*] at its head.  The literal starts with
    a letter, so the greedy extents of [\s*] and [\d*] are the only ones
    after which a further repetition can start. *)
Fixpoint anonymous_rest (fuel : nat) (s : string) : string :=
  match fuel with
  | O => s
  | S k =>
      match match_lit "Anonymous participant" s with
      | Some r =>
          anonymous_rest k
            (drop_while is_space (drop_while is_digit (drop_while is_space r)))
      | None => s
      end
  end.

(** The pattern of the first substitution of [clean_username]: one or
    more of those repetitions. *)
Definition anonymous_pattern : matcher := fun _ s =>
  match match_lit "Anonymous participant" s with
  | Some _ =>
      Some (String.length s
            - String.length (anonymous_rest (String.length s) s))%nat
  | None => None
  end.

(** [s.split()]: the words between runs of whitespace; [cur] is the word
    being read. *)
Fixpoint split_from (cur : string) (s : string) : list string :=
  match s with
  | EmptyString => if is_empty cur then [] else [cur]
  | String c r =>
      if is_space c then
        if is_empty cur then split_from EmptyString r
        else cur :: split_from EmptyString r
      else split_from (cur +:+ String c EmptyString) r
  end.

Definition split (s : string) : list string := split_from EmptyString s.

(** A word: not empty, no whitespace. *)
Definition is_a_word (w : string) : Prop :=
  w <> EmptyString /\ all_chars not_space w = true.

(** [clean_username], for an argument that is a [str] or [None]. *)
Definition clean_username (username_text : option string) : string :=
  match username_text with
  | None => "Unknown"
  | Some username_text =>
      if is_empty username_text then "Unknown"
      else
        let username_text :=
          sub anonymous_pattern "Anonymous participant" username_text in
        let username_text := strip (sub spaces_pattern " " username_text) in
        if startswith "Anonymous participant" username_text
        then "Anonymous participant"
        else
          let parts := split username_text in
          if (0 <? List.length parts)%nat then
            join " " (firstn (Nat.min 3 (List.length parts)) parts)
          else if is_empty username_text then "Unknown" else username_text
  end.

(** [extract_time_from_text], for an argument that is a [str] or [None]:
    the pattern is that of [fb_time_to_hours_from_comment], with the unit
    letters listed in another order. *)
Definition extract_time_from_text (text : option string) : option string :=
  match text with
  | None => None
  | Some text =>
      if is_empty text then None
      else
        match FacebookTime.time_search None (lower text) with
        | Some (g1, g2) => Some (g1 +:+ String g2 EmptyString)
        | None => None
        end
  end.

End FacebookNames.

(** ** linkedin_scraper.py and reddit_scraper.py: what the container
    parsers keep *)

Module LinkedInParse.
Import Py Run.

(** A container [parse_comments] keeps: the name and the text are found
    and the text has at least 5 characters; the time element may be
    missing. *)
Definition accepted (block : LiBlock) : bool :=
  match li_user block, li_comment block with
  | Ok _, Ok c => (5 <=? String.length (strip c))%nat
  | _, _ => false
  end.

(** The record of a kept container. *)
Definition well_parsed (url : string) (c : LinkedIn.Comment) : Prop :=
  LinkedIn.post_url c = url /\
  (5 <= String.length (LinkedIn.comment c))%nat /\
  LinkedIn.time_str c
  = match li_time (LinkedIn.block c) with
    | Ok t => Str (strip t)
    | Raise _ => NoneVal
    end.

End LinkedInParse.

Module RedditExtract.
Import Py Run.

(** A record [extract_comments] appends for [post_url]: its text came out
    of [clean_comment_text] and has at least 5 characters. *)
Definition well_extracted (post_url : string) (c : Reddit.Comment) : Prop :=
  Reddit.post_url c = post_url /\
  (5 <= String.length (Reddit.text c))%nat /\
  exists full_text,
    Reddit.clean_comment_text (Str full_text) = Some (Reddit.text c).

(** The text of the container read at call [t], stripped, when the read
    does not raise and gives at least 5 characters. *)
Definition readable (env : Env) (t : nat) : option string :=
  match raises env t with
  | Some _ => None
  | None =>
      let full_text := strip (texts env t) in
      if is_empty full_text || (String.length full_text <? 5)%nat then None
      else Some full_text
  end.

(** The driver calls that the container read at call [t] takes: the read
    of its text and, when that is readable, the lookup of the user link
    and, when the link is found, the read of its text. *)
Definition calls (env : Env) (t : nat) : nat :=
  match readable env t with
  | None => 1
  | Some _ =>
      match raises env (S t) with
      | Some _ => 2
      | None => 3
      end
  end.

(** The author of the container read at call [t]: the text of the user
    link without its [u/], or, when a lookup raises, the user name at the
    head of the text, or [Unknown]. *)
Definition author_at (env : Env) (t : nat) (full_text : string) : string :=
  match raises env (S t), raises env (S (S t)) with
  | None, None =>
      Re.sub (Reddit.lit_pattern "u/") "" (strip (texts env (S (S t))))
  | _, _ =>
      match Reddit.meta_search full_text with
      | Some (username, _, _) => username
      | None => "Unknown"
      end
  end.

(** The record that the container read at call [t] yields: one for a
    readable text that cleans to at least 5 characters. *)
Definition record_at (env : Env) (post_url : string) (t : nat)
  : option Reddit.Comment :=
  match readable env t with
  | None => None
  | Some full_text =>
      match Reddit.clean_comment_text (Str full_text) with
      | Some text =>
          if is_empty text || (String.length text <? 5)%nat then None
          else Some {| Reddit.post_url := post_url;
                       Reddit.author := author_at env t full_text;
                       Reddit.text := text |}
      | None => None
      end
  end.

(** The calls at which [n] containers in a row are read, the first one at
    call [t]. *)
Fixpoint first_calls (env : Env) (n t : nat) : list nat :=
  match n with
  | O => []
  | S k => t :: first_calls env k (calls env t + t)
  end.

(** The call after the last one of [n] containers in a row. *)
Fixpoint end_call (env : Env) (n t : nat) : nat :=
  match n with
  | O => t
  | S k => end_call env k (calls env t + t)
  end.

(** A page of four containers: a comment with its user link, a text that
    is too short, a container whose read raises, and a comment whose user
    link is missing. *)
Definition four_containers : Env :=
  {| raises := fun n =>
       if (n =? 4)%nat then Some StaleElementReferenceException
       else if (n =? 6)%nat then Some NoSuchElementException
       else None;
     texts := fun n =>
       if (n =? 0)%nat then "a first comment"
       else if (n =? 2)%nat then "u/alice"
       else if (n =? 3)%nat then "ok"
       else "another comment";
     attrs := fun _ => None;
     flags := fun _ => true;
     counts := fun _ => O;
     numbers := fun _ => 0%Z;
     fb_blocks := fun _ => [];
     tw_blocks := fun _ => [];
     li_blocks := fun _ => [] |}.

End RedditExtract.

(** ** facebook_scraper.py: the counters of the reply loop *)

Module FacebookSched.
Import Py Run.

(** The failed entries of [replies_data]. *)
Definition failures (rs : list ReplyAttempt) : list ReplyAttempt :=
  List.filter (fun r => negb (success r)) rs.

(** What the loop variables of the Facebook reply loop keep: the two
    counters count the successful and the failed entries, the successes
    stay within a limit that is not negative, and the successful entries
    carry distinct user names, all in [replied_users]. *)
Definition counts_inv (REPLY_LIMIT : Z) (s : Sched) : Prop :=
  len (List.filter success (replies_data s)) = reply_count s /\
  len (failures (replies_data s)) = failed_count s /\
  (0 <= reply_count s)%Z /\
  (0 <= REPLY_LIMIT -> reply_count s <= REPLY_LIMIT)%Z /\
  NoDup (replied_names (replies_data s)) /\
  (forall u, In u (replied_names (replies_data s)) -> u ∈ replied_users s).

(** A row of [username] with the given text and time text, for
    examples. *)
Definition sample_comment_at (username comment time : string)
  : Facebook.Comment :=
  {| Facebook.post_url := "https://www.facebook.com/posts/x";
     Facebook.c_username := username; Facebook.comment := comment;
     Facebook.time_raw := Str time;
     Facebook.block := Facebook.sample_block username comment |}.

End FacebookSched.

(** ** The links the Google searches return *)

Module Links.
Import Py Run.

(** ["?" in s] *)
Definition has_query (s : string) : bool :=
  contains_char (fun c => Ascii.eqb c "?") s.

(** A link [google_search_instagram] keeps. *)
Definition ig_link (l : string) : Prop :=
  contains "instagram.com/p/" l = true /\
  contains "/reel/" l = false /\
  has_query l = false.

(** A link [google_search] of linkedin_scraper.py keeps. *)
Definition li_link (l : string) : Prop :=
  startswith "https://www.linkedin.com/posts/" l = true /\
  contains "google" l = false /\
  has_query l = false.

(** Links without duplicates that all satisfy [P]. *)
Definition frontier (P : string -> Prop) (links : list string) : Prop :=
  NoDup links /\ Forall P links.

(** A page of results on which every search finds the same two links,
    [a] and [b] in turn; nothing raises. *)
Definition two_links_env (a b : string) : Env :=
  {| raises := fun _ => None;
     texts := fun _ => "ok";
     attrs := fun n => if Nat.even n then Some a else Some b;
     flags := fun _ => true;
     counts := fun _ => 2%nat;
     numbers := fun _ => 0%Z;
     fb_blocks := fun _ => [];
     tw_blocks := fun _ => [];
     li_blocks := fun _ => [] |}.

End Links.

(** * Properties *)

(** ** Text primitives *)

Section TextLemmas.
Import Py.

Lemma append_cons c (a b : string) : String c a +:+ b = String c (a +:+ b).
Proof. reflexivity. Qed.

Lemma append_nil (b : string) : EmptyString +:+ b = b.
Proof. reflexivity. Qed.

Lemma take_drop_while p s : take_while p s +:+ drop_while p s = s.
Proof.
  induction s as [|c r IH]; simpl; [reflexivity|].
  destruct (p c); [now rewrite append_cons, IH | reflexivity].
Qed.

Lemma all_chars_take_while p s : all_chars p (take_while p s) = true.
Proof.
  induction s as [|c r IH]; simpl; [reflexivity|].
  destruct (p c) eqn:E; simpl; [now rewrite E | reflexivity].
Qed.

Lemma head_drop_while p s c :
  head (drop_while p s) = Some c -> p c = false.
Proof.
  induction s as [|a r IH]; simpl; [discriminate|].
  destruct (p a) eqn:E; simpl; [assumption|].
  intros [= <-]. assumption.
Qed.

(** A run of [p]-characters followed by a text that does not start with
    one is what the greedy scan splits off. *)
Lemma take_while_app p a b :
  all_chars p a = true ->
  (forall c, head b = Some c -> p c = false) ->
  take_while p (a +:+ b) = a /\ drop_while p (a +:+ b) = b.
Proof.
  intros Ha Hb. induction a as [|c r IH]; simpl in *.
  - rewrite ?append_nil. destruct b as [|c b]; simpl; [split; reflexivity|].
    rewrite (Hb c eq_refl). split; reflexivity.
  - apply andb_true_iff in Ha as [Hc Hr]. rewrite ?append_cons. simpl.
    rewrite Hc. destruct (IH Hr) as [-> ->]. split; reflexivity.
Qed.

Lemma is_empty_true s : is_empty s = true <-> s = EmptyString.
Proof. destruct s; simpl; split; congruence. Qed.

Lemma is_empty_false s : is_empty s = false <-> s <> EmptyString.
Proof. destruct s; simpl; split; congruence. Qed.

Lemma append_assoc (a b c : string) : (a +:+ b) +:+ c = a +:+ (b +:+ c).
Proof.
  induction a as [|x a IH]; [reflexivity|].
  rewrite ?append_cons. simpl. rewrite ?append_cons. now rewrite IH.
Qed.

Lemma append_empty_r (a : string) : a +:+ EmptyString = a.
Proof.
  induction a as [|x a IH]; [reflexivity|].
  rewrite ?append_cons. simpl. rewrite ?append_cons. now rewrite IH.
Qed.

Lemma length_append (a b : string) :
  String.length (a +:+ b) = (String.length a + String.length b)%nat.
Proof.
  induction a as [|x a IH]; [reflexivity|].
  rewrite ?append_cons. simpl. rewrite ?append_cons. now rewrite IH.
Qed.

Lemma digit_is_word c : is_digit c = true -> is_word c = true.
Proof. unfold is_word. intros ->. now rewrite orb_true_r. Qed.

Lemma digit_not_space c : is_digit c = true -> is_space c = false.
Proof.
  destruct c as [[] [] [] [] [] [] [] []]; vm_compute; congruence.
Qed.

Lemma lower_digit c : is_digit c = true -> lower_char c = c.
Proof.
  destruct c as [[] [] [] [] [] [] [] []]; vm_compute; congruence.
Qed.

Lemma lower_space c : is_space c = true -> lower_char c = c.
Proof.
  destruct c as [[] [] [] [] [] [] [] []]; vm_compute; congruence.
Qed.

Lemma lower_all p s :
  (forall c, p c = true -> lower_char c = c) ->
  all_chars p s = true -> lower s = s.
Proof.
  intros Hp. induction s as [|c r IH]; simpl; [reflexivity|].
  intros [Hc Hr]%andb_true_iff. now rewrite (Hp c Hc), IH.
Qed.

Lemma lower_append a b : lower (a +:+ b) = lower a +:+ lower b.
Proof.
  induction a as [|x a IH]; [reflexivity|].
  rewrite ?append_cons. simpl. rewrite ?append_cons. now rewrite IH.
Qed.

Lemma rstrip_idem s : rstrip (rstrip s) = rstrip s.
Proof.
  induction s as [|c r IH]; [reflexivity|]. simpl.
  destruct (is_space c && is_empty (rstrip r)) eqn:E; [reflexivity|].
  simpl. now rewrite IH, E.
Qed.

Lemma lstrip_id s :
  (forall c, head s = Some c -> is_space c = false) -> lstrip s = s.
Proof.
  destruct s as [|c r]; [reflexivity|]. intros H. unfold lstrip. simpl.
  now rewrite (H c eq_refl).
Qed.

Lemma head_rstrip s c :
  head (rstrip s) = Some c -> head s = Some c.
Proof.
  destruct s as [|a r]; simpl; [discriminate|].
  destruct (is_space a && is_empty (rstrip r)); simpl; [discriminate | tauto].
Qed.

Lemma strip_idem s : strip (strip s) = strip s.
Proof.
  unfold strip. rewrite (lstrip_id (rstrip (lstrip s))).
  - apply rstrip_idem.
  - intros c Hc. apply head_rstrip in Hc.
    eapply head_drop_while. exact Hc.
Qed.

End TextLemmas.

(** ** C4: relative time to hours (facebook_scraper.py) *)

Section FacebookTimeProofs.
Import Py FacebookTime.

Lemma take_while_head p s :
  is_empty (take_while p s) = false ->
  exists c, head s = Some c /\ p c = true.
Proof.
  destruct s as [|c r]; simpl; [discriminate|].
  destruct (p c) eqn:E; simpl; [eauto | discriminate].
Qed.

Lemma unit_is_word u : is_unit u = true -> is_word u = true.
Proof. destruct u as [[] [] [] [] [] [] [] []]; vm_compute; congruence. Qed.

Lemma unit_not_digit u : is_unit u = true -> is_digit u = false.
Proof. destruct u as [[] [] [] [] [] [] [] []]; vm_compute; congruence. Qed.

Lemma unit_not_space u : is_unit u = true -> is_space u = false.
Proof. destruct u as [[] [] [] [] [] [] [] []]; vm_compute; congruence. Qed.

Lemma unit_lower u : is_unit u = true -> lower_char u = u.
Proof. destruct u as [[] [] [] [] [] [] [] []]; vm_compute; congruence. Qed.

Lemma time_match_here_sound prev s ds u :
  time_match_here prev s = Some (ds, u) ->
  exists sp post,
    s = ds +:+ sp +:+ String u post /\
    ds <> EmptyString /\
    all_chars is_digit ds = true /\
    all_chars is_space sp = true /\
    is_unit u = true /\
    is_word_opt prev = false /\
    is_word_opt (head post) = false.
Proof.
  unfold time_match_here.
  destruct (word_boundary prev s) eqn:Hb; [|discriminate].
  destruct (is_empty (take_while is_digit s)) eqn:Hd; [discriminate|].
  destruct (drop_while is_space (drop_while is_digit s)) as [|u' rest] eqn:Hr;
    [discriminate|].
  destruct (is_unit u' && word_boundary (Some u') rest) eqn:Hu; [|discriminate].
  intros [= <- <-]. apply andb_true_iff in Hu as [Hu Hb'].
  exists (take_while is_space (drop_while is_digit s)), rest.
  repeat split.
  - rewrite <- Hr, take_drop_while, take_drop_while. reflexivity.
  - now apply is_empty_false.
  - apply all_chars_take_while.
  - apply all_chars_take_while.
  - assumption.
  - destruct (take_while_head _ _ Hd) as (c & Hc & Hdc).
    unfold word_boundary in Hb. rewrite Hc in Hb. simpl in Hb.
    rewrite (digit_is_word _ Hdc) in Hb.
    destruct (is_word_opt prev); [discriminate | reflexivity].
  - unfold word_boundary in Hb'. simpl in Hb'.
    rewrite (unit_is_word _ Hu) in Hb'.
    destruct (is_word_opt (head rest)); [discriminate | reflexivity].
Qed.

Lemma time_search_sound s : forall prev ds u,
  time_search prev s = Some (ds, u) -> has_time_token_after prev s ds u.
Proof.
  induction s as [|c r IH]; intros prev ds u; simpl.
  - destruct (time_match_here prev "") as [[d' u']|] eqn:H; [|discriminate].
    intros [= -> ->].
    destruct (time_match_here_sound _ _ _ _ H) as (sp & post & ?).
    exists EmptyString, sp, post. assumption.
  - destruct (time_match_here prev (String c r)) as [[d' u']|] eqn:H.
    + intros [= -> ->].
      destruct (time_match_here_sound _ _ _ _ H) as (sp & post & ?).
      exists EmptyString, sp, post. assumption.
    + intros Hs. destruct (IH _ _ _ Hs) as (pre & sp & post & -> & ?).
      exists (String c pre), sp, post. split; [reflexivity | assumption].
Qed.

(** Digits, optional whitespace and a unit letter, alone in the text. *)
Lemma time_search_token ds sp u :
  ds <> EmptyString ->
  all_chars is_digit ds = true ->
  all_chars is_space sp = true ->
  is_unit u = true ->
  time_search None (ds +:+ sp +:+ String u EmptyString) = Some (ds, u).
Proof.
  intros Hne Hd Hs Hu.
  assert (Hm : time_match_here None (ds +:+ sp +:+ String u EmptyString)
               = Some (ds, u)).
  { unfold time_match_here.
    destruct ds as [|d ds']; [congruence|].
    pose proof Hd as Hd'. simpl in Hd'.
    apply andb_true_iff in Hd' as [Hd0 _].
    assert (Hb : word_boundary None (String d ds' +:+ sp +:+ String u "")
                 = true).
    { unfold word_boundary. rewrite append_cons. simpl.
      now rewrite (digit_is_word _ Hd0). }
    rewrite Hb.
    destruct (take_while_app is_digit (String d ds') (sp +:+ String u "") Hd)
      as [Ht Hdr].
    { intros c Hc. destruct sp as [|s0 sp'].
      - rewrite append_nil in Hc. injection Hc as <-.
        now apply unit_not_digit.
      - rewrite append_cons in Hc. injection Hc as ->. simpl in Hs.
        apply andb_true_iff in Hs as [Hs0 _].
        destruct (is_digit c) eqn:E; [|reflexivity].
        rewrite (digit_not_space _ E) in Hs0. discriminate. }
    rewrite Ht, Hdr. simpl is_empty. cbv iota.
    destruct (take_while_app is_space sp (String u "") Hs) as [_ ->].
    { intros c [= <-]. now apply unit_not_space. }
    rewrite Hu. unfold word_boundary. simpl.
    now rewrite (unit_is_word _ Hu). }
  destruct (ds +:+ sp +:+ String u ""); cbn [time_search]; now rewrite Hm.
Qed.

Lemma float_limit_large : (2 <= float_limit)%Z.
Proof. intros H. vm_compute in H. discriminate. Qed.

(** A quotient of magnitude at most 1 is within the range of a float. *)
Lemma true_div_small a b :
  (Z.abs a <= Z.abs b)%Z -> b <> 0%Z -> true_div a b = Some (quotient a b).
Proof.
  intros Hab Hb. unfold true_div, float_overflow.
  pose proof float_limit_large as HL.
  destruct (Z.leb_spec (float_limit * Z.abs b) (Z.abs a)) as [H|H];
    [|reflexivity].
  exfalso. assert (0 < Z.abs b)%Z by lia. nia.
Qed.

Lemma convert_agrees u value r :
  is_unit u = true ->
  converted u value = Run.Ok r ->
  agrees r (hours_of u value) /\ hours_of u value <> None.
Proof.
  unfold converted, hours_of, is_unit. simpl existsb.
  destruct (Ascii.eqb u "m") eqn:E1.
  { intros _. unfold true_div.
    destruct (float_overflow value 60); [discriminate|].
    intros [= <-]. split; [|discriminate]. simpl. apply Qred_correct. }
  destruct (Ascii.eqb u "h") eqn:E2;
    [intros _ [= <-]; split; [reflexivity | discriminate]|].
  destruct (Ascii.eqb u "d") eqn:E3;
    [intros _ [= <-]; split; [reflexivity | discriminate]|].
  destruct (Ascii.eqb u "w") eqn:E4;
    [intros _ [= <-]; split; [reflexivity | discriminate]|].
  destruct (Ascii.eqb u "y") eqn:E5;
    [intros _ [= <-]; split; [reflexivity | discriminate]|].
  simpl. discriminate.
Qed.

Lemma convert_returns u value :
  (u = "m"%char -> float_overflow value 60 = false) ->
  exists r, converted u value = Run.Ok r.
Proof.
  intros Hm. unfold converted.
  destruct (Ascii.eqb_spec u "m") as [->|_].
  { unfold true_div. rewrite (Hm eq_refl). simpl. eauto. }
  repeat match goal with
         | |- context [Ascii.eqb u ?c] => destruct (Ascii.eqb u c)
         end; eauto.
Qed.

Lemma int_of_str_short ds :
  (String.length ds <= max_str_digits)%nat ->
  int_of_str ds = Some (int_of_digits ds).
Proof.
  intros H. unfold int_of_str.
  destruct (Nat.ltb_spec max_str_digits (String.length ds)); [lia|reflexivity].
Qed.

Lemma int_of_str_some ds z : int_of_str ds = Some z -> z = int_of_digits ds.
Proof.
  unfold int_of_str. destruct (_ <? _)%nat; [discriminate|]. now intros [= <-].
Qed.

End FacebookTimeProofs.

(** A text with a time token holds a digit. *)
Lemma time_token_has_digit s ds u :
  FacebookTime.has_time_token_after None s ds u ->
  Py.contains_char Py.is_digit s = true.
Proof.
  intros (pre & sp & post & -> & Hne & Hd & _).
  induction pre as [|c pre IH].
  - rewrite append_nil. destruct ds as [|d ds']; [congruence|].
    simpl in Hd. apply andb_true_iff in Hd as [Hd _].
    rewrite append_cons. simpl. now rewrite Hd.
  - rewrite append_cons. simpl. rewrite IH. apply orb_true_r.
Qed.

Section RedditTimeProofs.
Import Py Run Reddit.

Lemma shown_printable n suffix :
  printable n -> shown n suffix = Ok (Some (str_of_Z n +:+ suffix)).
Proof.
  unfold printable, shown. intros H.
  destruct (Nat.ltb_spec max_str_digits (String.length (str_of_Z (Z.abs n))));
    [lia | reflexivity].
Qed.

Lemma normalize_time_letter value c rest :
  (lower_char c = "h"%char -> printable value ->
   normalize_time value (String c rest)
   = Ok (Some (str_of_Z value +:+ "h"))) /\
  (lower_char c = "d"%char -> printable (value * 24) ->
   normalize_time value (String c rest)
   = Ok (Some (str_of_Z (value * 24) +:+ "h"))) /\
  (lower_char c = "y"%char -> printable value ->
   normalize_time value (String c rest)
   = Ok (Some (str_of_Z value +:+ "y"))) /\
  (startswith "min" (lower (String c rest)) = true ->
   printable (Z.max 1 (value / 60)) ->
   normalize_time value (String c rest)
   = Ok (Some (str_of_Z (Z.max 1 (value / 60)) +:+ "h"))) /\
  (startswith "min" (lower (String c rest)) = false ->
   ~ In (lower_char c) ["h"; "d"; "y"]%char ->
   normalize_time value (String c rest) = Ok None).
Proof.
  unfold normalize_time. cbn [lower].
  split; [|split; [|split; [|split]]].
  - intros -> Hp. cbn [startswith Ascii.eqb Bool.eqb andb].
    now apply shown_printable.
  - intros -> Hp. cbn [startswith Ascii.eqb Bool.eqb andb].
    now apply shown_printable.
  - intros -> Hp. cbn [startswith Ascii.eqb Bool.eqb andb].
    now apply shown_printable.
  - intros -> Hp. now apply shown_printable.
  - intros -> Hn. cbn [startswith].
    destruct (Ascii.eqb_spec "h" (lower_char c)) as [E|_];
      [exfalso; apply Hn; rewrite <- E; simpl; tauto|].
    destruct (Ascii.eqb_spec "d" (lower_char c)) as [E|_];
      [exfalso; apply Hn; rewrite <- E; simpl; tauto|].
    destruct (Ascii.eqb_spec "y" (lower_char c)) as [E|_];
      [exfalso; apply Hn; rewrite <- E; simpl; tauto|].
    reflexivity.
Qed.

End RedditTimeProofs.

(** C4, as the code has it.  [fb_time_to_hours_from_comment] of
    facebook_scraper.py: "45m" gives 0.75, "3h" 3, "2d" 48, "1w" 168 and
    "1y" 8760; a text made of digits, optional whitespace and a unit
    letter, the digit run within the limits of [int] and of a float, is
    converted by the table m: value/60, h: value, d: value*24, w:
    value*168, y: value*8760; every value returned comes from a time
    token of the text by that table; a text without a time token, or a
    value that is not a string, gives [None], and no exception.
    [normalize_time] of reddit_scraper.py shows the time as a text: a
    unit word in h gives the value and one in d the value times 24, both
    in hours, one in y the value in years, one in min the whole hours, at
    least 1; any other unit word, one of weeks too, gives [None], and no
    exception. *)
Theorem relative_time_conversion :
  (FacebookTime.fb_time_to_hours_from_comment (Py.Str "45m")
     = Run.Ok (Some (Py.Float (3 # 4))) /\
   FacebookTime.fb_time_to_hours_from_comment (Py.Str "3h")
     = Run.Ok (Some (Py.Int 3)) /\
   FacebookTime.fb_time_to_hours_from_comment (Py.Str "2d")
     = Run.Ok (Some (Py.Int 48)) /\
   FacebookTime.fb_time_to_hours_from_comment (Py.Str "1w")
     = Run.Ok (Some (Py.Int 168)) /\
   FacebookTime.fb_time_to_hours_from_comment (Py.Str "1y")
     = Run.Ok (Some (Py.Int 8760))) /\
  (forall ds sp u,
     ds <> EmptyString ->
     Py.all_chars Py.is_digit ds = true ->
     Py.all_chars Py.is_space sp = true ->
     FacebookTime.is_unit (Py.lower_char u) = true ->
     FacebookTime.convertible ds (Py.lower_char u) ->
     exists r,
       FacebookTime.fb_time_to_hours_from_comment
         (Py.Str (ds +:+ sp +:+ String u EmptyString)) = Run.Ok r /\
       FacebookTime.agrees r
         (FacebookTime.hours_of (Py.lower_char u) (Py.int_of_digits ds)) /\
       FacebookTime.hours_of (Py.lower_char u) (Py.int_of_digits ds)
       <> None) /\
  (forall text n,
     FacebookTime.fb_time_to_hours_from_comment (Py.Str text)
     = Run.Ok (Some n) ->
     exists ds u,
       FacebookTime.has_time_token_after None (Py.lower text) ds u /\
       FacebookTime.agrees (Some n)
         (FacebookTime.hours_of u (Py.int_of_digits ds))) /\
  (forall text,
     ~ FacebookTime.has_time_token (Py.lower text) ->
     FacebookTime.fb_time_to_hours_from_comment (Py.Str text)
     = Run.Ok None) /\
  (FacebookTime.fb_time_to_hours_from_comment Py.NoneVal = Run.Ok None /\
   forall n,
     FacebookTime.fb_time_to_hours_from_comment (Py.Num n) = Run.Ok None) /\
  (forall value c rest,
     (Py.lower_char c = "h"%char -> Reddit.printable value ->
      Reddit.normalize_time value (String c rest)
      = Run.Ok (Some (Run.str_of_Z value +:+ "h"))) /\
     (Py.lower_char c = "d"%char -> Reddit.printable (value * 24) ->
      Reddit.normalize_time value (String c rest)
      = Run.Ok (Some (Run.str_of_Z (value * 24) +:+ "h"))) /\
     (Py.lower_char c = "y"%char -> Reddit.printable value ->
      Reddit.normalize_time value (String c rest)
      = Run.Ok (Some (Run.str_of_Z value +:+ "y"))) /\
     (Py.startswith "min" (Py.lower (String c rest)) = true ->
      Reddit.printable (Z.max 1 (value / 60)) ->
      Reddit.normalize_time value (String c rest)
      = Run.Ok (Some (Run.str_of_Z (Z.max 1 (value / 60)) +:+ "h"))) /\
     (Py.startswith "min" (Py.lower (String c rest)) = false ->
      ~ In (Py.lower_char c) ["h"; "d"; "y"]%char ->
      Reddit.normalize_time value (String c rest) = Run.Ok None)) /\
  (forall value, Reddit.normalize_time value EmptyString = Run.Ok None).
Proof.
  split; [repeat split; vm_compute; reflexivity|].
  split.
  { intros ds sp u Hne Hd Hs Hu [Hlen Hm].
    unfold FacebookTime.fb_time_to_hours_from_comment.
    rewrite !lower_append. simpl Py.lower.
    rewrite (lower_all _ _ lower_digit Hd), (lower_all _ _ lower_space Hs).
    rewrite (time_search_token ds sp _ Hne Hd Hs Hu).
    rewrite (int_of_str_short ds Hlen). cbn [Run.or_raise Run.rbind].
    destruct (convert_returns (Py.lower_char u) (Py.int_of_digits ds) Hm)
      as [r Hr].
    exists r. split; [exact Hr|].
    exact (convert_agrees _ _ _ Hu Hr). }
  split.
  { intros text n. unfold FacebookTime.fb_time_to_hours_from_comment.
    destruct (FacebookTime.time_search None (Py.lower text)) as [[ds u]|] eqn:E;
      [|discriminate].
    destruct (Py.int_of_str ds) as [value|] eqn:Ev; [|discriminate].
    apply int_of_str_some in Ev. subst value.
    cbn [Run.or_raise Run.rbind]. intros Hn.
    exists ds, u. split; [now apply time_search_sound|].
    pose proof (time_search_sound _ _ _ _ E) as (pre & sp & post & _ & _ & _
                                                   & _ & Hu & _).
    exact (proj1 (convert_agrees u (Py.int_of_digits ds) _ Hu Hn)). }
  split.
  { intros text Hno. unfold FacebookTime.fb_time_to_hours_from_comment.
    destruct (FacebookTime.time_search None (Py.lower text)) as [[ds u]|] eqn:E;
      [|reflexivity].
    exfalso. apply Hno. exists ds, u. now apply time_search_sound. }
  split; [split; [reflexivity | intros n; reflexivity]|].
  split; [apply normalize_time_letter | intros value; reflexivity].
Qed.

Lemma relative_time_conversion_witness :
  (exists r,
     FacebookTime.fb_time_to_hours_from_comment
       (Py.Str ("90" +:+ " " +:+ String "M" EmptyString)) = Run.Ok r /\
     FacebookTime.agrees r
       (FacebookTime.hours_of (Py.lower_char "M") (Py.int_of_digits "90")))
  /\ (exists ds u,
        FacebookTime.has_time_token_after None (Py.lower "posted 2D ago") ds u)
  /\ FacebookTime.fb_time_to_hours_from_comment (Py.Str "no time here")
     = Run.Ok None
  /\ Reddit.normalize_time 2 "days" = Run.Ok (Some "48h")
  /\ Reddit.normalize_time 1 "w" = Run.Ok None.
Proof.
  split; [|split; [|split; [|split]]].
  - destruct (proj1 (proj2 relative_time_conversion)
                "90" " " "M"%char
                ltac:(discriminate) eq_refl eq_refl eq_refl
                (conj (proj1 (Nat.leb_le 2 Py.max_str_digits) eq_refl)
                      (fun _ => eq_refl)))
      as (r & Hr & Ha & _).
    exists r. split; [exact Hr | exact Ha].
  - destruct (proj1 (proj2 (proj2 relative_time_conversion))
                "posted 2D ago" (Py.Int 48) eq_refl) as (ds & u & H & _).
    exists ds, u. exact H.
  - apply (proj1 (proj2 (proj2 (proj2 relative_time_conversion)))).
    intros (ds & u & H). apply time_token_has_digit in H.
    vm_compute in H. discriminate.
  - exact (proj1 (proj2 (proj1 (proj2 (proj2 (proj2 (proj2 (proj2
             relative_time_conversion))))) 2%Z "d"%char "ays"))
             eq_refl (proj1 (Nat.leb_le 2 Py.max_str_digits) eq_refl)).
  - refine (proj2 (proj2 (proj2 (proj2 (proj1 (proj2 (proj2 (proj2 (proj2
              (proj2 relative_time_conversion))))) 1%Z "w"%char ""))))
              eq_refl _).
    simpl. intros [H|[H|[H|[]]]]; discriminate H.
Defined.

(** The claim C4 fails in two places.  [normalize_time] of
    reddit_scraper.py is a different helper: from a value and a unit word
    it formats the text shown for the comment, in whole hours for minutes,
    hours and days and in years for years; it knows no week, and no minute
    written as a single letter.  And [fb_time_to_hours_from_comment]
    raises on a digit run beyond the limits of a float or of [int]. *)
Lemma time_conversion_off_the_table :
  (Reddit.normalize_time 45 "min" = Run.Ok (Some "1h") /\
   Reddit.normalize_time 45 "m" = Run.Ok None /\
   Reddit.normalize_time 3 "h" = Run.Ok (Some "3h") /\
   Reddit.normalize_time 2 "d" = Run.Ok (Some "48h") /\
   Reddit.normalize_time 1 "w" = Run.Ok None /\
   Reddit.normalize_time 1 "y" = Run.Ok (Some "1y")) /\
  FacebookTime.fb_time_to_hours_from_comment
    (Py.Str (FacebookTime.repeat_char "9" 400 +:+ "m"))
  = Run.Raise Run.OverflowError /\
  FacebookTime.fb_time_to_hours_from_comment
    (Py.Str (FacebookTime.repeat_char "9" 4301 +:+ "h"))
  = Run.Raise Run.ValueError.
Proof. repeat split; vm_compute; reflexivity. Qed.

(** ** C3: the Instagram tokenizer *)

Section InstagramParseProofs.
Import Py InstagramParse.

Lemma skip_bullets_In l x : In x (skip_bullets l) -> In x l.
Proof.
  induction l as [|s r IH]; simpl; [tauto|].
  destruct (is_stray_bullet s); simpl; tauto.
Qed.

Lemma skip_bullets_length l :
  (List.length (skip_bullets l) <= List.length l)%nat.
Proof.
  induction l as [|s r IH]; simpl; [lia|].
  destruct (is_stray_bullet s); simpl; lia.
Qed.

Lemma gather_In l : forall acc x, In x (snd (gather l acc)) -> In x l.
Proof.
  induction l as [|s r IH]; intros acc x; simpl; [tauto|].
  destruct (username_pattern s && negb (is_noise s)); [simpl; tauto|].
  destruct (time_pattern s); [simpl; tauto|].
  destruct (is_noise s || likes_count (lower (strip s)));
    intros H; right; eapply IH; eassumption.
Qed.

Lemma gather_length l : forall acc,
  (List.length (snd (gather l acc)) <= List.length l)%nat.
Proof.
  induction l as [|s r IH]; intros acc; simpl; [lia|].
  destruct (username_pattern s && negb (is_noise s)); [simpl; lia|].
  destruct (time_pattern s); [simpl; lia|].
  destruct (is_noise s || likes_count (lower (strip s)));
    [pose proof (IH acc) | pose proof (IH (acc ++ [s])%list)]; lia.
Qed.

(** The records of the loop keep [complete_record]. *)
Lemma parse_loop_complete raw fuel : forall l comments,
  (forall x, In x l -> In x raw) ->
  Forall (complete_record raw) comments ->
  Forall (complete_record raw) (parse_loop fuel l comments).
Proof.
  induction fuel as [|fuel IH]; intros l comments Hl Hc; simpl;
    [assumption|].
  destruct l as [|s r]; [assumption|].
  destruct (username_pattern s && negb (is_noise s)) eqn:Hu.
  2:{ apply IH; [|assumption]. intros x Hx. apply Hl. now right. }
  destruct (skip_bullets r) as [|t l2] eqn:Hsk.
  { apply IH; [|assumption]. intros x []. }
  assert (Hl1 : forall x, In x (t :: l2) -> In x raw).
  { intros x Hx. apply Hl. right. apply skip_bullets_In. now rewrite Hsk. }
  destruct (time_pattern t) eqn:Ht.
  2:{ apply IH; assumption. }
  destruct (gather l2 []) as [text_lines l3] eqn:Hg.
  assert (Hl3 : forall x, In x l3 -> In x raw).
  { intros x Hx. apply Hl1. right. apply (gather_In l2 [] x).
    now rewrite Hg. }
  destruct (truthy s && truthy t && truthy (strip (join " " text_lines)))
    eqn:Hall.
  2:{ apply IH; assumption. }
  apply IH; [assumption|].
  apply Forall_app. split; [assumption|]. constructor; [|constructor].
  apply andb_true_iff in Hall as [[Hs Htt]%andb_true_iff Htx].
  apply andb_true_iff in Hu as [Hu Hn]. apply negb_true_iff in Hn.
  unfold complete_record; simpl. repeat split; try assumption.
  - apply Hl. now left.
  - apply Hl1. now left.
  - apply strip_idem.
Qed.

(** Each pass consumes a fragment: more fuel than fragments changes
    nothing. *)
Lemma parse_loop_fuel n : forall m l comments,
  (List.length l <= n)%nat -> (List.length l <= m)%nat ->
  parse_loop n l comments = parse_loop m l comments.
Proof.
  induction n as [|n IH]; intros m l comments Hn Hm.
  - destruct l; [|simpl in Hn; lia]. destruct m; reflexivity.
  - destruct l as [|s r]; [destruct m; reflexivity|].
    destruct m as [|m]; [simpl in Hm; lia|]. simpl in Hn, Hm. simpl.
    destruct (username_pattern s && negb (is_noise s)).
    2:{ apply IH; lia. }
    pose proof (skip_bullets_length r) as Hsk.
    destruct (skip_bullets r) as [|t l2].
    { apply IH; simpl; lia. }
    simpl in Hsk.
    destruct (time_pattern t).
    2:{ apply IH; simpl; lia. }
    pose proof (gather_length l2 []) as Hg.
    destruct (gather l2 []) as [text_lines l3]. simpl in Hg.
    destruct (truthy s && truthy t && truthy (strip (join " " text_lines)));
      apply IH; lia.
Qed.

End InstagramParseProofs.

(** C3, as the code has it.  Every record the Instagram tokenizer emits has
    a non-empty author that passes the user name test, a non-empty time
    that passes the time test, both taken from the input fragments, and a
    non-empty trimmed text; the loop bound of the model is enough for any
    input. *)
Theorem ig_tokenizer_emits_complete_records :
  (forall raw_texts c,
     In c (InstagramParse.parse_ig_comment_blocks raw_texts) ->
     InstagramParse.complete_record raw_texts c) /\
  (forall raw_texts n,
     (List.length raw_texts <= n)%nat ->
     InstagramParse.parse_loop n raw_texts []
     = InstagramParse.parse_ig_comment_blocks raw_texts).
Proof.
  split.
  - intros raw c Hc.
    pose proof (parse_loop_complete raw (List.length raw) raw []
                  (fun x H => H) (List.Forall_nil _)) as H.
    rewrite Forall_forall in H. apply H.
    apply list_elem_of_In. exact Hc.
  - intros raw n Hn. unfold InstagramParse.parse_ig_comment_blocks.
    apply parse_loop_fuel; lia.
Qed.

Lemma ig_tokenizer_emits_complete_records_witness :
  InstagramParse.complete_record
    ["bob"; "•"; "2 H"; "nice one!"; "Reply"; "3 likes"]
    {| InstagramParse.author := "bob"; InstagramParse.time := "2 H";
       InstagramParse.text := "nice one!" |}.
Proof.
  apply (proj1 ig_tokenizer_emits_complete_records).
  vm_compute. left. reflexivity.
Defined.

(** C3 as stated fails: a body shorter than five characters is emitted. *)
Lemma ig_tokenizer_emits_short_body :
  InstagramParse.parse_ig_comment_blocks ["bob"; "2h"; "hi!"]
  = [{| InstagramParse.author := "bob"; InstagramParse.time := "2h";
        InstagramParse.text := "hi!" |}]
  /\ (String.length "hi!" < 5)%nat.
Proof. split; [vm_compute; reflexivity | simpl; lia]. Qed.

(** ** C7: malformed containers are skipped *)

Section ContainerProofs.
Import Py Run.

(** What [parse_block] does with one container, by cases on
    [Facebook.accepted]. *)
Lemma fb_parse_block_cases url b :
  Facebook.raises_Exception_only b ->
  (Facebook.accepted b = true /\
   exists c, Facebook.parse_block url b = Ok (Some c) /\
             Facebook.block c = b /\ Facebook.post_url c = url /\
             (5 <= String.length (Facebook.comment c))%nat) \/
  (Facebook.accepted b = false /\
   (Facebook.parse_block url b = Ok None \/
    exists e, Facebook.parse_block url b = Raise e /\ is_Exception e = true)).
Proof.
  intros [Ha Hs]. unfold Facebook.accepted, Facebook.parse_block.
  destruct (fb_link_text b) as [a|e] eqn:E1; cbn [rbind].
  2:{ right. split; [reflexivity|]. right. exists e. split; [reflexivity|].
      now apply Ha. }
  destruct (fb_span_texts b) as [spans|e] eqn:E2; cbn [rbind].
  2:{ right. split; [reflexivity|]. right. exists e. split; [reflexivity|].
      now apply Hs. }
  destruct (String.length (strip (join " " (List.filter truthy spans))) <? 5)%nat
    eqn:E3.
  - right. apply Nat.ltb_lt in E3. split; [|left; reflexivity].
    apply Nat.leb_gt. lia.
  - left. apply Nat.ltb_ge in E3. split; [now apply Nat.leb_le|].
    eexists. split; [reflexivity|]. simpl. repeat split. exact E3.
Qed.

Lemma fb_parse_blocks_from url blocks : forall data,
  Forall Facebook.raises_Exception_only blocks ->
  exists data',
    Facebook.parse_blocks_from data blocks url = Ok (data ++ data')%list /\
    map Facebook.block data' = List.filter Facebook.accepted blocks /\
    Forall (fun c => Facebook.post_url c = url /\
                     (5 <= String.length (Facebook.comment c))%nat) data'.
Proof.
  induction blocks as [|b rest IH]; intros data Hall.
  - exists []. simpl. rewrite app_nil_r. auto.
  - inversion Hall as [|? ? Hb Hrest]; subst. simpl.
    destruct (fb_parse_block_cases url b Hb)
      as [[Hacc (c & -> & Hblk & Hurl & Hlen)]
         | [Hacc [-> | (e & -> & He)]]];
      rewrite Hacc; simpl; rewrite ?He; simpl.
    + destruct (IH (data ++ [c])%list Hrest) as (d' & -> & Hm & Hf).
      exists (c :: d'). rewrite <- app_assoc. simpl.
      split; [reflexivity|]. split; [now rewrite Hblk, Hm|].
      constructor; auto.
    + destruct (IH data Hrest) as (d' & -> & Hm & Hf). eauto.
    + destruct (IH data Hrest) as (d' & -> & Hm & Hf). eauto.
Qed.

Lemma tw_parse_reply_cases url b :
  (Twitter.accepted b = true /\
   exists c, Twitter.parse_reply url b = Ok (Some c) /\
             Twitter.block c = b /\ Twitter.post_url c = url /\
             (5 <= String.length (Twitter.comment c))%nat) \/
  (Twitter.accepted b = false /\
   (Twitter.parse_reply url b = Ok None \/
    exists e, Twitter.parse_reply url b = Raise e)).
Proof.
  unfold Twitter.accepted, Twitter.parse_reply.
  destruct (tw_text b) as [t|e] eqn:E1; cbn [rbind]; [|right; eauto].
  destruct (String.length (strip t) <? 5)%nat eqn:E3.
  - right. apply Nat.ltb_lt in E3. split; [|left; reflexivity].
    apply andb_false_iff. left. apply Nat.leb_gt. lia.
  - apply Nat.ltb_ge in E3.
    destruct (tw_user b) as [u|e] eqn:E2; cbn [rbind];
      [|right; rewrite andb_false_r; eauto].
    destruct (tw_reply_btn b) as [r|e] eqn:E4; cbn [rbind];
      [|right; rewrite andb_false_r; eauto].
    left. split; [rewrite andb_true_r; now apply Nat.leb_le|].
    eexists. split; [reflexivity|]. simpl. repeat split. exact E3.
Qed.

Lemma tw_parse_replies_from url blocks : forall data,
  exists data',
    Twitter.parse_replies_from data blocks url = Ok (data ++ data')%list /\
    map Twitter.block data' = List.filter Twitter.accepted blocks /\
    Forall (fun c => Twitter.post_url c = url /\
                     (5 <= String.length (Twitter.comment c))%nat) data'.
Proof.
  induction blocks as [|b rest IH]; intros data.
  - exists []. simpl. rewrite app_nil_r. auto.
  - simpl.
    destruct (tw_parse_reply_cases url b)
      as [[Hacc (c & -> & Hblk & Hurl & Hlen)]
         | [Hacc [-> | (e & ->)]]];
      rewrite Hacc; simpl.
    + destruct (IH (data ++ [c])%list) as (d' & -> & Hm & Hf).
      exists (c :: d'). rewrite <- app_assoc. simpl.
      split; [reflexivity|]. split; [now rewrite Hblk, Hm|].
      constructor; auto.
    + destruct (IH data) as (d' & -> & Hm & Hf). eauto.
    + destruct (IH data) as (d' & -> & Hm & Hf). eauto.
Qed.

(** When every well-formed container passes the length test, the malformed
    ones are exactly those that are not kept. *)
Lemma filter_accepted_count blocks :
  (forall b, In b blocks ->
     Facebook.malformed b = false -> Facebook.accepted b = true) ->
  (List.length (List.filter Facebook.accepted blocks)
   + List.length (List.filter Facebook.malformed blocks)
   = List.length blocks)%nat.
Proof.
  induction blocks as [|b rest IH]; intros H; [reflexivity|]. simpl.
  assert (Hrest : forall b, In b rest ->
            Facebook.malformed b = false -> Facebook.accepted b = true).
  { intros b' Hb'. apply H. now right. }
  specialize (IH Hrest). specialize (H b (or_introl eq_refl)).
  destruct (Facebook.malformed b) eqn:Em.
  - assert (Facebook.accepted b = false) as ->.
    { unfold Facebook.malformed in Em. unfold Facebook.accepted.
      destruct (fb_link_text b); [|reflexivity].
      destruct (fb_span_texts b); [discriminate | reflexivity]. }
    simpl. lia.
  - rewrite (H eq_refl). simpl. lia.
Qed.

End ContainerProofs.

(** C7. [parse_blocks] (Facebook) and [parse_replies] (Twitter) never
    raise on containers whose lookups raise errors of class [Exception]:
    they return the records of exactly the containers whose lookups succeed
    and whose text has at least 5 characters, in order; when the n - k
    well-formed containers all pass the length test, n - k records are
    produced. *)
Theorem parse_blocks_skips_malformed :
  (forall blocks url,
     Forall Facebook.raises_Exception_only blocks ->
     exists data,
       Facebook.parse_blocks blocks url = Run.Ok data /\
       map Facebook.block data = List.filter Facebook.accepted blocks /\
       Forall (fun c => Facebook.post_url c = url /\
                        (5 <= String.length (Facebook.comment c))%nat) data /\
       ((forall b, In b blocks ->
           Facebook.malformed b = false -> Facebook.accepted b = true) ->
        (List.length data
         + List.length (List.filter Facebook.malformed blocks)
         = List.length blocks)%nat)) /\
  (forall blocks url,
     exists data,
       Twitter.parse_replies blocks url = Run.Ok data /\
       map Twitter.block data = List.filter Twitter.accepted blocks /\
       Forall (fun c => Twitter.post_url c = url /\
                        (5 <= String.length (Twitter.comment c))%nat) data).
Proof.
  split.
  - intros blocks url Hall.
    destruct (fb_parse_blocks_from url blocks [] Hall) as (d & Hd & Hm & Hf).
    exists d. repeat split; try assumption.
    intros Hwf. rewrite <- (filter_accepted_count blocks Hwf), <- Hm.
    now rewrite length_map.
  - intros blocks url.
    destruct (tw_parse_replies_from url blocks []) as (d & Hd & Hm & Hf).
    exists d. auto.
Qed.

Lemma parse_blocks_skips_malformed_witness :
  exists data,
    Facebook.parse_blocks
      [Facebook.sample_block "A" "first comment"; Facebook.broken_block;
       Facebook.sample_block "B" "second comment"]
      "https://www.facebook.com/posts/x"
    = Run.Ok data /\
    map Facebook.c_username data = ["A"; "B"] /\
    List.length data = 2%nat.
Proof.
  destruct (proj1 parse_blocks_skips_malformed
              [Facebook.sample_block "A" "first comment";
               Facebook.broken_block;
               Facebook.sample_block "B" "second comment"]
              "https://www.facebook.com/posts/x")
    as (data & Hd & Hm & _ & Hn).
  { repeat constructor; intros e H; inversion H; reflexivity. }
  exists data. split; [exact Hd|].
  assert (Hlen : (List.length data + 1 = 3)%nat).
  { apply Hn. intros b [<-|[<-|[<-|[]]]]; vm_compute; congruence. }
  vm_compute in Hd. injection Hd as <-. split; reflexivity.
Defined.

(** ** C6: the cleaning pipeline of facebook_scraper.py *)

Section CleaningProofs.
Import Py Re Facebook.

(** A pattern that is found nowhere leaves the text as it is. *)
Lemma sub_scan_no_match m repl s : forall prev,
  search_from m prev s = false -> sub_scan m repl 0 prev s = s.
Proof.
  induction s as [|c r IH]; intros prev H; [reflexivity|].
  simpl in H. simpl.
  destruct (m prev (String c r)) as [[|k]|]; try discriminate;
    now rewrite (IH _ H).
Qed.

Lemma sub_no_match m repl s : search m s = false -> sub m repl s = s.
Proof. apply sub_scan_no_match. Qed.

(** The substitution of [\s+] by one space is [squeeze]. *)
Lemma sub_spaces_squeeze s :
  (forall prev, sub_scan spaces_pattern " " 0 prev s = squeeze false s) /\
  (forall prev, sub_scan spaces_pattern " "
                  (String.length (take_while is_space s)) prev s
                = squeeze true s).
Proof.
  induction s as [|c r [IHa IHb]]; [split; reflexivity|].
  assert (Ha : forall prev,
    sub_scan spaces_pattern " " 0 prev (String c r)
    = squeeze false (String c r)).
  { intros prev. simpl. unfold spaces_pattern at 1. simpl.
    destruct (is_space c); simpl.
    - rewrite append_cons, append_nil. now rewrite IHb.
    - now rewrite IHa. }
  split; [exact Ha|].
  intros prev. simpl take_while. destruct (is_space c) eqn:E.
  - simpl. rewrite E. apply IHb.
  - simpl String.length. rewrite Ha. simpl. now rewrite E.
Qed.

Lemma squeeze_single_spaced s : forall b,
  single_spaced b (squeeze b s) = true.
Proof.
  induction s as [|c r IH]; intros b; [reflexivity|]. simpl.
  destruct (is_space c) eqn:E.
  - destruct b; [apply IH|]. simpl. now rewrite IH.
  - simpl. rewrite E. apply IH.
Qed.

Lemma single_spaced_squeeze s : forall b,
  single_spaced b s = true -> squeeze b s = s.
Proof.
  induction s as [|c r IH]; intros b H; [reflexivity|]. simpl in *.
  destruct (is_space c) eqn:E.
  - apply andb_true_iff in H as [[Hc Hb]%andb_true_iff Hr].
    apply negb_true_iff in Hb. subst b. apply Ascii.eqb_eq in Hc. subst c.
    now rewrite (IH _ Hr).
  - now rewrite (IH _ H).
Qed.

Lemma single_spaced_weaken s :
  single_spaced true s = true -> single_spaced false s = true.
Proof.
  destruct s as [|c r]; [reflexivity|]. simpl.
  destruct (is_space c); [|tauto].
  rewrite andb_false_r. discriminate.
Qed.

Lemma single_spaced_lstrip s : forall b,
  single_spaced b s = true -> single_spaced true (lstrip s) = true.
Proof.
  induction s as [|c r IH]; intros b H; [reflexivity|].
  unfold lstrip in *. simpl in *. destruct (is_space c) eqn:E.
  - apply andb_true_iff in H as [_ Hr]. now apply (IH true).
  - simpl. now rewrite E.
Qed.

Lemma single_spaced_rstrip s : forall b,
  single_spaced b s = true -> single_spaced b (rstrip s) = true.
Proof.
  induction s as [|c r IH]; intros b H; [reflexivity|]. simpl in *.
  destruct (is_space c) eqn:E; simpl.
  - destruct (is_empty (rstrip r)); [reflexivity|]. simpl. rewrite E.
    apply andb_true_iff in H as [H1 Hr]. rewrite H1. now apply IH.
  - rewrite E. now apply IH.
Qed.

Lemma single_spaced_no_newline s : forall b,
  single_spaced b s = true -> replace_newlines s = s.
Proof.
  induction s as [|c r IH]; intros b H; [reflexivity|]. simpl in *.
  destruct (Ascii.eqb c InstagramParse.newline) eqn:En.
  - apply Ascii.eqb_eq in En. subst c. simpl in H. discriminate.
  - destruct (is_space c); [apply andb_true_iff in H as [_ H]|];
      now rewrite (IH _ H).
Qed.

Lemma strip_ws_normal s b :
  single_spaced b s = true -> ws_normal (strip s).
Proof.
  intros H. split.
  - unfold strip. apply single_spaced_rstrip.
    eapply single_spaced_lstrip. exact H.
  - unfold strip. apply rstrip_idem.
Qed.

Lemma ws_normal_strip s : ws_normal s -> strip s = s.
Proof.
  intros [Hs Hr]. unfold strip. rewrite lstrip_id; [exact Hr|].
  intros c Hc. destruct s as [|a r]; [discriminate|].
  injection Hc as ->. simpl in Hs.
  destruct (is_space c); [|reflexivity].
  rewrite andb_false_r in Hs. discriminate.
Qed.

(** The whitespace normalisation yields whitespace-normal text and leaves
    such text as it is. *)
Lemma normalize_spaces_normal s : ws_normal (normalize_spaces s).
Proof.
  unfold normalize_spaces, sub.
  rewrite (proj1 (sub_spaces_squeeze _)).
  eapply strip_ws_normal. apply squeeze_single_spaced.
Qed.

Lemma normalize_spaces_fixed s : ws_normal s -> normalize_spaces s = s.
Proof.
  intros Hn. pose proof Hn as [Hs Hr]. unfold normalize_spaces, sub.
  rewrite (single_spaced_no_newline _ _ Hs).
  rewrite (proj1 (sub_spaces_squeeze _)).
  rewrite (single_spaced_squeeze _ _ (single_spaced_weaken _ Hs)).
  now apply ws_normal_strip.
Qed.

Lemma clean_comment_normal x : ws_normal (clean_comment x).
Proof.
  unfold clean_comment. destruct (is_empty x).
  - split; reflexivity.
  - apply normalize_spaces_normal.
Qed.

Lemma remove_tokens_fixed s :
  ws_normal s -> tokens_free s = true -> remove_tokens s = s.
Proof.
  intros Hn Hf. unfold tokens_free, removal_patterns in Hf. simpl in Hf.
  apply andb_true_iff in Hf as [H1%negb_true_iff Hf].
  apply andb_true_iff in Hf as [H2%negb_true_iff Hf].
  apply andb_true_iff in Hf as [H3%negb_true_iff Hf].
  apply andb_true_iff in Hf as [H4%negb_true_iff Hf].
  apply andb_true_iff in Hf as [H5%negb_true_iff Hf].
  apply andb_true_iff in Hf as [H6%negb_true_iff Hf].
  apply andb_true_iff in Hf as [H7%negb_true_iff _].
  unfold remove_tokens.
  rewrite (sub_no_match _ _ _ H1), (sub_no_match _ _ _ H2),
    (sub_no_match _ _ _ H3), (ws_normal_strip _ Hn),
    (sub_no_match _ _ _ H4), (sub_no_match _ _ _ H5),
    (sub_no_match _ _ _ H6), (sub_no_match _ _ _ H7).
  reflexivity.
Qed.

End CleaningProofs.

(** ** C6: the cleaning of reddit_scraper.py *)

Section RedditCleaningProofs.
Import Py Reddit.

Lemma all_chars_append p a b :
  all_chars p a = true -> all_chars p b = true ->
  all_chars p (a +:+ b) = true.
Proof.
  intros Ha Hb. induction a as [|c a IH]; [exact Hb|].
  rewrite append_cons. simpl in *. apply andb_true_iff in Ha as [Hc Ha].
  now rewrite Hc, IH.
Qed.

Lemma all_chars_drop_while p q s :
  all_chars q s = true -> all_chars q (drop_while p s) = true.
Proof.
  induction s as [|c r IH]; [auto|]. simpl. intros H.
  destruct (p c); [|exact H].
  apply andb_true_iff in H as [_ H]. auto.
Qed.

Lemma all_chars_rstrip q s :
  all_chars q s = true -> all_chars q (rstrip s) = true.
Proof.
  induction s as [|c r IH]; [auto|]. simpl.
  intros [Hc Hr]%andb_true_iff.
  destruct (is_space c && is_empty (rstrip r)); [reflexivity|].
  simpl. now rewrite Hc, IH.
Qed.

Lemma all_chars_strip q s :
  all_chars q s = true -> all_chars q (strip s) = true.
Proof.
  intros H. unfold strip, lstrip.
  now apply all_chars_rstrip, all_chars_drop_while.
Qed.

Lemma splitlines_not_break s :
  Forall (fun l => all_chars not_break l = true) (splitlines s).
Proof.
  induction s as [|c r IH]; simpl; [constructor|].
  destruct (is_linebreak c) eqn:E.
  - constructor; [reflexivity | exact IH].
  - destruct (splitlines r) as [|l ls].
    + constructor; [|constructor]. simpl. unfold not_break. now rewrite E.
    + inversion IH; subst. constructor; [|assumption].
      simpl. unfold not_break at 1. now rewrite E.
Qed.

Lemma splitlines_single s :
  s <> EmptyString -> all_chars not_break s = true -> splitlines s = [s].
Proof.
  induction s as [|c r IH]; [congruence|]. intros _ H. simpl in *.
  apply andb_true_iff in H as [Hc Hr]. unfold not_break in Hc.
  apply negb_true_iff in Hc. rewrite Hc.
  destruct r as [|c' r']; [reflexivity|].
  rewrite IH; [reflexivity | discriminate | exact Hr].
Qed.

Lemma join_not_break ls :
  Forall (fun l => all_chars not_break l = true) ls ->
  all_chars not_break (join " " ls) = true.
Proof.
  induction 1 as [|l ls Hl Hls IH]; [reflexivity|]. simpl.
  destruct ls as [|l' ls']; [exact Hl|].
  apply all_chars_append; [exact Hl|].
  apply all_chars_append; [reflexivity | exact IH].
Qed.

(** A trimmed line that is not empty starts with a character that is not
    whitespace. *)
Lemma strip_head x :
  truthy (strip x) = true ->
  exists c r, strip x = String c r /\ is_space c = false.
Proof.
  destruct (strip x) as [|c r] eqn:E; [discriminate|]. intros _.
  exists c, r. split; [reflexivity|].
  assert (H : head (strip x) = Some c) by now rewrite E.
  unfold strip in H. apply head_rstrip in H.
  eapply head_drop_while. exact H.
Qed.

Lemma strip_nonspace_head c r :
  is_space c = false -> truthy (strip (String c r)) = true.
Proof.
  intros Hc. unfold strip, lstrip. simpl. rewrite Hc. simpl. now rewrite Hc.
Qed.

Lemma join_head l ls c r :
  l = String c r -> exists r', join " " (l :: ls) = String c r'.
Proof.
  intros ->. simpl. destruct ls; [eauto|]. rewrite append_cons. eauto.
Qed.

(** The lines [clean_comment_text] keeps. *)
Lemma kept_lines raw :
  Forall (fun l => truthy l = true /\ strip l = l /\
                   all_chars not_break l = true)
    (List.filter keep_line
       (List.filter truthy (map strip (splitlines raw)))).
Proof.
  pose proof (splitlines_not_break raw) as H.
  induction H as [|x xs Hx Hxs IH]; simpl; [constructor|].
  destruct (truthy (strip x)) eqn:Et; [|exact IH]. simpl.
  destruct (keep_line (strip x)); [|exact IH].
  constructor; [|exact IH]. split; [exact Et|]. split; [apply strip_idem|].
  now apply all_chars_strip.
Qed.

Lemma reddit_clean_fixed raw s :
  clean_comment_text (Str raw) = Some s ->
  keep_line s = true ->
  clean_comment_text (Str s) = Some s.
Proof.
  unfold clean_comment_text at 1. pose proof (kept_lines raw) as Hk.
  destruct (List.filter keep_line _) as [|l ls] eqn:E; [discriminate|].
  intros Hsome Hkeep.
  remember (join " " (l :: ls)) as j eqn:Ej.
  assert (Hs0 : s = strip j) by congruence. subst s.
  apply Forall_cons in Hk as [(Ht & Hs & Hb) Hrest].
  assert (Hjb : all_chars not_break j = true).
  { rewrite Ej. apply join_not_break. constructor; [exact Hb|].
    eapply Forall_impl; [exact Hrest|]. simpl. tauto. }
  assert (Hsb : all_chars not_break (strip j) = true)
    by now apply all_chars_strip.
  assert (Hst : truthy (strip j) = true).
  { rewrite <- Hs in Ht. destruct (strip_head l Ht) as (c & r & Hl & Hc).
    rewrite Hs in Hl. destruct (join_head l ls c r Hl) as (r' & Hj).
    rewrite Ej, Hj. now apply strip_nonspace_head. }
  unfold clean_comment_text.
  rewrite (splitlines_single (strip j)); [|now apply is_empty_false,
    negb_true_iff | exact Hsb].
  simpl. rewrite strip_idem, Hst. simpl. rewrite Hkeep. simpl.
  now rewrite strip_idem.
Qed.

End RedditCleaningProofs.

(** C6, as the code has it.  [clean_comment] (Facebook) always yields
    whitespace-normal text, its whitespace normalisation is idempotent, and
    cleaning twice gives the same as cleaning once for every text in whose
    cleaned form none of the removal patterns is found.
    [clean_comment_text] (Reddit) gives the same when applied twice for
    every text whose cleaned form is [None] or, taken as one line, passes
    the line filters. *)
Theorem clean_comment_idempotent_when_tokens_free :
  (forall x, Facebook.ws_normal (Facebook.clean_comment x)) /\
  (forall x, Facebook.normalize_spaces (Facebook.normalize_spaces x)
             = Facebook.normalize_spaces x) /\
  (forall x,
     Facebook.tokens_free (Facebook.clean_comment x) = true ->
     Facebook.clean_comment (Facebook.clean_comment x)
     = Facebook.clean_comment x) /\
  (forall raw,
     match Reddit.clean_comment_text (Py.Str raw) with
     | None =>
         Reddit.clean_comment_text (Reddit.val_of None) = None
     | Some s =>
         Reddit.keep_line s = true ->
         Reddit.clean_comment_text (Reddit.val_of (Some s)) = Some s
     end).
Proof.
  split; [apply clean_comment_normal|]. split; [|split].
  - intros x. apply normalize_spaces_fixed, normalize_spaces_normal.
  - intros x Hf. pose proof (clean_comment_normal x) as Hn.
    set (y := Facebook.clean_comment x) in *.
    unfold Facebook.clean_comment at 1.
    destruct (Py.is_empty y) eqn:E.
    + apply is_empty_true in E. now rewrite E.
    + rewrite (remove_tokens_fixed _ Hn Hf).
      now apply normalize_spaces_fixed.
  - intros raw.
    destruct (Reddit.clean_comment_text (Py.Str raw)) as [s|] eqn:E;
      [|reflexivity].
    intros Hk. simpl. eapply reddit_clean_fixed; eassumption.
Qed.

Lemma clean_comment_idempotent_when_tokens_free_witness :
  Facebook.clean_comment
    (Facebook.clean_comment "see https://x.y/z  nice post Like Like 2 2")
  = Facebook.clean_comment "see https://x.y/z  nice post Like Like 2 2"
  /\ Reddit.clean_comment_text (Py.Str "nice post • thanks")
     = Some "nice post • thanks".
Proof.
  split.
  - apply (proj1 (proj2 (proj2 clean_comment_idempotent_when_tokens_free))).
    vm_compute. reflexivity.
  - pose proof (proj2 (proj2 (proj2 clean_comment_idempotent_when_tokens_free))
                  "upvote
nice post
12
• thanks") as H.
    vm_compute in H. vm_compute. apply H. reflexivity.
Defined.

(** C6 as stated fails: removing a word can bring together two words that
    the next cleaning removes. *)
Lemma clean_comment_not_idempotent :
  Facebook.clean_comment "like Edited like" = "like like" /\
  Facebook.clean_comment (Facebook.clean_comment "like Edited like")
  <> Facebook.clean_comment "like Edited like".
Proof. split; [vm_compute; reflexivity | vm_compute; discriminate]. Qed.

(** The same for the Reddit cleaning: two kept lines joined can form a
    user-and-time line, which the next cleaning drops. *)
Lemma reddit_clean_not_idempotent :
  Reddit.clean_comment_text (Py.Str "ab
• 3h") = Some "ab • 3h" /\
  Reddit.clean_comment_text (Py.Str "ab • 3h") = None.
Proof. split; vm_compute; reflexivity. Qed.

(** ** Rules for the judgments about runs *)

Section RunRules.
Import Py Run.

Lemma state_eta w :
  with_tick (tick w) (with_stdout (stdout w ++ []) w) = w.
Proof. destruct w. unfold with_tick, with_stdout. simpl. now rewrite app_nil_r. Qed.

Lemma state_compose w n1 l1 n2 l2 :
  let w1 := with_tick n1 (with_stdout (stdout w ++ l1) w) in
  with_tick n2 (with_stdout (stdout w1 ++ l2) w1)
  = with_tick n2 (with_stdout (stdout w ++ (l1 ++ l2)) w).
Proof. destruct w. unfold with_tick, with_stdout. simpl. now rewrite app_assoc. Qed.

(** *** [hoare] *)

Lemma hoare_ret {A} P (a : A) (Q : A -> State -> Prop) E :
  (forall w, P w -> Q a w) -> hoare P (ret a) Q E.
Proof. intros H w Hw. simpl. auto. Qed.

Lemma hoare_raise {A} P e (Q : A -> State -> Prop) (E : exn -> State -> Prop) :
  (forall w, P w -> E e w) -> hoare P (raise e) Q E.
Proof. intros H w Hw. simpl. auto. Qed.

Lemma hoare_bind {A B} P (c : M A) (k : A -> M B) R Q E :
  hoare P c R E -> (forall a, hoare (R a) (k a) Q E) ->
  hoare P (bind c k) Q E.
Proof.
  intros Hc Hk w Hw. unfold bind. specialize (Hc w Hw).
  destruct (c w) as [[a|e] w']; [|exact Hc]. apply Hk. exact Hc.
Qed.

Lemma hoare_conseq {A} (P P' : State -> Prop) (c : M A)
    (Q Q' : A -> State -> Prop) (E E' : exn -> State -> Prop) :
  hoare P c Q E ->
  (forall w, P' w -> P w) ->
  (forall a w, Q a w -> Q' a w) ->
  (forall e w, E e w -> E' e w) ->
  hoare P' c Q' E'.
Proof.
  intros H HP HQ HE w Hw. specialize (H w (HP w Hw)).
  destruct (c w) as [[a|e] w']; auto.
Qed.

Lemma hoare_trivial {A} P (c : M A) :
  hoare P c (fun _ _ => True) (fun _ _ => True).
Proof. intros w _. destruct (c w) as [[a|e] w']; exact I. Qed.

Lemma hoare_try_except {A} P (body : M A) handler Q E E1 :
  hoare P body Q E1 ->
  (forall e, is_Exception e = true -> hoare (E1 e) (handler e) Q E) ->
  (forall e w, is_Exception e = false -> E1 e w -> E e w) ->
  hoare P (try_except body handler) Q E.
Proof.
  intros Hb Hh He w Hw. unfold try_except. specialize (Hb w Hw).
  destruct (body w) as [[a|e] w']; [exact Hb|].
  destruct (is_Exception e) eqn:Ee; [now apply Hh | now apply He].
Qed.

Lemma hoare_try_except_all {A} P (body handler : M A) Q E E1 :
  hoare P body Q E1 ->
  hoare (fun w => exists e, E1 e w) handler Q E ->
  hoare P (try_except_all body handler) Q E.
Proof.
  intros Hb Hh w Hw. unfold try_except_all. specialize (Hb w Hw).
  destruct (body w) as [[a|e] w']; [exact Hb|]. apply Hh. eauto.
Qed.

Lemma hoare_try_finally {A} P (body : M A) fin Q E Q1 E1 :
  hoare P body Q1 E1 ->
  (forall a, hoare (Q1 a) fin (fun _ => Q a) E) ->
  (forall e, hoare (E1 e) fin (fun _ => E e) E) ->
  hoare P (try_finally body fin) Q E.
Proof.
  intros Hb Hq He w Hw. unfold try_finally. specialize (Hb w Hw).
  destruct (body w) as [[a|e] w'].
  - specialize (Hq a w' Hb). destruct (fin w') as [[[]|e'] w'']; exact Hq.
  - specialize (He e w' Hb). destruct (fin w') as [[[]|e'] w'']; exact He.
Qed.

(** A [for] loop with invariant [I]; [Qb] holds where it is left by
    [break]. *)
Lemma hoare_for_each {A S} (body : A -> S -> M (ctl S))
    (I : list A -> S -> State -> Prop) (Qb : S -> State -> Prop) E l :
  (forall x r s,
     hoare (I (x :: r) s) (body x s)
       (fun c w => match c with
                   | Break s' => Qb s' w
                   | Next s' => I r s' w
                   end) E) ->
  forall s,
    hoare (I l s) (for_each body l s)
      (fun p w => match snd p with
                  | Broke => Qb (fst p) w
                  | Exhausted => I [] (fst p) w
                  end) E.
Proof.
  intros Hbody. induction l as [|x r IH]; intros s.
  - apply hoare_ret. auto.
  - simpl. eapply hoare_bind; [apply Hbody|].
    intros [s'|s']; [apply hoare_ret; auto | apply IH].
Qed.

Lemma hoare_emit P l (Q : unit -> State -> Prop) E :
  (forall w, P w -> Q tt (with_stdout (stdout w ++ [l]) w)) ->
  hoare P (emit l) Q E.
Proof. intros H w Hw. simpl. auto. Qed.

Lemma hoare_set_session P s (Q : unit -> State -> Prop) E :
  (forall w, P w -> Q tt (with_session s w)) ->
  hoare P (set_session s) Q E.
Proof. intros H w Hw. simpl. auto. Qed.

Lemma hoare_bind_local P n (Q : unit -> State -> Prop) E :
  (forall w, P w -> Q tt (with_locals ({[n]} ∪ locals w) w)) ->
  hoare P (bind_local n) Q E.
Proof. intros H w Hw. simpl. auto. Qed.

Lemma hoare_bind_global P n (Q : unit -> State -> Prop) E :
  (forall w, P w -> Q tt (with_globals ({[n]} ∪ globals w) w)) ->
  hoare P (bind_global n) Q E.
Proof. intros H w Hw. simpl. auto. Qed.

Lemma hoare_load_global P n (Q : unit -> State -> Prop)
    (E : exn -> State -> Prop) :
  (forall w, P w -> n ∈ globals w -> Q tt w) ->
  (forall w, P w -> n ∉ globals w -> E (NameError n) w) ->
  hoare P (load_global n) Q E.
Proof.
  intros HQ HE w Hw. unfold load_global.
  destruct (bool_decide (n ∈ globals w)) eqn:D.
  - apply bool_decide_eq_true in D. auto.
  - apply bool_decide_eq_false in D. auto.
Qed.

Lemma hoare_load_local P n (Q : unit -> State -> Prop)
    (E : exn -> State -> Prop) :
  (forall w, P w -> n ∈ locals w -> Q tt w) ->
  (forall w, P w -> n ∉ locals w -> E (UnboundLocalError n) w) ->
  hoare P (load_local n) Q E.
Proof.
  intros HQ HE w Hw. unfold load_local.
  destruct (bool_decide (n ∈ locals w)) eqn:D.
  - apply bool_decide_eq_true in D. auto.
  - apply bool_decide_eq_false in D. auto.
Qed.

Lemma hoare_div P a b (Q : num -> State -> Prop) (E : exn -> State -> Prop) :
  (b <> 0%Z -> forall q, true_div a b = Some q -> forall w, P w -> Q q w) ->
  (b = 0%Z -> forall w, P w -> E ZeroDivisionError w) ->
  (b <> 0%Z -> true_div a b = None -> forall w, P w -> E OverflowError w) ->
  hoare P (div a b) Q E.
Proof.
  intros HQ HE HO w Hw. unfold div. destruct (Z.eqb_spec b 0).
  - simpl. auto.
  - unfold lift. destruct (true_div a b) as [q|] eqn:Eq; simpl; eauto.
Qed.

(** A quotient of magnitude at most 1. *)
Lemma hoare_div_eq P a b (E : exn -> State -> Prop) :
  b <> 0%Z -> (Z.abs a <= Z.abs b)%Z ->
  hoare P (div a b) (fun q w => q = quotient a b /\ P w) E.
Proof.
  intros Hb Hab. pose proof (true_div_small a b Hab Hb) as Hq.
  apply hoare_div.
  - intros _ q Hq' w Hw. split; [congruence | exact Hw].
  - contradiction.
  - intros _ Hn. congruence.
Qed.

(** A fact that does not depend on the state can be taken out of the
    precondition. *)
Lemma hoare_pure {A} (F : Prop) P (c : M A) Q E :
  (F -> hoare P c Q E) -> hoare (fun w => F /\ P w) c Q E.
Proof. intros H w [HF Hw]. now apply H. Qed.

Lemma hoare_ext {A} env (get : Env -> nat -> A) P
    (Q : A -> State -> Prop) (E : exn -> State -> Prop) :
  (forall w, P w -> raises env (tick w) = None ->
     Q (get env (tick w)) (with_tick (S (tick w)) w)) ->
  (forall w e, P w -> raises env (tick w) = Some e ->
     E e (with_tick (S (tick w)) w)) ->
  hoare P (ext env get) Q E.
Proof.
  intros HQ HE w Hw. unfold ext.
  destruct (raises env (tick w)) as [e|] eqn:R; auto.
Qed.

(** *** [appends] *)

Lemma appends_weaken {A} (ok ok' : Line -> bool) (E E' : exn -> Prop)
    (c : M A) :
  appends ok E c ->
  (forall l, ok l = true -> ok' l = true) ->
  (forall e, E e -> E' e) ->
  appends ok' E' c.
Proof.
  intros H Hok HE w. destruct (H w) as [(n & ls & Hw & Hls) He].
  split; [|auto]. exists n, ls. split; [exact Hw|].
  rewrite forallb_forall in *. auto.
Qed.

Lemma appends_ret {A} ok E (a : A) : appends ok E (ret a).
Proof.
  intros w. split; [|discriminate].
  exists (tick w), []. simpl. now rewrite state_eta.
Qed.

Lemma appends_raise {A} ok (E : exn -> Prop) e :
  E e -> appends ok E (@raise A e).
Proof.
  intros He w. split; [|intros e' [= <-]; exact He].
  exists (tick w), []. simpl. now rewrite state_eta.
Qed.

Lemma appends_bind {A B} ok E (c : M A) (k : A -> M B) :
  appends ok E c -> (forall a, appends ok E (k a)) ->
  appends ok E (bind c k).
Proof.
  intros Hc Hk w. destruct (Hc w) as [(n1 & l1 & Hw1 & Hl1) He1].
  unfold bind. destruct (c w) as [[a|e] w1]; simpl in *.
  - destruct (Hk a w1) as [(n2 & l2 & Hw2 & Hl2) He2].
    split; [|exact He2]. exists n2, (l1 ++ l2)%list.
    rewrite Hw2, Hw1, state_compose. split; [reflexivity|].
    rewrite forallb_app. now rewrite Hl1, Hl2.
  - split; [eauto|]. intros e' [= <-]. now apply He1.
Qed.

Lemma appends_try_except {A} ok (E E1 : exn -> Prop) (body : M A) handler :
  appends ok E1 body ->
  (forall e, appends ok E (handler e)) ->
  (forall e, E1 e -> is_Exception e = false -> E e) ->
  appends ok E (try_except body handler).
Proof.
  intros Hb Hh HE w. destruct (Hb w) as [(n1 & l1 & Hw1 & Hl1) He1].
  unfold try_except. destruct (body w) as [[a|e] w1]; simpl in *.
  - split; [eauto | discriminate].
  - destruct (is_Exception e) eqn:Ee.
    + destruct (Hh e w1) as [(n2 & l2 & Hw2 & Hl2) He2].
      split; [|exact He2]. exists n2, (l1 ++ l2)%list.
      rewrite Hw2, Hw1, state_compose. split; [reflexivity|].
      rewrite forallb_app. now rewrite Hl1, Hl2.
    + split; [eauto|]. intros e' [= <-]. apply HE; auto.
Qed.

Lemma appends_try_except_all {A} ok (E E1 : exn -> Prop) (body handler : M A) :
  appends ok E1 body -> appends ok E handler ->
  appends ok E (try_except_all body handler).
Proof.
  intros Hb Hh w. destruct (Hb w) as [(n1 & l1 & Hw1 & Hl1) He1].
  unfold try_except_all. destruct (body w) as [[a|e] w1]; simpl in *.
  - split; [eauto | discriminate].
  - destruct (Hh w1) as [(n2 & l2 & Hw2 & Hl2) He2].
    split; [|exact He2]. exists n2, (l1 ++ l2)%list.
    rewrite Hw2, Hw1, state_compose. split; [reflexivity|].
    rewrite forallb_app. now rewrite Hl1, Hl2.
Qed.

Lemma appends_try_except_timeout {A} ok (E : exn -> Prop) (body handler : M A) :
  appends ok E body -> appends ok E handler ->
  appends ok E (try_except_timeout body handler).
Proof.
  intros Hb Hh w. destruct (Hb w) as [(n1 & l1 & Hw1 & Hl1) He1].
  unfold try_except_timeout.
  destruct (body w) as [[a|e] w1] eqn:Eb; simpl in *.
  - split; [eauto | discriminate].
  - assert (Hdef : (exists n ls,
               w1 = with_tick n (with_stdout (stdout w ++ ls) w) /\
               forallb ok ls = true) /\
             (forall e', @Raise A e = Raise e' -> E e')).
    { split; [eauto|]. intros e' [= <-]. now apply He1. }
    destruct e; try exact Hdef.
    destruct (Hh w1) as [(n2 & l2 & Hw2 & Hl2) He2].
    split; [|exact He2]. exists n2, (l1 ++ l2)%list.
    rewrite Hw2, Hw1, state_compose. split; [reflexivity|].
    rewrite forallb_app. now rewrite Hl1, Hl2.
Qed.

Lemma appends_emit ok E l : ok l = true -> appends ok E (emit l).
Proof.
  intros Hl w. split; [|discriminate]. exists (tick w), [l]. simpl.
  split; [|now rewrite Hl]. destruct w; reflexivity.
Qed.

Lemma appends_ext {A} env ok (E : exn -> Prop) (get : Env -> nat -> A) :
  (forall e, from_env env e -> E e) -> appends ok E (ext env get).
Proof.
  intros HE w. unfold ext.
  destruct (raises env (tick w)) as [e|] eqn:R; simpl.
  - split.
    + exists (S (tick w)), []. split; [|reflexivity].
      destruct w; unfold with_tick, with_stdout; simpl.
      now rewrite app_nil_r.
    + intros e' [= <-]. apply HE. now exists (tick w).
  - split; [|discriminate].
    exists (S (tick w)), []. split; [|reflexivity].
    destruct w; unfold with_tick, with_stdout; simpl.
    now rewrite app_nil_r.
Qed.

Lemma appends_for_each {A S} ok E (body : A -> S -> M (ctl S)) l :
  (forall x s, appends ok E (body x s)) ->
  forall s, appends ok E (for_each body l s).
Proof.
  intros Hb. induction l as [|x r IH]; intros s; simpl.
  - apply appends_ret.
  - apply appends_bind; [apply Hb|].
    intros [s'|s']; [apply appends_ret | apply IH].
Qed.

Lemma appends_ext_times env ok (E : exn -> Prop) n :
  (forall e, from_env env e -> E e) -> appends ok E (ext_times env n).
Proof.
  intros HE. induction n as [|n IH]; simpl.
  - apply appends_ret.
  - apply appends_bind; [now apply appends_ext | intros _; exact IH].
Qed.

(** What holds before a computation that only appends holds after it. *)
Lemma hoare_appends {A} ok (E : exn -> Prop) (c : M A) P :
  appends ok E c -> stable ok P ->
  hoare P c (fun _ => P) (fun e w => P w /\ E e).
Proof.
  intros Hc Hs w Hw. destruct (Hc w) as [(n & ls & Hw' & Hls) He].
  destruct (c w) as [[a|e] w']; simpl in *; subst w'.
  - now apply Hs.
  - split; [now apply Hs | now apply He].
Qed.

End RunRules.

(** ** The reply loop of instagram_scraper.py (C1, C2) *)

Ltac unfold_ext :=
  unfold Run.ext_unit, Run.ext_text, Run.ext_attr, Run.ext_flag,
    Run.ext_count, Run.ext_number, Run.print.

(** Goals [appends ok E c] for code without loops. *)
Ltac appends_auto :=
  unfold_ext;
  repeat first
    [ apply appends_ret
    | apply appends_ext; solve [auto | intros ? H; exact H]
    | apply appends_ext_times; solve [auto | intros ? H; exact H]
    | apply appends_emit; reflexivity
    | apply appends_bind; [|intros ?]
    | eapply (appends_try_except_all _ _ (Run.from_env _))
    | eapply (appends_try_except _ _ (Run.from_env _));
      [ | intros ? | solve [auto | intros ? H ?; exact H] ]
    | apply appends_try_except_timeout
    | match goal with
      | |- Run.appends _ _ (if ?b then _ else _) => destruct b
      | |- Run.appends _ _ (match ?x with _ => _ end) => destruct x
      end
    | assumption ].

Section InstagramLoop.
Import Py Run Instagram.
Context (env : Env) (reply_limit : Z).

Lemma has_json_stable ok : stable ok has_json.
Proof. intros w n ls _ H. exact H. Qed.

Lemma generate_reply_appends author comment :
  appends (fun _ => false) (fun _ => False)
    (generate_reply env author comment).
Proof.
  unfold generate_reply.
  eapply appends_try_except_all with (E1 := from_env env); appends_auto.
Qed.

Lemma post_ig_reply_appends author reply :
  appends (fun l => negb (is_progress l))
    (fun e => from_env env e /\ is_Exception e = false)
    (post_ig_reply env author reply).
Proof.
  unfold post_ig_reply.
  eapply appends_try_except with (E1 := from_env env);
    [appends_auto | intros e; appends_auto | auto].
Qed.

(** A post fails only when some call of the environment raises. *)
Lemma post_ig_reply_spec author reply :
  hoare has_json (post_ig_reply env author reply)
    (fun posted w => has_json w /\ (posted = false -> ~ quiet env))
    (fun e w => from_env env e).
Proof.
  unfold post_ig_reply.
  eapply hoare_try_except
    with (E1 := fun e w => has_json w /\ from_env env e).
  - eapply hoare_bind with (R := fun _ => has_json).
    + eapply hoare_conseq.
      * eapply (hoare_appends (fun _ => true) (from_env env)).
        -- unfold_ext. apply appends_ext. auto.
        -- apply has_json_stable.
      * auto.
      * auto.
      * auto.
    + intros ?. repeat (eapply hoare_bind with (R := fun _ => has_json);
        [ eapply hoare_conseq;
          [ eapply (hoare_appends (fun _ => true) (from_env env));
            [ solve [appends_auto] | apply has_json_stable ]
          | auto | auto | auto ]
        | intros ? ]).
      apply hoare_ret. intros w Hw. split; [exact Hw | discriminate].
  - intros e He. eapply hoare_bind with (R := fun _ w => has_json w /\ from_env env e).
    + unfold print. apply hoare_emit. intros w [Hw Hf]. split; assumption.
    + intros ?. apply hoare_ret. intros w [Hw [n Hn]]. split; [exact Hw|].
      intros _ Hq. rewrite (Hq n) in Hn. discriminate.
  - intros e w _ [_ Hf]. exact Hf.
Qed.

(** One pass of the loop body, by cases. *)
Lemma reply_body_spec n_comments c s :
  (0 <= reply_count s)%Z ->
  hoare has_json (reply_body env reply_limit n_comments c s)
    (fun r w =>
       has_json w /\
       match r with
       | Break s' => s' = s /\ (reply_limit <= reply_count s)%Z
       | Next s' =>
           (reply_count s < reply_limit)%Z /\
           ((s' = s /\ (author c ∈ replied_users s)) \/
            ((author c ∉ replied_users s) /\
             exists reply posted,
               replies_data s'
               = (replies_data s ++ [{| username := author c;
                                        reply_text := reply;
                                        success := posted |}])%list /\
               reply_count s'
               = (if posted then reply_count s + 1 else reply_count s)%Z /\
               replied_users s'
               = (if posted then {[author c]} ∪ replied_users s
                  else replied_users s) /\
               (posted = false -> ~ quiet env)))
       end)
    (fun e w => from_env env e).
Proof.
  intros Hc. unfold reply_body.
  destruct (Z.geb_spec (reply_count s) reply_limit) as [Hge|Hlt].
  { apply hoare_ret. intros w Hw. split; [exact Hw|]. split; [reflexivity | lia]. }
  destruct (bool_decide (author c ∈ replied_users s)) eqn:Hin.
  { apply bool_decide_eq_true in Hin. apply hoare_ret. intros w Hw.
    split; [exact Hw|]. split; [lia|]. left. auto. }
  apply bool_decide_eq_false in Hin.
  assert (Hframe : forall A (m : M A) ok E,
            appends ok E m -> (forall e, E e -> from_env env e) ->
            hoare has_json m (fun _ => has_json) (fun e _ => from_env env e)).
  { intros A m ok E Hm HE. eapply hoare_conseq.
    - eapply hoare_appends; [exact Hm | apply (has_json_stable ok)].
    - auto.
    - auto.
    - intros e w [_ He]. auto. }
  eapply hoare_bind.
  { apply (Hframe _ _ (fun _ => true) (from_env env)); [appends_auto | auto]. }
  intros ?. eapply hoare_bind.
  { apply (Hframe _ _ (fun _ => true) (from_env env)); [appends_auto | auto]. }
  intros ?. eapply hoare_bind.
  { eapply Hframe; [apply generate_reply_appends | intros e []]. }
  intros reply. eapply hoare_bind.
  { apply (Hframe _ _ (fun _ => true) (from_env env)); [appends_auto | auto]. }
  intros ?. eapply hoare_bind.
  { apply (Hframe _ _ (fun _ => true) (from_env env)); [appends_auto | auto]. }
  intros ?. eapply hoare_bind.
  { apply post_ig_reply_spec. }
  intros [|].
  - eapply hoare_conseq with (P := has_json);
      [| intros w [Hw _]; exact Hw | intros r w H; exact H
       | intros e w H; exact H].
    eapply hoare_bind.
    { apply hoare_div with (Q := fun _ => has_json).
      - auto.
      - simpl. intros Hz. lia.
      - intros _ Hn. rewrite true_div_small in Hn by (cbn [reply_count]; lia).
        discriminate. }
    intros q. eapply hoare_bind.
    { unfold log_progress. eapply hoare_bind.
      - apply hoare_load_global with (Q := fun _ => has_json).
        + auto.
        + intros w Hw Hn. contradiction.
      - intros ?. apply hoare_emit with (Q := fun _ => has_json). auto. }
    intros ?. apply hoare_ret. intros w Hw. split; [exact Hw|].
    split; [lia|]. right. split; [exact Hin|].
    exists reply, true. simpl. repeat split. discriminate.
  - apply hoare_ret. intros w [Hw Hq]. split; [exact Hw|].
    split; [lia|]. right. split; [exact Hin|].
    exists reply, false. simpl. repeat split. exact Hq.
Qed.

Lemma sched_inv_start : sched_inv env reply_limit sched0.
Proof.
  unfold sched_inv, replied_names, sched0, len; simpl.
  repeat split; try lia; try constructor.
Qed.

Lemma sched_inv_step s s' user reply posted :
  sched_inv env reply_limit s ->
  (reply_count s < reply_limit)%Z ->
  user ∉ replied_users s ->
  replies_data s'
  = (replies_data s ++ [{| username := user; reply_text := reply;
                           success := posted |}])%list ->
  reply_count s' = (if posted then reply_count s + 1 else reply_count s)%Z ->
  replied_users s'
  = (if posted then {[user]} ∪ replied_users s else replied_users s) ->
  (posted = false -> ~ quiet env) ->
  sched_inv env reply_limit s'.
Proof.
  intros (Hnd & Hsub & Hcnt & H0 & Hle & Hq) Hlt Hnin Hr Hc Hu Hp.
  unfold sched_inv, replied_names in *. rewrite Hr, Hc, Hu.
  rewrite List.filter_app, map_app. simpl. destruct posted; simpl.
  - repeat split.
    + apply NoDup_app. split; [exact Hnd|]. split.
      * intros x Hx [->|[]]%list_elem_of_In. apply Hnin, Hsub.
        now apply list_elem_of_In.
      * apply NoDup_singleton.
    + intros v [Hi|[Hv|[]]]%in_app_iff;
        [ apply elem_of_union_r; auto
        | rewrite <- Hv; apply elem_of_union_l, elem_of_singleton;
          reflexivity ].
    + unfold len in *. rewrite length_app. simpl. lia.
    + lia.
    + lia.
    + intros Q. apply Forall_app. split; [auto|]. constructor; [reflexivity|].
      constructor.
  - rewrite !app_nil_r. repeat split; auto.
    intros Q. exfalso. now apply Hp.
Qed.

(** The loop as a whole. *)
Lemma reply_loop_spec all_comments :
  hoare has_json (reply_loop env reply_limit all_comments)
    (fun p w =>
       has_json w /\ sched_inv env reply_limit (fst p) /\
       (snd p = Broke -> (reply_limit <= reply_count (fst p))%Z))
    (fun e w => from_env env e).
Proof.
  unfold reply_loop.
  eapply hoare_conseq.
  - apply (hoare_for_each (reply_body env reply_limit (len all_comments))
             (fun _ s w => has_json w /\ sched_inv env reply_limit s)
             (fun s w => has_json w /\ sched_inv env reply_limit s
                         /\ (reply_limit <= reply_count s)%Z)
             (fun e _ => from_env env e)).
    intros x r s w [Hw Hinv].
    pose proof Hinv as (_ & _ & _ & H0 & _ & _).
    pose proof (reply_body_spec (len all_comments) x s H0 w Hw) as H.
    destruct (reply_body env reply_limit (len all_comments) x s w)
      as [[[s'|s']|e] w']; [| |exact H].
    + destruct H as (Hw' & -> & Hge). auto.
    + destruct H as (Hw' & Hlt
                     & [[-> _]|(Hnin & reply & posted & Hr & Hc & Hu & Hp)]);
        [auto|]. split; [exact Hw'|]. eapply sched_inv_step; eauto.
  - intros w Hw. split; [exact Hw | apply sched_inv_start].
  - intros [s ex] w. simpl. destruct ex.
    + intros [Hj Hi]. split; [exact Hj|]. split; [exact Hi|]. discriminate.
    + intros (? & ? & ?). auto.
  - auto.
Qed.

End InstagramLoop.

(** ** The reply loop of linkedin_scraper.py *)

Section LinkedInLoop.
Import Py Run LinkedIn.
Context (env : Env) (reply_limit : Z).

Lemma li_generate_reply_appends username comment :
  appends (fun _ => false) (fun _ => False)
    (generate_reply env username comment).
Proof.
  unfold generate_reply.
  eapply appends_try_except_all with (E1 := from_env env); appends_auto.
Qed.

Lemma post_linkedin_reply_appends block reply :
  appends (fun l => negb (is_progress l)) (from_env env)
    (post_linkedin_reply env block reply).
Proof.
  unfold post_linkedin_reply.
  eapply appends_try_except with (E1 := from_env env);
    [appends_auto | intros e; appends_auto | auto].
Qed.

Lemma li_reply_body_spec row s :
  count_inv reply_limit s ->
  hoare (fun _ => True) (reply_body env reply_limit row s)
    (fun r _ => exists s', r = Next s' /\ count_inv reply_limit s')
    (fun e _ => from_env env e).
Proof.
  intros (Hc & H0 & Hle). unfold reply_body.
  destruct (Z.ltb_spec (reply_count s) reply_limit) as [Hlt|Hge].
  2:{ apply hoare_ret. intros w _. exists s. repeat split; auto. }
  eapply hoare_bind with (R := fun _ _ => True).
  { eapply hoare_conseq.
    - eapply (hoare_appends _ _ _ (fun _ => True)).
      + apply li_generate_reply_appends.
      + intros w n ls _ _. exact I.
    - auto.
    - auto.
    - intros e w [_ []]. }
  intros reply. eapply hoare_bind with (R := fun _ _ => True).
  { eapply hoare_conseq.
    - eapply (hoare_appends _ _ _ (fun _ => True)).
      + apply post_linkedin_reply_appends.
      + intros w n ls _ _. exact I.
    - auto.
    - auto.
    - intros e w [_ He]. exact He. }
  intros [|]; apply hoare_ret; intros w _; eexists; (split; [reflexivity|]);
    unfold count_inv, len in *; simpl; rewrite List.filter_app, length_app;
    simpl; repeat split; lia.
Qed.

Lemma li_reply_loop_spec parsed s :
  count_inv reply_limit s ->
  hoare (fun _ => True) (reply_loop env reply_limit parsed s)
    (fun p _ => count_inv reply_limit (fst p) /\ snd p = Exhausted)
    (fun e _ => from_env env e).
Proof.
  intros Hs. unfold reply_loop. eapply hoare_conseq.
  - apply (hoare_for_each (reply_body env reply_limit)
             (fun _ s _ => count_inv reply_limit s) (fun _ _ => False)
             (fun e _ => from_env env e)).
    intros x r s0 w Hinv.
    pose proof (li_reply_body_spec x s0 Hinv w I) as H.
    destruct (reply_body env reply_limit x s0 w) as [[[s'|s']|e] w'];
      [| |exact H].
    + destruct H as (s'' & [=] & _).
    + destruct H as (s'' & [= <-] & H). exact H.
  - intros w _. exact Hs.
  - intros [s' ex] w. simpl. destruct ex; [auto | intros []].
  - auto.
Qed.

End LinkedInLoop.

(** C2. In the Instagram reply loop with a limit that is not negative, the
    successful entries of [replies_data] are as many as [reply_count],
    which never exceeds the limit; the loop is left by [break] only with
    the count at the limit, and otherwise when the comments are exhausted;
    a pass with the count at the limit breaks at once and one below the
    limit never breaks; the loop raises only what the environment raises.
    The LinkedIn loop, run for each post on the counters left by the post
    before, keeps the same bound; it has no [break] and always runs to
    the end of the candidates: a pass with the count at the limit makes no
    attempt and changes nothing. *)
Theorem reply_loop_respects_limit :
  forall (env : Run.Env) (reply_limit : Z),
    (0 <= reply_limit)%Z ->
    (forall all_comments w,
       "json" ∈ Run.globals w ->
       match Instagram.reply_loop env reply_limit all_comments w with
       | (Run.Ok (s, ex), _) =>
           Run.len (List.filter Run.success (Run.replies_data s))
           = Run.reply_count s /\
           (Run.reply_count s <= reply_limit)%Z /\
           (ex = Run.Broke -> Run.reply_count s = reply_limit)
       | (Run.Raise e, _) => Run.from_env env e
       end) /\
    (forall n c s w,
       (reply_limit <= Run.reply_count s)%Z ->
       Instagram.reply_body env reply_limit n c s w
       = (Run.Ok (Run.Break s), w)) /\
    (forall n c s w s',
       (Run.reply_count s < reply_limit)%Z ->
       fst (Instagram.reply_body env reply_limit n c s w)
       <> Run.Ok (Run.Break s')) /\
    (forall parsed s0 w,
       LinkedIn.count_inv reply_limit s0 ->
       match LinkedIn.reply_loop env reply_limit parsed s0 w with
       | (Run.Ok (s, ex), _) =>
           LinkedIn.count_inv reply_limit s /\
           Run.len (List.filter Run.success (Run.replies_data s))
           = Run.reply_count s /\
           (Run.reply_count s <= reply_limit)%Z /\
           ex = Run.Exhausted
       | (Run.Raise e, _) => Run.from_env env e
       end) /\
    (forall row s w,
       (reply_limit <= Run.reply_count s)%Z ->
       LinkedIn.reply_body env reply_limit row s w
       = (Run.Ok (Run.Next s), w)).
Proof.
  intros env reply_limit Hlim.
  split; [|split; [|split; [|split]]].
  - intros all_comments w Hw.
    pose proof (reply_loop_spec env reply_limit all_comments w Hw) as H.
    destruct (Instagram.reply_loop env reply_limit all_comments w)
      as [[[s ex]|e] w']; [|exact H].
    simpl in H. destruct H as (_ & (_ & _ & Hc & H0 & Hle & _) & Hb).
    repeat split; auto. intros ->. specialize (Hb eq_refl). lia.
  - intros n c s w Hge. unfold Instagram.reply_body.
    destruct (Z.geb_spec (Run.reply_count s) reply_limit); [reflexivity | lia].
  - intros n c s w s' Hlt. unfold Instagram.reply_body.
    destruct (Z.geb_spec (Run.reply_count s) reply_limit); [lia|].
    destruct (bool_decide _); [simpl; discriminate|].
    unfold Run.bind.
    repeat match goal with
           | |- context [match ?c ?w with _ => _ end] =>
               destruct (c w) as [[?|?] ?]; simpl; try discriminate
           | |- context [if ?b then _ else _] =>
               destruct b; simpl; try discriminate
           end.
  - intros parsed s0 w H0.
    pose proof (li_reply_loop_spec env reply_limit parsed s0 H0 w I) as H.
    destruct (LinkedIn.reply_loop env reply_limit parsed s0 w)
      as [[[s ex]|e] w']; [|exact H].
    simpl in H. destruct H as [Hi Hex]. split; [exact Hi|].
    destruct Hi as (Hc & _ & Hle). auto.
  - intros row s w Hge. unfold LinkedIn.reply_body.
    destruct (Z.ltb_spec (Run.reply_count s) reply_limit);
      [lia | reflexivity].
Qed.

Lemma ig_start_has_json :
  "json" ∈ Run.globals (Run.start Instagram.imports).
Proof.
  simpl. unfold Instagram.imports. apply elem_of_list_to_set.
  apply list_elem_of_In. simpl. tauto.
Qed.

Lemma reply_loop_respects_limit_witness :
  exists s ex w',
    Instagram.reply_loop Run.calm_env 2
      [Instagram.sample_comment "A" "x"; Instagram.sample_comment "A" "y";
       Instagram.sample_comment "B" "z"]
      (Run.start Instagram.imports)
    = (Run.Ok (s, ex), w') /\
    Run.len (List.filter Run.success (Run.replies_data s))
    = Run.reply_count s /\
    (Run.reply_count s <= 2)%Z /\
    (ex = Run.Broke -> Run.reply_count s = 2%Z).
Proof.
  pose proof (proj1 (reply_loop_respects_limit Run.calm_env 2 ltac:(lia))
                [Instagram.sample_comment "A" "x";
                 Instagram.sample_comment "A" "y";
                 Instagram.sample_comment "B" "z"]
                (Run.start Instagram.imports) ig_start_has_json) as H.
  destruct (Instagram.reply_loop Run.calm_env 2 _ _) as [[[s ex]|e] w'].
  - exists s, ex, w'. split; [reflexivity | exact H].
  - exfalso. destruct H as [n Hn]. discriminate Hn.
Defined.

(** The claim C2 fails on the LinkedIn loop: with the limit 1 the first
    candidate brings the count to the limit, and the loop goes on over the
    two candidates left, each pass a [Next] that changes nothing, and is
    left only when the list is exhausted. *)
Lemma li_reply_loop_runs_past_limit :
  exists s1 w1,
    LinkedIn.reply_body Run.calm_env 1
      (LinkedIn.sample_comment "A" "first comment")
      Run.sched0 (Run.start LinkedIn.imports)
    = (Run.Ok (Run.Next s1), w1) /\
    Run.reply_count s1 = 1%Z /\
    LinkedIn.reply_body Run.calm_env 1
      (LinkedIn.sample_comment "B" "second comment") s1 w1
    = (Run.Ok (Run.Next s1), w1) /\
    LinkedIn.reply_loop Run.calm_env 1
      [LinkedIn.sample_comment "B" "second comment";
       LinkedIn.sample_comment "C" "third comment"] s1 w1
    = (Run.Ok (s1, Run.Exhausted), w1) /\
    LinkedIn.reply_loop Run.calm_env 1
      [LinkedIn.sample_comment "A" "first comment";
       LinkedIn.sample_comment "B" "second comment";
       LinkedIn.sample_comment "C" "third comment"]
      Run.sched0 (Run.start LinkedIn.imports)
    = (Run.Ok (s1, Run.Exhausted), w1).
Proof.
  eexists _, _. split; [vm_compute; reflexivity|].
  repeat split; vm_compute; reflexivity.
Qed.

(** C1, as the code has it.  In the Instagram reply loop an author is
    recorded only after a successful post: no two successful entries of
    [replies_data] share a user name; when no call of the environment
    raises, every entry is successful, so no two entries share one. *)
Theorem ig_reply_loop_one_success_per_author :
  forall (env : Run.Env) (reply_limit : Z) all_comments w s ex w',
    "json" ∈ Run.globals w ->
    Instagram.reply_loop env reply_limit all_comments w
    = (Run.Ok (s, ex), w') ->
    NoDup (Run.replied_names (Run.replies_data s)) /\
    (Run.quiet env -> NoDup (map Run.username (Run.replies_data s))).
Proof.
  intros env reply_limit all_comments w s ex w' Hw Hrun.
  pose proof (reply_loop_spec env reply_limit all_comments w Hw) as H.
  rewrite Hrun in H. simpl in H.
  destruct H as (_ & (Hnd & _ & _ & _ & _ & Hq) & _).
  split; [exact Hnd|]. intros Q. specialize (Hq Q).
  assert (Hf : List.filter Run.success (Run.replies_data s)
               = Run.replies_data s).
  { clear -Hq. induction (Run.replies_data s) as [|r rs IH];
      [reflexivity|]. inversion Hq as [|? ? Hr Hrs]; subst.
    simpl. rewrite Hr. f_equal. now apply IH. }
  unfold Run.replied_names in Hnd. now rewrite Hf in Hnd.
Qed.

Lemma ig_reply_loop_one_success_per_author_witness :
  exists s ex w',
    Instagram.reply_loop Run.calm_env 2
      [Instagram.sample_comment "A" "x"; Instagram.sample_comment "A" "y";
       Instagram.sample_comment "B" "z"]
      (Run.start Instagram.imports)
    = (Run.Ok (s, ex), w') /\
    map Run.username (Run.replies_data s) = ["A"; "B"] /\
    map Run.reply_text (Run.replies_data s) = ["ok"; "ok"] /\
    NoDup (map Run.username (Run.replies_data s)).
Proof.
  destruct (Instagram.reply_loop Run.calm_env 2
              [Instagram.sample_comment "A" "x";
               Instagram.sample_comment "A" "y";
               Instagram.sample_comment "B" "z"]
              (Run.start Instagram.imports)) as [[[s ex]|e] w'] eqn:E.
  - exists s, ex, w'. split; [reflexivity|].
    pose proof (ig_reply_loop_one_success_per_author _ _ _ _ _ _ _
                  ig_start_has_json E) as [_ Hq].
    vm_compute in E. injection E as <- _ _. 
    split; [reflexivity|]. split; [reflexivity|].
    apply Hq. intros n. reflexivity.
  - vm_compute in E. discriminate E.
Defined.

(** C1 as stated fails: an author whose post failed is attempted again at
    the next comment of that author, so two entries share a user name. *)
Lemma ig_reply_loop_retries_failed_author :
  exists s ex w',
    Instagram.reply_loop
      (Run.failing_at 2 Run.NoSuchElementException Run.calm_env) 2
      [Instagram.sample_comment "A" "x"; Instagram.sample_comment "A" "y";
       Instagram.sample_comment "B" "z"]
      (Run.start Instagram.imports)
    = (Run.Ok (s, ex), w') /\
    map (fun r => (Run.username r, Run.success r)) (Run.replies_data s)
    = [("A", false); ("A", true); ("B", true)] /\
    ~ NoDup (map Run.username (Run.replies_data s)).
Proof.
  eexists _, _, _. split; [vm_compute; reflexivity|].
  split; [reflexivity|]. simpl.
  intros H. apply NoDup_cons in H as [H _]. apply H. left.
Qed.

(** The LinkedIn loop does not look at the author at all. *)
Lemma li_reply_loop_no_dedup :
  exists s ex w',
    LinkedIn.reply_loop Run.calm_env 2
      [LinkedIn.sample_comment "A" "first comment";
       LinkedIn.sample_comment "A" "second comment"]
      Run.sched0 (Run.start LinkedIn.imports)
    = (Run.Ok (s, ex), w') /\
    map (fun r => (Run.username r, Run.success r)) (Run.replies_data s)
    = [("A", true); ("A", true)].
Proof.
  eexists _, _, _. split; [vm_compute; reflexivity | reflexivity].
Qed.

(** ** The reply loop of facebook_scraper.py (C5) *)

Section FacebookLoop.
Import Py Run Facebook.
Context (env : Env) (REPLY_LIMIT : Z).



















End FacebookLoop.




(** ** The progress protocol of instagram_scraper.py (C8) *)

Section ProgressArithmetic.
Import Py.

(** [int((a / b) * k)] is the integer quotient of [a * k] by [b]. *)
Lemma int_scaled a b k :
  (0 <= a)%Z -> (0 < b)%Z -> (0 <= k)%Z ->
  int_of_num (num_mul (quotient a b) (Int k)) = (a * k / b)%Z.
Proof.
  intros Ha Hb Hk. unfold quotient, num_mul, int_of_num, num_val.
  set (r := Qred (Qred (inject_Z a / inject_Z b) * inject_Z k)).
  assert (Hr : r == (a * k) # Z.to_pos b).
  { unfold r. rewrite !Qred_correct. destruct b as [|p|p]; try lia.
    unfold Qeq, Qdiv, Qmult, Qinv, inject_Z. simpl.
    rewrite Pos.mul_1_r, Pos.mul_1_l. lia. }
  assert (Hn : (0 <= Qnum r)%Z).
  { unfold Qeq in Hr. simpl in Hr. nia. }
  rewrite Z.quot_div_nonneg by lia.
  change (Qnum r / Z.pos (Qden r))%Z with (Qfloor (Qnum r # Qden r)).
  replace (Qnum r # Qden r) with r by (destruct r; reflexivity).
  rewrite Hr. simpl. rewrite Z2Pos.id by lia. reflexivity.
Qed.

Lemma scaled_mono a a' b k :
  (0 <= a <= a')%Z -> (0 < b)%Z -> (0 <= k)%Z ->
  (a * k / b <= a' * k / b)%Z.
Proof. intros. apply Z.div_le_mono; nia. Qed.

Lemma scaled_bound a b k :
  (0 <= a <= b)%Z -> (0 < b)%Z -> (0 <= k)%Z -> (a * k / b <= k)%Z.
Proof. intros. apply Z.div_le_upper_bound; nia. Qed.

End ProgressArithmetic.

Section InstagramProgress.
Import Py Run Instagram.
Context (env : Env) (google_pages reply_limit : Z).

Lemma progress_values_app a b :
  progress_values (a ++ b) = (progress_values a ++ progress_values b)%list.
Proof. unfold progress_values. apply flat_map_app. Qed.

Lemma progress_values_other ls :
  forallb not_progress ls = true -> progress_values ls = [].
Proof.
  induction ls as [|l ls IH]; [reflexivity|]. simpl.
  intros [Hl Hls]%andb_true_iff. destruct l; try discriminate; auto.
Qed.

Lemma mono_stable b : stable not_progress (mono b).
Proof.
  intros w n ls Hls (Hj & z0 & zs & Hv & Hs & Hb). split; [exact Hj|].
  exists z0, zs. cbn [stdout with_tick with_stdout].
  rewrite progress_values_app, (progress_values_other _ Hls), app_nil_r.
  auto.
Qed.

Lemma mono_weaken b b' w : (b <= b')%Z -> mono b w -> mono b' w.
Proof.
  intros Hbb (Hj & z0 & zs & Hv & Hs & Hb). split; [exact Hj|].
  exists z0, zs. repeat split; auto.
  eapply Forall_impl; [exact Hb|]. simpl. intros. lia.
Qed.

Lemma sorted_snoc zs v :
  Sorted Z.le zs -> Forall (fun z => (z <= v)%Z) zs ->
  Sorted Z.le (zs ++ [v]).
Proof.
  induction 1 as [|z zs Hs IH Hd]; intros Hf; simpl.
  - repeat constructor.
  - inversion Hf as [|? ? Hz Hzs]; subst. constructor; [auto|].
    destruct zs as [|y ys]; simpl; constructor.
    + exact Hz.
    + inversion Hd; subst. assumption.
Qed.

(** A frame for code that writes no progress line. *)
Lemma mono_in_order b w : mono b w -> in_order w.
Proof.
  intros (Hj & z0 & zs & Hv & Hs & _). split; [exact Hj|].
  exists (z0 :: zs). split; [exact Hv | exact Hs].
Qed.

Lemma fresh_in_order w : fresh w -> in_order w.
Proof.
  intros [Hj Hv]. split; [exact Hj|]. exists []. split; [exact Hv|].
  constructor.
Qed.

Lemma mono_frame {A} b (m : M A) E :
  appends not_progress E m ->
  hoare (mono b) m (fun _ => mono b) halted.
Proof.
  intros Hm. eapply hoare_conseq.
  - eapply hoare_appends; [exact Hm | apply (mono_stable b)].
  - auto.
  - auto.
  - intros e w [Hw _]. exact (mono_in_order b w Hw).
Qed.

(** A progress line with a value at or above the bound. *)
Lemma mono_log b v st tc tr msg :
  (b <= v)%Z ->
  hoare (mono b) (log_progress st (Int v) tc tr msg)
    (fun _ w =>
       "json" ∈ globals w /\
       exists z0 zs,
         progress_values (stdout w) = map Int (z0 :: zs ++ [v]) /\
         Sorted Z.le (zs ++ [v]) /\
         Forall (fun z => (z <= v)%Z) (zs ++ [v]))
    halted.
Proof.
  intros Hbv. unfold log_progress. eapply hoare_bind.
  - apply hoare_load_global with (Q := fun _ => mono b); [auto|].
    intros w [Hj _] Hn. contradiction.
  - intros ?. apply hoare_emit.
    intros w (Hj & z0 & zs & Hv & Hs & Hb). split; [exact Hj|].
    exists z0, zs. cbn [stdout with_stdout].
    rewrite progress_values_app, Hv. simpl.
    assert (Hb' : Forall (fun z => (z <= v)%Z) zs).
    { eapply Forall_impl; [exact Hb|]. simpl. intros. lia. }
    split; [|split].
    + rewrite map_app. reflexivity.
    + now apply sorted_snoc.
    + apply Forall_app. split; [exact Hb'|]. constructor; [lia | constructor].
Qed.

Lemma mono_log' b v st tc tr msg :
  (b <= v)%Z ->
  hoare (mono b) (log_progress st (Int v) tc tr msg)
    (fun _ => mono v) halted.
Proof.
  intros Hbv. eapply hoare_conseq; [apply (mono_log b v); exact Hbv | auto | | auto].
  intros _ w (Hj & z0 & zs & Hv & Hs & Hb). split; [exact Hj|]. eauto.
Qed.

(** The helpers that write no progress line. *)
Lemma ig_collect_hrefs_appends n : forall links,
  appends not_progress (from_env env) (collect_hrefs env n links).
Proof.
  induction n as [|n IH]; intros links; simpl; [apply appends_ret|].
  unfold_ext. apply appends_bind; [apply appends_ext; auto|].
  intros [href|]; [|apply IH].
  destruct (is_empty href); [apply IH|].
  destruct (_ && _); apply IH.
Qed.

Lemma ig_scroll_loop_appends n : forall last stable_count,
  appends not_progress (from_env env) (scroll_loop env n last stable_count).
Proof.
  induction n as [|n IH]; intros last sc; simpl; [apply appends_ret|].
  unfold_ext. apply appends_bind; [apply appends_ext; auto | intros ?].
  apply appends_bind; [apply appends_ext; auto | intros new_scroll].
  destruct (new_scroll =? last)%Z; [|apply IH].
  destruct (sc + 1 >=? 5)%Z; [apply appends_ret | apply IH].
Qed.

Lemma ig_scroll_panel_appends :
  appends not_progress (from_env env) (scroll_comment_panel env).
Proof.
  unfold scroll_comment_panel.
  eapply (appends_try_except _ _ (from_env env));
    [| intros ?; apply appends_emit; reflexivity | auto].
  unfold_ext. apply appends_bind; [apply appends_ext; auto | intros ?].
  apply ig_scroll_loop_appends.
Qed.

Lemma ig_element_texts_appends n :
  appends not_progress (from_env env) (element_texts env n).
Proof.
  induction n as [|n IH]; simpl; [apply appends_ret|].
  unfold_ext. apply appends_bind; [apply appends_ext; auto | intros t].
  destruct (truthy (strip t)); [|exact IH].
  apply appends_bind; [apply appends_ext; auto | intros t'].
  apply appends_bind; [exact IH | intros ?; apply appends_ret].
Qed.

Lemma ig_extract_appends url :
  appends not_progress (from_env env) (extract_ig_comments env url).
Proof.
  unfold extract_ig_comments. unfold_ext.
  apply appends_bind; [apply appends_emit; reflexivity | intros ?].
  apply appends_bind; [apply appends_ext; auto | intros ?].
  apply appends_bind; [apply ig_scroll_panel_appends | intros ?].
  apply appends_bind; [apply appends_ext; auto | intros n].
  apply appends_bind; [apply ig_element_texts_appends | intros ?].
  apply appends_bind; [apply appends_emit; reflexivity | intros ?].
  apply appends_ret.
Qed.

(** The search phase: from a first value to the bound 30. *)
Lemma ig_search_spec :
  hoare (mono 0) (google_search_instagram env google_pages)
    (fun _ => mono 30) halted.
Proof.
  unfold google_search_instagram.
  eapply hoare_bind with (R := fun _ => mono 0).
  { apply (mono_frame 0 _ (from_env env)). appends_auto. }
  intros ?. eapply hoare_bind with (R := fun _ => mono 0).
  { apply (mono_frame 0 _ (from_env env)). appends_auto. }
  intros ?. eapply hoare_bind with (R := fun _ => mono 0).
  { apply (mono_frame 0 _ (from_env env)). appends_auto. }
  intros ?. eapply hoare_bind with (R := fun _ => mono 0).
  { apply (mono_frame 0 _ (from_env env)). appends_auto. }
  intros ?. eapply hoare_bind with (R := fun _ => mono 0).
  { apply (mono_frame 0 _ (from_env env)). appends_auto. }
  intros ?. eapply hoare_bind with (R := fun _ => mono 30).
  { eapply hoare_conseq.
    - apply (hoare_for_each (search_page env google_pages)
               (fun l _ w =>
                  exists k m B,
                    l = map Z.of_nat (seq k m) /\
                    (k + m = Z.to_nat google_pages)%nat /\
                    (B <= 30)%Z /\
                    (B <= Z.of_nat k * 30 / google_pages)%Z /\
                    mono B w)
               (fun _ w => mono 30 w) halted).
      intros x r links w (k & m & B & Hl & Hkm & HB & HBk & Hw).
      destruct m as [|m]; [discriminate|]. simpl in Hl.
      injection Hl as -> ->.
      assert (Hg : (0 < google_pages)%Z) by lia.
      assert (Hk : (Z.of_nat k < google_pages)%Z) by lia.
      revert w Hw. change (hoare (mono B)
        (search_page env google_pages (Z.of_nat k) links)
        (fun c w => match c with
                    | Break _ => mono 30 w
                    | Next _ =>
                        exists k' m' B',
                          map Z.of_nat (seq (S k) m)
                          = map Z.of_nat (seq k' m') /\
                          (k' + m' = Z.to_nat google_pages)%nat /\
                          (B' <= 30)%Z /\
                          (B' <= Z.of_nat k' * 30 / google_pages)%Z /\
                          mono B' w
                    end) halted).
      unfold search_page.
      eapply hoare_bind; [apply hoare_div_eq; lia|].
      intros q. apply hoare_pure. intros ->.
      rewrite (int_scaled (Z.of_nat k) google_pages 30) by lia.
      set (v := (Z.of_nat k * 30 / google_pages)%Z).
      assert (Hv30 : (v <= 30)%Z) by (apply scaled_bound; lia).
      assert (Hvn : (v <= Z.of_nat (S k) * 30 / google_pages)%Z)
        by (apply scaled_mono; lia).
      eapply hoare_bind with (R := fun _ => mono v).
      { apply mono_log'. exact HBk. }
      intros ?. eapply hoare_bind with (R := fun _ => mono v).
      { apply (mono_frame v _ (from_env env)). appends_auto. }
      intros n. eapply hoare_bind with (R := fun _ => mono v).
      { apply (mono_frame v _ (from_env env)), ig_collect_hrefs_appends. }
      intros links'.
      eapply hoare_conseq with (Q := fun _ => mono v).
      + apply (mono_frame v _ (from_env env)). appends_auto.
      + auto.
      + intros [s'|s'] w Hw; [now apply (mono_weaken v)|].
        exists (S k), m, v. split; [reflexivity|]. split; [lia|].
        split; [exact Hv30|]. split; [exact Hvn | exact Hw].
      + auto.
    - intros w Hw. exists O, (Z.to_nat google_pages), 0%Z.
      unfold range. split; [reflexivity|]. split; [lia|]. split; [lia|].
      split; [simpl; rewrite Zdiv_0_l; lia | exact Hw].
    - intros [links ex] w. simpl. destruct ex; [|auto].
      intros (k & m & B & Hl & Hkm & HB & HBk & Hw).
      now apply (mono_weaken B).
    - auto. }
  intros p. eapply hoare_bind with (R := fun _ => mono 30).
  { apply mono_log'. lia. }
  intros ?. apply hoare_ret. auto.
Qed.

(** The extraction phase: up to the bound 70. *)
Lemma enumerate_nil {A} i (r : list A) : enumerate i r = [] -> r = [].
Proof. destruct r; [reflexivity | discriminate]. Qed.

Lemma ig_posts_spec urls :
  (List.length urls <= 3)%nat ->
  hoare (mono 30) (for_each (post_body env) (enumerate 0 urls) [])
    (fun _ => mono 70) halted.
Proof.
  intros Hlen. eapply hoare_conseq.
  - apply (hoare_for_each (post_body env)
             (fun l _ w =>
                exists i r,
                  l = enumerate i r /\ (0 <= i)%Z /\
                  (i + Z.of_nat (List.length r) <= 3)%Z /\
                  mono (30 + i * 40 / 3) w)
             (fun _ _ => False) halted).
    intros x rest all_comments w (i & r & Hl & Hi & Hir & Hw).
    destruct r as [|url r]; [discriminate|]. simpl in Hl.
    injection Hl as -> ->. simpl in Hir.
    revert w Hw. change (hoare (mono (30 + i * 40 / 3))
      (post_body env (i, url) all_comments)
      (fun c w => match c with
                  | Break _ => False
                  | Next _ =>
                      exists i' r',
                        enumerate (i + 1) r = enumerate i' r' /\
                        (0 <= i')%Z /\
                        (i' + Z.of_nat (List.length r') <= 3)%Z /\
                        mono (30 + i' * 40 / 3) w
                  end) halted).
    unfold post_body. cbn [fst snd].
    eapply hoare_bind; [apply hoare_div_eq; lia|].
    intros q. apply hoare_pure. intros ->.
    rewrite (int_scaled i 3 40) by lia.
    eapply hoare_bind with (R := fun _ => mono (30 + i * 40 / 3)).
    { apply mono_log'. lia. }
    intros ?. eapply hoare_bind with (R := fun _ => mono (30 + i * 40 / 3)).
    { apply (mono_frame _ _ (from_env env)), ig_extract_appends. }
    intros comments. apply hoare_ret. intros w Hw.
    exists (i + 1)%Z, r. split; [reflexivity|]. split; [lia|]. split; [lia|].
    apply (mono_weaken (30 + i * 40 / 3)); [|exact Hw].
    pose proof (scaled_mono i (i + 1) 3 40). lia.
  - intros w Hw. exists 0%Z, urls. split; [reflexivity|]. split; [lia|].
    split; [lia | exact Hw].
  - intros [s ex] w. simpl. destruct ex; [|intros []].
    intros (i & r & Hl & Hi & Hir & Hw). symmetry in Hl.
    apply enumerate_nil in Hl. subst r. simpl in Hir.
    apply (mono_weaken (30 + i * 40 / 3)); [|exact Hw].
    pose proof (scaled_bound i 3 40). lia.
  - auto.
Qed.

(** The reply phase: up to the bound 100. *)
Lemma ig_reply_loop_mono all_comments :
  hoare (mono 70) (reply_loop env reply_limit all_comments)
    (fun _ => mono 100) halted.
Proof.
  unfold reply_loop. eapply hoare_conseq.
  - apply (hoare_for_each (reply_body env reply_limit (len all_comments))
             (fun _ s w =>
                (0 <= reply_count s)%Z /\
                (reply_count s = 0 \/
                 (reply_count s <= reply_limit /\ 0 < reply_limit))%Z /\
                mono (70 + reply_count s * 30 / reply_limit) w)
             (fun s w =>
                (reply_count s = 0 \/
                 (reply_count s <= reply_limit /\ 0 < reply_limit))%Z /\
                mono (70 + reply_count s * 30 / reply_limit) w)
             halted).
    intros c rest s w (H0 & Hc & Hw). revert w Hw.
    set (b := (70 + reply_count s * 30 / reply_limit)%Z).
    change (hoare (mono b) (reply_body env reply_limit (len all_comments) c s)
      (fun r w =>
         match r with
         | Break s' =>
             (reply_count s' = 0 \/
              (reply_count s' <= reply_limit /\ 0 < reply_limit))%Z /\
             mono (70 + reply_count s' * 30 / reply_limit) w
         | Next s' =>
             (0 <= reply_count s')%Z /\
             (reply_count s' = 0 \/
              (reply_count s' <= reply_limit /\ 0 < reply_limit))%Z /\
             mono (70 + reply_count s' * 30 / reply_limit) w
         end) halted).
    unfold reply_body.
    destruct (Z.geb_spec (reply_count s) reply_limit) as [Hge|Hlt].
    { apply hoare_ret. auto. }
    destruct (bool_decide _).
    { apply hoare_ret. auto. }
    eapply hoare_bind with (R := fun _ => mono b).
    { apply (mono_frame _ _ (from_env env)). appends_auto. }
    intros ?. eapply hoare_bind with (R := fun _ => mono b).
    { apply (mono_frame _ _ (from_env env)). appends_auto. }
    intros ?. eapply hoare_bind with (R := fun _ => mono b).
    { apply (mono_frame _ _ (fun _ => False)).
      eapply appends_weaken; [apply generate_reply_appends | | auto].
      discriminate. }
    intros reply. eapply hoare_bind with (R := fun _ => mono b).
    { apply (mono_frame _ _ (from_env env)). appends_auto. }
    intros ?. eapply hoare_bind with (R := fun _ => mono b).
    { apply (mono_frame _ _ (from_env env)). appends_auto. }
    intros ?. eapply hoare_bind with (R := fun _ => mono b).
    { eapply mono_frame. apply post_ig_reply_appends. }
    intros [|]; cbn [reply_count].
    + eapply hoare_bind; [apply hoare_div_eq; lia|].
      intros q. apply hoare_pure. intros ->.
      rewrite (int_scaled (reply_count s + 1) reply_limit 30) by lia.
      eapply hoare_bind
        with (R := fun _ => mono (70 + (reply_count s + 1) * 30 / reply_limit)).
      { apply mono_log'. unfold b.
        pose proof (scaled_mono (reply_count s) (reply_count s + 1)
                      reply_limit 30). lia. }
      intros ?. apply hoare_ret. intros w Hw. cbn [reply_count].
      split; [lia|]. split; [right; lia | exact Hw].
    + apply hoare_ret. intros w Hw. cbn [reply_count]. auto.
  - intros w Hw. simpl. rewrite Zdiv_0_l. split; [lia|]. split; [left; lia|].
    exact Hw.
  - intros [s ex] w. simpl.
    assert (Hb : forall s0,
              (reply_count s0 = 0 \/
               (reply_count s0 <= reply_limit /\ 0 < reply_limit))%Z ->
              (70 + reply_count s0 * 30 / reply_limit <= 100)%Z).
    { intros s0 [->|[Hle Hpos]]; [rewrite Zdiv_0_l; lia|].
      destruct (Z.le_gt_cases 0 (reply_count s0)).
      - pose proof (scaled_bound (reply_count s0) reply_limit 30). lia.
      - assert (reply_count s0 * 30 / reply_limit <= 0)%Z; [|lia].
        apply Z.div_le_upper_bound; lia. }
    destruct ex.
    + intros (_ & Hc & Hw). eapply mono_weaken; [apply (Hb s Hc) | exact Hw].
    + intros (Hc & Hw). eapply mono_weaken; [apply (Hb s Hc) | exact Hw].
  - auto.
Qed.

Lemma fresh_frame {A} (m : M A) E :
  appends not_progress E m ->
  hoare fresh m (fun _ => fresh) halted.
Proof.
  intros Hm. eapply hoare_conseq.
  - eapply (hoare_appends _ _ _ fresh); [exact Hm|].
    intros w n ls Hls [Hj Hv]. split; [exact Hj|].
    cbn [stdout with_tick with_stdout].
    now rewrite progress_values_app, Hv, (progress_values_other _ Hls).
  - auto.
  - auto.
  - intros e w [Hw _]. exact (fresh_in_order w Hw).
Qed.

(** The [try] block of [main], run to its end. *)
Lemma ig_main_body_spec :
  hoare fresh (main_body env google_pages reply_limit)
    (fun _ => completed) halted.
Proof.
  unfold main_body, setup_driver.
  eapply hoare_bind with (R := fun _ => fresh).
  { eapply hoare_bind with (R := fun _ => fresh).
    { apply (fresh_frame _ (from_env env)). appends_auto. }
    intros ?. eapply hoare_bind with (R := fun _ => fresh).
    { apply hoare_set_session. intros w Hw. exact Hw. }
    intros ?. apply (fresh_frame _ (from_env env)). appends_auto. }
  intros ?. eapply hoare_bind with (R := fun _ => fresh).
  { apply hoare_bind_local. intros w Hw. exact Hw. }
  intros ?. eapply hoare_bind with (R := fun _ => fresh).
  { apply (fresh_frame _ (from_env env)). appends_auto. }
  intros ?. eapply hoare_bind with (R := fun _ => mono 0).
  { unfold log_progress. eapply hoare_bind with (R := fun _ => fresh).
    - apply hoare_load_global; [auto|]. intros w [Hj _] Hn. contradiction.
    - intros ?. apply hoare_emit. intros w [Hj Hv]. split; [exact Hj|].
      exists 5%Z, []. cbn [stdout with_stdout].
      rewrite progress_values_app, Hv. simpl. repeat constructor. }
  intros ?. eapply hoare_bind; [apply ig_search_spec|].
  intros post_urls. eapply hoare_bind with (R := fun _ => mono 70).
  { apply ig_posts_spec. rewrite length_firstn. lia. }
  intros p. eapply hoare_bind with (R := fun _ => mono 70).
  { apply mono_log'. lia. }
  intros ?. eapply hoare_bind; [apply ig_reply_loop_mono|].
  intros p'. eapply hoare_bind with (R := fun _ => mono 100).
  { apply (mono_frame _ _ (from_env env)). apply appends_emit. reflexivity. }
  intros ?. eapply hoare_conseq; [apply (mono_log 100 100); lia | auto | | auto].
  intros _ w (Hj & z0 & zs & Hv & Hs & Hb).
  exists z0, (zs ++ [100%Z])%list. split; [exact Hv|]. split; [exact Hs|].
  apply last_snoc.
Qed.

(** The [except] clause of [main]: the failed event and exit status 1. *)
Lemma report_failure_spec e :
  is_Exception e = true ->
  hoare (halted e)
    (log_progress "failed" (Int 0) 0 0 (str_of_exn e) ;;
     raise (A := unit) (SystemExit 1))
    (fun _ _ => False)
    (fun _ w => ends_failed (stdout w)).
Proof.
  intros He w [Hj Ho]. unfold log_progress, bind, load_global.
  rewrite bool_decide_eq_true_2 by exact Hj. simpl.
  exists (stdout w), e. auto.
Qed.

(** The [finally] clause of [main] writes nothing. *)
Lemma quit_driver_stdout w :
  stdout (snd ((load_local "driver" ;;
                ext_unit env ;;
                set_session Closed) w)) = stdout w.
Proof.
  unfold bind, load_local, ext_unit, ext, set_session.
  destruct (bool_decide _); [|reflexivity].
  destruct (raises env (tick w)); reflexivity.
Qed.

Lemma completed_ordered w : completed w -> ordered (stdout w).
Proof.
  intros (z0 & zs & Hv & Hs & _). exists (z0 :: zs). auto.
Qed.

(** [try: body except Exception as e: ... finally: driver.quit()], for a
    body that keeps the progress values in order. *)
Lemma guarded_run_spec (body : M unit) :
  hoare fresh body (fun _ => completed) halted ->
  hoare fresh
    (try_finally
       (try_except body
          (fun e =>
             log_progress "failed" (Int 0) 0 0 (str_of_exn e) ;;
             raise (SystemExit 1)))
       (load_local "driver" ;;
        ext_unit env ;;
        set_session Closed))
    (fun _ => completed)
    (fun _ w => ordered (stdout w) \/ ends_failed (stdout w)).
Proof.
  intros Hbody w Hw. unfold try_finally.
  assert (Htry : hoare fresh
            (try_except body
               (fun e =>
                  log_progress "failed" (Int 0) 0 0 (str_of_exn e) ;;
                  raise (SystemExit 1)))
            (fun _ => completed)
            (fun _ w => ordered (stdout w) \/ ends_failed (stdout w))).
  { eapply hoare_try_except with (E1 := halted).
    - exact Hbody.
    - intros e He. eapply hoare_conseq; [apply (report_failure_spec e He) | | |].
      + auto.
      + intros a w0 [].
      + intros e0 w0 H. right. exact H.
    - intros e w0 _ [_ Ho]. left. exact Ho. }
  specialize (Htry w Hw).
  destruct (try_except body _ w) as [r w1].
  pose proof (quit_driver_stdout w1) as Hout.
  destruct ((load_local "driver" ;; ext_unit env ;; set_session Closed) w1)
    as [[[]|e'] w2]; cbn [snd] in Hout.
  - destruct r as [[]|e]; unfold completed; rewrite Hout; exact Htry.
  - destruct r as [[]|e]; rewrite Hout;
      [left; now apply completed_ordered | exact Htry].
Qed.

(** The run as a whole. *)
Lemma ig_main_spec :
  hoare fresh (main env google_pages reply_limit)
    (fun _ => completed)
    (fun _ w => ordered (stdout w) \/ ends_failed (stdout w)).
Proof. apply guarded_run_spec, ig_main_body_spec. Qed.

End InstagramProgress.

(** ** The progress protocol of linkedin_scraper.py (C8) *)

Section LinkedInProgress.
Import Py Run LinkedIn.
Context (env : Env) (google_pages reply_limit : Z).

Lemma li_collect_hrefs_appends n : forall links,
  appends not_progress (from_env env) (collect_hrefs env n links).
Proof.
  induction n as [|n IH]; intros links; simpl; [apply appends_ret|].
  unfold_ext. apply appends_bind; [apply appends_ext; auto|].
  intros [href|]; [|apply IH].
  destruct (_ && _); apply IH.
Qed.

Lemma li_click_buttons_appends n :
  appends not_progress (from_env env) (click_buttons env n).
Proof.
  induction n as [|n IH]; simpl; [apply appends_ret|].
  apply appends_bind; [appends_auto | intros ?; exact IH].
Qed.

Lemma li_load_rounds_appends n : forall last_count comments,
  appends not_progress (from_env env) (load_rounds env n last_count comments).
Proof.
  induction n as [|n IH]; intros last_count comments; simpl;
    [apply appends_ret|].
  unfold_ext. apply appends_bind; [apply appends_ext; auto | intros ?].
  apply appends_bind; [apply appends_ext; auto | intros k].
  apply appends_bind; [apply li_click_buttons_appends | intros ?].
  apply appends_bind; [apply appends_ext; auto | intros cs].
  destruct (len cs =? last_count)%Z; [apply appends_ret | apply IH].
Qed.

Lemma li_reply_loop_appends parsed s :
  appends not_progress (from_env env) (reply_loop env reply_limit parsed s).
Proof.
  unfold reply_loop. apply appends_for_each. intros row s0.
  unfold reply_body. destruct (reply_count s0 <? reply_limit)%Z;
    [|apply appends_ret].
  apply appends_bind.
  { eapply appends_weaken; [apply li_generate_reply_appends | | ].
    - discriminate.
    - intros e []. }
  intros reply. apply appends_bind; [apply post_linkedin_reply_appends|].
  intros [|]; apply appends_ret.
Qed.

(** The search phase: from a first value to the bound 30. *)
Lemma li_search_spec :
  hoare (mono 0) (google_search env google_pages)
    (fun _ => mono 30) halted.
Proof.
  unfold google_search.
  eapply hoare_bind with (R := fun _ => mono 0).
  { apply (mono_frame 0 _ (from_env env)). appends_auto. }
  intros ?. eapply hoare_bind with (R := fun _ => mono 0).
  { apply (mono_frame 0 _ (from_env env)). appends_auto. }
  intros ?. eapply hoare_bind with (R := fun _ => mono 0).
  { apply (mono_frame 0 _ (from_env env)). appends_auto. }
  intros ?. eapply hoare_bind with (R := fun _ => mono 0).
  { apply (mono_frame 0 _ (from_env env)). appends_auto. }
  intros ?. eapply hoare_bind with (R := fun _ => mono 0).
  { apply (mono_frame 0 _ (from_env env)). appends_auto. }
  intros ?. eapply hoare_bind with (R := fun _ => mono 30).
  { eapply hoare_conseq.
    - apply (hoare_for_each (search_page env google_pages)
               (fun l _ w =>
                  exists k m B,
                    l = map Z.of_nat (seq k m) /\
                    (k + m = Z.to_nat google_pages)%nat /\
                    (B <= 30)%Z /\
                    (B <= Z.of_nat k * 30 / google_pages)%Z /\
                    mono B w)
               (fun _ w => mono 30 w) halted).
      intros x r links w (k & m & B & Hl & Hkm & HB & HBk & Hw).
      destruct m as [|m]; [discriminate|]. simpl in Hl.
      injection Hl as -> ->.
      assert (Hg : (0 < google_pages)%Z) by lia.
      assert (Hk : (Z.of_nat k < google_pages)%Z) by lia.
      revert w Hw. change (hoare (mono B)
        (search_page env google_pages (Z.of_nat k) links)
        (fun c w => match c with
                    | Break _ => mono 30 w
                    | Next _ =>
                        exists k' m' B',
                          map Z.of_nat (seq (S k) m)
                          = map Z.of_nat (seq k' m') /\
                          (k' + m' = Z.to_nat google_pages)%nat /\
                          (B' <= 30)%Z /\
                          (B' <= Z.of_nat k' * 30 / google_pages)%Z /\
                          mono B' w
                    end) halted).
      unfold search_page.
      eapply hoare_bind; [apply hoare_div_eq; lia|].
      intros q. apply hoare_pure. intros ->.
      rewrite (int_scaled (Z.of_nat k) google_pages 30) by lia.
      set (v := (Z.of_nat k * 30 / google_pages)%Z).
      assert (Hv30 : (v <= 30)%Z) by (apply scaled_bound; lia).
      assert (Hvn : (v <= Z.of_nat (S k) * 30 / google_pages)%Z)
        by (apply scaled_mono; lia).
      eapply hoare_bind with (R := fun _ => mono v).
      { apply mono_log'. exact HBk. }
      intros ?. eapply hoare_bind with (R := fun _ => mono v).
      { apply (mono_frame v _ (from_env env)). appends_auto. }
      intros n. eapply hoare_bind with (R := fun _ => mono v).
      { apply (mono_frame v _ (from_env env)), li_collect_hrefs_appends. }
      intros links'.
      eapply hoare_conseq with (Q := fun _ => mono v).
      + apply (mono_frame v _ (from_env env)). appends_auto.
      + auto.
      + intros [s'|s'] w Hw; [now apply (mono_weaken v)|].
        exists (S k), m, v. split; [reflexivity|]. split; [lia|].
        split; [exact Hv30|]. split; [exact Hvn | exact Hw].
      + auto.
    - intros w Hw. exists O, (Z.to_nat google_pages), 0%Z.
      unfold range. split; [reflexivity|]. split; [lia|]. split; [lia|].
      split; [simpl; rewrite Zdiv_0_l; lia | exact Hw].
    - intros [links ex] w. simpl. destruct ex; [|auto].
      intros (k & m & B & Hl & Hkm & HB & HBk & Hw).
      now apply (mono_weaken B).
    - auto. }
  intros p. apply hoare_ret. auto.
Qed.

(** The posts, each with its replies: up to the bound 70. *)
Lemma li_posts_spec urls :
  (List.length urls <= 10)%nat ->
  hoare (mono 30)
    (for_each (url_body env reply_limit) (enumerate 0 urls) ([], sched0))
    (fun _ => mono 70) halted.
Proof.
  intros Hlen. eapply hoare_conseq.
  - apply (hoare_for_each (url_body env reply_limit)
             (fun l _ w =>
                exists i r,
                  l = enumerate i r /\ (0 <= i)%Z /\
                  (i + Z.of_nat (List.length r) <= 10)%Z /\
                  mono (30 + i * 40 / 10) w)
             (fun _ _ => False) halted).
    intros x rest st w (i & r & Hl & Hi & Hir & Hw).
    destruct r as [|url r]; [discriminate|]. simpl in Hl.
    injection Hl as -> ->. simpl in Hir.
    revert w Hw. change (hoare (mono (30 + i * 40 / 10))
      (url_body env reply_limit (i, url) st)
      (fun c w => match c with
                  | Break _ => False
                  | Next _ =>
                      exists i' r',
                        enumerate (i + 1) r = enumerate i' r' /\
                        (0 <= i')%Z /\
                        (i' + Z.of_nat (List.length r') <= 10)%Z /\
                        mono (30 + i' * 40 / 10) w
                  end) halted).
    unfold url_body. cbn [fst snd].
    eapply hoare_bind; [apply hoare_div_eq; lia|].
    intros q. apply hoare_pure. intros ->.
    rewrite (int_scaled i 10 40) by lia.
    eapply hoare_bind with (R := fun _ => mono (30 + i * 40 / 10)).
    { apply mono_log'. lia. }
    intros ?. eapply hoare_bind with (R := fun _ => mono (30 + i * 40 / 10)).
    { apply (mono_frame _ _ (from_env env)). appends_auto. }
    intros ?. eapply hoare_bind with (R := fun _ => mono (30 + i * 40 / 10)).
    { apply (mono_frame _ _ (from_env env)). unfold open_linkedin_comments.
      appends_auto. }
    intros ?. eapply hoare_bind with (R := fun _ => mono (30 + i * 40 / 10)).
    { apply (mono_frame _ _ (from_env env)), li_load_rounds_appends. }
    intros blocks.
    destruct (parse_comments blocks url) as [parsed|e].
    2:{ apply hoare_raise. intros w Hw. exact (mono_in_order _ w Hw). }
    eapply hoare_bind with (R := fun _ => mono (30 + i * 40 / 10)).
    { apply (mono_frame _ _ (from_env env)), li_reply_loop_appends. }
    intros p. apply hoare_ret. intros w Hw.
    exists (i + 1)%Z, r. split; [reflexivity|]. split; [lia|]. split; [lia|].
    apply (mono_weaken (30 + i * 40 / 10)); [|exact Hw].
    pose proof (scaled_mono i (i + 1) 10 40). lia.
  - intros w Hw. exists 0%Z, urls. split; [reflexivity|]. split; [lia|].
    split; [lia | exact Hw].
  - intros [s ex] w. simpl. destruct ex; [|intros []].
    intros (i & r & Hl & Hi & Hir & Hw). symmetry in Hl.
    apply enumerate_nil in Hl. subst r. simpl in Hir.
    apply (mono_weaken (30 + i * 40 / 10)); [|exact Hw].
    pose proof (scaled_bound i 10 40). lia.
  - auto.
Qed.

(** The [try] block of [main], run to its end. *)
Lemma li_main_body_spec :
  hoare fresh (main_body env google_pages reply_limit)
    (fun _ => completed) halted.
Proof.
  unfold main_body.
  eapply hoare_bind with (R := fun _ => mono 0).
  { unfold log_progress. eapply hoare_bind with (R := fun _ => fresh).
    - apply hoare_load_global; [auto|]. intros w [Hj _] Hn. contradiction.
    - intros ?. apply hoare_emit. intros w [Hj Hv]. split; [exact Hj|].
      exists 5%Z, []. cbn [stdout with_stdout].
      rewrite progress_values_app, Hv. simpl. repeat constructor. }
  intros ?. eapply hoare_bind; [apply li_search_spec|].
  intros urls. eapply hoare_bind with (R := fun _ => mono 30).
  { apply mono_log'. lia. }
  intros ?. eapply hoare_bind with (R := fun _ => mono 70).
  { apply li_posts_spec. rewrite length_firstn. lia. }
  intros p. eapply hoare_bind with (R := fun _ => mono 100).
  { eapply hoare_conseq;
      [apply (mono_frame 70 _ (from_env env)); apply appends_emit; reflexivity
      | auto | | auto].
    intros ? w Hw. now apply (mono_weaken 70). }
  intros ?. eapply hoare_conseq; [apply (mono_log 100 100); lia | auto | | auto].
  intros _ w (Hj & z0 & zs & Hv & Hs & Hb).
  exists z0, (zs ++ [100%Z])%list. split; [exact Hv|]. split; [exact Hs|].
  apply last_snoc.
Qed.

(** The run as a whole: the driver is set up outside the [try]. *)
Lemma li_main_spec :
  hoare fresh (main env google_pages reply_limit)
    (fun _ => completed)
    (fun _ w => ordered (stdout w) \/ ends_failed (stdout w)).
Proof.
  unfold main, setup_driver.
  assert (Hleft : forall (e : exn) w,
            halted e w -> ordered (stdout w) \/ ends_failed (stdout w)).
  { intros e w [_ Ho]. left. exact Ho. }
  eapply hoare_bind with (R := fun _ => fresh).
  { eapply hoare_conseq
      with (P := fresh) (Q := fun _ => fresh) (E := halted);
      [| auto | auto | exact Hleft].
    eapply hoare_bind with (R := fun _ => fresh).
    { apply (fresh_frame _ (from_env env)). appends_auto. }
    intros ?. eapply hoare_bind with (R := fun _ => fresh).
    { apply hoare_set_session. intros w Hw. exact Hw. }
    intros ?. apply (fresh_frame _ (from_env env)). appends_auto. }
  intros ?. eapply hoare_bind with (R := fun _ => fresh).
  { apply hoare_bind_local. intros w Hw. exact Hw. }
  intros ?. eapply hoare_bind with (R := fun _ => fresh).
  { eapply hoare_conseq
      with (P := fresh) (Q := fun _ => fresh) (E := halted);
      [| auto | auto | exact Hleft].
    apply (fresh_frame _ (from_env env)). appends_auto. }
  intros ?. apply guarded_run_spec, li_main_body_spec.
Qed.

End LinkedInProgress.

(** C8, as the code has it.  In every run of the Instagram script and of
    the LinkedIn script, whether it returns or raises, the progress values
    written are in order, that is, after the first one they do not
    decrease, up to the failed event that the [except] handler of a
    failing run writes last; and when the run returns normally they are in
    order and the last one is 100. *)
Theorem progress_nondecreasing_after_start :
  forall (env : Run.Env) (google_pages reply_limit : Z) w,
    Run.fresh w ->
    (forall r w',
       Instagram.main env google_pages reply_limit w = (r, w') ->
       (Run.ordered (Run.stdout w') \/ Run.ends_failed (Run.stdout w')) /\
       (r = Run.Ok tt -> Run.completed w')) /\
    (forall r w',
       LinkedIn.main env google_pages reply_limit w = (r, w') ->
       (Run.ordered (Run.stdout w') \/ Run.ends_failed (Run.stdout w')) /\
       (r = Run.Ok tt -> Run.completed w')).
Proof.
  intros env google_pages reply_limit w Hw. split.
  - intros r w' Hrun.
    pose proof (ig_main_spec env google_pages reply_limit w Hw) as H.
    rewrite Hrun in H. destruct r as [[]|e].
    + split; [left; now apply completed_ordered | auto].
    + split; [exact H | discriminate].
  - intros r w' Hrun.
    pose proof (li_main_spec env google_pages reply_limit w Hw) as H.
    rewrite Hrun in H. destruct r as [[]|e].
    + split; [left; now apply completed_ordered | auto].
    + split; [exact H | discriminate].
Qed.

Lemma li_start_has_json :
  "json" ∈ Run.globals (Run.start LinkedIn.imports).
Proof.
  simpl. unfold LinkedIn.imports. apply elem_of_list_to_set.
  apply list_elem_of_In. simpl. tauto.
Qed.

Lemma progress_nondecreasing_after_start_witness :
  (exists w',
     Instagram.main
       (Run.failing_at 6 Run.NoSuchElementException Run.calm_env) 1 2
       (Run.start Instagram.imports)
     = (Run.Raise (Run.SystemExit 1), w') /\
     (Run.ordered (Run.stdout w') \/ Run.ends_failed (Run.stdout w'))) /\
  (exists w',
     LinkedIn.main Run.calm_env 2 1 (Run.start LinkedIn.imports)
     = (Run.Ok tt, w') /\
     Run.completed w').
Proof.
  split.
  - destruct (Instagram.main
                (Run.failing_at 6 Run.NoSuchElementException Run.calm_env)
                1 2 (Run.start Instagram.imports)) as [r w'] eqn:E.
    exists w'.
    pose proof (proj1 (progress_nondecreasing_after_start
                         (Run.failing_at 6 Run.NoSuchElementException
                            Run.calm_env) 1 2
                         (Run.start Instagram.imports)
                         (conj ig_start_has_json eq_refl)) r w' E) as [H _].
    split; [|exact H].
    vm_compute in E. injection E as <- <-. reflexivity.
  - destruct (LinkedIn.main Run.calm_env 2 1 (Run.start LinkedIn.imports))
      as [r w'] eqn:E.
    exists w'.
    pose proof (proj2 (progress_nondecreasing_after_start
                         Run.calm_env 2 1 (Run.start LinkedIn.imports)
                         (conj li_start_has_json eq_refl)) r w' E) as [_ H].
    assert (Hr : r = Run.Ok tt).
    { vm_compute in E. injection E as <- _. reflexivity. }
    split; [now rewrite Hr | exact (H Hr)].
Defined.

(** C8 as stated fails.  A run that fails (here the search box is not
    found) writes a last event with progress 0, below the start event; in
    a run that returns normally the start event carries 5 and the first
    search event 0; the LinkedIn script does the same. *)
Lemma ig_progress_drops_after_start :
  (exists w',
     Instagram.main
       (Run.failing_at 6 Run.NoSuchElementException Run.calm_env) 1 2
       (Run.start Instagram.imports)
     = (Run.Raise (Run.SystemExit 1), w') /\
     Run.progress_values (Run.stdout w') = map Py.Int [5; 0]%Z /\
     ~ Sorted Z.le [5; 0]%Z) /\
  (exists w',
     Instagram.main Run.calm_env 1 2 (Run.start Instagram.imports)
     = (Run.Ok tt, w') /\
     Run.progress_values (Run.stdout w')
     = map Py.Int [5; 0; 30; 70; 100]%Z /\
     ~ Sorted Z.le [5; 0; 30; 70; 100]%Z) /\
  (exists w',
     LinkedIn.main Run.calm_env 2 1 (Run.start LinkedIn.imports)
     = (Run.Ok tt, w') /\
     Run.progress_values (Run.stdout w')
     = map Py.Int [5; 0; 15; 30; 100]%Z /\
     ~ Sorted Z.le [5; 0; 15; 30; 100]%Z).
Proof.
  split; [|split].
  - eexists. split; [vm_compute; reflexivity|]. split; [reflexivity|].
    intros H. inversion H as [|? ? _ Hd]; subst.
    inversion Hd as [|? ? Hle]; subst. lia.
  - eexists. split; [vm_compute; reflexivity|]. split; [reflexivity|].
    intros H. inversion H as [|? ? _ Hd]; subst.
    inversion Hd as [|? ? Hle]; subst. lia.
  - eexists. split; [vm_compute; reflexivity|]. split; [reflexivity|].
    intros H. inversion H as [|? ? _ Hd]; subst.
    inversion Hd as [|? ? Hle]; subst. lia.
Qed.

(** The failed run above ends with a [failed] event and a closed
    session. *)
Lemma ig_failed_run_last_event :
  exists w' e,
    Instagram.main
      (Run.failing_at 6 Run.NoSuchElementException Run.calm_env) 1 2
      (Run.start Instagram.imports)
    = (Run.Raise (Run.SystemExit 1), w') /\
    last (Run.stdout w') = Some (Run.Progress e) /\
    Run.status e = "failed" /\ Run.progress e = Py.Int 0 /\
    Run.session w' = Run.Closed.
Proof.
  eexists _, _. split; [vm_compute; reflexivity|].
  split; [reflexivity|]. repeat split.
Qed.

(** ** C9: closing the browser session *)

(** C9, the Facebook script at a failing input: the search box is not
    found, the script ends with that error and the browser session is
    still open. *)
Theorem fb_session_left_open_on_error :
  exists w',
    Facebook.main
      (Run.failing_at 5 Run.NoSuchElementException Run.calm_env) 2 1
      (Run.start Facebook.imports)
    = (Run.Raise Run.NoSuchElementException, w') /\
    Run.session w' = Run.Open.
Proof. eexists. split; [vm_compute; reflexivity | reflexivity]. Qed.

(** The Facebook script closes the session when nothing raises. *)
Lemma fb_session_closed_on_normal_run :
  exists w',
    Facebook.main Run.calm_env 2 1 (Run.start Facebook.imports)
    = (Run.Ok tt, w') /\
    Run.session w' = Run.Closed.
Proof. eexists. split; [vm_compute; reflexivity | reflexivity]. Qed.

(** The Instagram script, with its [finally], ends with the session
    closed unless [driver] was never bound or the call of [quit] itself
    raises. *)
Lemma ig_main_closes_session env google_pages reply_limit w :
  let '(r, w') := Instagram.main env google_pages reply_limit w in
  Run.session w' = Run.Closed \/
  r = Run.Raise (Run.UnboundLocalError "driver") \/
  (exists e, r = Run.Raise e /\ Run.raises env (pred (Run.tick w')) = Some e).
Proof.
  unfold Instagram.main, Run.try_finally.
  destruct (Run.try_except _ _ w) as [r1 w1].
  unfold Run.bind, Run.load_local.
  destruct (bool_decide ("driver" ∈ Run.locals w1)); [|auto].
  unfold Run.ext_unit, Run.ext.
  destruct (Run.raises env (Run.tick w1)) as [e|] eqn:R; simpl.
  - right. right. exists e. auto.
  - left. reflexivity.
Qed.

(** [setup_driver] can fail after the browser has started: [driver] is
    then unbound in the [finally] and the session stays open. *)
Lemma ig_session_left_open_when_setup_fails :
  exists w',
    Instagram.main
      (Run.failing_at 1 Run.WebDriverException Run.calm_env) 1 2
      (Run.start Instagram.imports)
    = (Run.Raise (Run.UnboundLocalError "driver"), w') /\
    Run.session w' = Run.Open.
Proof. eexists. split; [vm_compute; reflexivity | reflexivity]. Qed.

(** ** C10: the Reddit script stops at its first progress line *)

Section RedditRun.
Import Py Run Reddit.
Context (env : Env) (REPLY_LIMIT GOOGLE_PAGES : Z).

Lemma silent_no_json_stable : stable search_line silent_no_json.
Proof.
  intros w n ls Hls [Hj Hs]. split; [exact Hj|].
  cbn [stdout with_tick with_stdout]. rewrite forallb_app, Hs, Hls.
  reflexivity.
Qed.

Lemma silent_frame {A} (m : M A) :
  appends search_line (from_env env) m ->
  hoare silent_no_json m (fun _ => silent_no_json)
    (fun e w => silent_no_json w /\ from_env env e).
Proof.
  intros Hm. eapply hoare_appends; [exact Hm | apply silent_no_json_stable].
Qed.

Lemma rd_collect_hrefs_appends ok n : forall links,
  appends ok (from_env env) (collect_hrefs env n links).
Proof.
  induction n as [|n IH]; intros links; simpl; [apply appends_ret|].
  unfold_ext. apply appends_bind; [apply appends_ext; auto|].
  intros [href|]; [|apply IH]. destruct (_ && _); apply IH.
Qed.

Lemma rd_search_page_appends page links :
  appends search_line (from_env env) (search_page env page links).
Proof.
  unfold search_page. unfold_ext.
  apply appends_bind; [apply appends_emit; reflexivity | intros ?].
  apply appends_bind; [apply appends_ext; auto | intros n].
  apply appends_bind; [apply rd_collect_hrefs_appends | intros ?].
  appends_auto.
Qed.

(** The search never returns: its progress line raises [NameError]. *)
Lemma rd_search_spec :
  hoare silent_no_json (google_search_reddit_posts env GOOGLE_PAGES)
    (fun _ _ => False)
    (fun e w => silent_no_json w /\ (e = NameError "json" \/ from_env env e)).
Proof.
  unfold google_search_reddit_posts.
  assert (Hf : forall A (m : M A),
            appends search_line (from_env env) m ->
            hoare silent_no_json m (fun _ => silent_no_json)
              (fun e w => silent_no_json w
                          /\ (e = NameError "json" \/ from_env env e))).
  { intros A m Hm. eapply hoare_conseq; [apply (silent_frame _ Hm) | | |];
      auto. intros e w [? ?]. auto. }
  eapply hoare_bind; [apply Hf; appends_auto | intros ?].
  eapply hoare_bind; [apply Hf; appends_auto | intros ?].
  eapply hoare_bind; [apply Hf; appends_auto | intros ?].
  eapply hoare_bind; [apply Hf; appends_auto | intros ?].
  eapply hoare_bind; [apply Hf; appends_auto | intros ?].
  eapply hoare_bind.
  { apply Hf. apply appends_for_each. intros x s.
    apply rd_search_page_appends. }
  intros p. eapply hoare_bind; [apply Hf; appends_auto | intros ?].
  eapply hoare_bind with (R := fun _ _ => False).
  - unfold log_progress. eapply hoare_bind with (R := fun _ _ => False).
    + apply hoare_load_global.
      * intros w [Hn _] Hin. contradiction.
      * intros w Hw _. split; [exact Hw | left; reflexivity].
    + intros ? w [].
  - intros ? w [].
Qed.

Lemma rd_main_spec :
  hoare silent_no_json (main env REPLY_LIMIT GOOGLE_PAGES)
    (fun _ _ => False)
    (fun e w => silent_no_json w /\ (e = NameError "json" \/ from_env env e)).
Proof.
  unfold main, setup_driver.
  assert (Hf : forall A (m : M A),
            appends search_line (from_env env) m ->
            hoare silent_no_json m (fun _ => silent_no_json)
              (fun e w => silent_no_json w
                          /\ (e = NameError "json" \/ from_env env e))).
  { intros A m Hm. eapply hoare_conseq; [apply (silent_frame _ Hm) | | |];
      auto. intros e w [? ?]. auto. }
  assert (Hb : forall n, n <> "json" ->
            hoare silent_no_json (bind_global n) (fun _ => silent_no_json)
              (fun e w => silent_no_json w
                          /\ (e = NameError "json" \/ from_env env e))).
  { intros n Hn. apply hoare_bind_global. intros w [Hj Hs].
    split; [|exact Hs]. cbn [globals with_globals].
    intros [Hd|Hg]%elem_of_union; [|auto].
    apply elem_of_singleton in Hd. congruence. }
  eapply hoare_bind with (R := fun _ => silent_no_json).
  { eapply hoare_bind; [apply Hf; appends_auto | intros ?].
    eapply hoare_bind with (R := fun _ => silent_no_json).
    { apply hoare_set_session. intros w Hw. exact Hw. }
    intros ?. apply Hf; appends_auto. }
  intros ?. eapply hoare_bind; [apply Hb; discriminate | intros ?].
  eapply hoare_bind; [apply Hb; discriminate | intros ?].
  eapply hoare_bind; [apply Hf; appends_auto | intros ?].
  eapply hoare_bind; [apply rd_search_spec|].
  intros ? w [].
Qed.

Lemma rd_imports_no_json : "json" ∉ imports.
Proof.
  unfold imports. intros H%elem_of_list_to_set%list_elem_of_In.
  simpl in H. intuition discriminate.
Qed.

End RedditRun.

(** C10.  In the Reddit script the global [json] is bound only by the
    [import] at the end of the main block, so the progress line at the end
    of the Google search raises [NameError].  From the state in which the
    main block starts, with the names imported at the top of the file and
    nothing written yet, every run ends with an exception; all it has
    written by then are the plain messages of the search, so no progress
    line and no thread opened by [extract_comments]; [json] is still
    unbound; the exception is [NameError] for [json] or one raised by an
    external call, and the former when no external call raises. *)
Theorem reddit_run_stops_at_first_progress :
  forall (env : Run.Env) (REPLY_LIMIT GOOGLE_PAGES : Z) w,
    Run.globals w = Reddit.imports ->
    Run.stdout w = [] ->
    exists e w',
      Reddit.main env REPLY_LIMIT GOOGLE_PAGES w = (Run.Raise e, w') /\
      forallb Reddit.search_line (Run.stdout w') = true /\
      Run.progress_values (Run.stdout w') = [] /\
      ("json" ∉ Run.globals w') /\
      (e = Run.NameError "json" \/ Run.from_env env e) /\
      (Run.quiet env -> e = Run.NameError "json").
Proof.
  intros env REPLY_LIMIT GOOGLE_PAGES w Hg Hs.
  assert (Hw : Reddit.silent_no_json w).
  { split; [rewrite Hg; apply rd_imports_no_json | now rewrite Hs]. }
  pose proof (rd_main_spec env REPLY_LIMIT GOOGLE_PAGES w Hw) as H.
  destruct (Reddit.main env REPLY_LIMIT GOOGLE_PAGES w) as [[[]|e] w'];
    [destruct H|].
  destruct H as [[Hn Hs'] He]. exists e, w'.
  split; [reflexivity|]. split; [exact Hs'|]. split.
  { clear -Hs'. induction (Run.stdout w') as [|l ls IH]; [reflexivity|].
    simpl in Hs'. apply andb_true_iff in Hs' as [Hl Hls].
    destruct l; try discriminate. simpl. auto. }
  split; [exact Hn|].
  split; [exact He|]. intros Q. destruct He as [He|[n Hn']]; [exact He|].
  rewrite (Q n) in Hn'. discriminate.
Qed.

Lemma reddit_run_stops_at_first_progress_witness :
  exists w',
    Reddit.main Run.calm_env 2 1 (Run.start Reddit.imports)
    = (Run.Raise (Run.NameError "json"), w') /\
    Run.stdout w'
    = [Run.Print "➡️ Log in to Reddit manually (15s)";
       Run.Print "🔍 Google page 1";
       Run.Print "Found 0 Reddit links"] /\
    Run.session w' = Run.Open.
Proof.
  destruct (reddit_run_stops_at_first_progress Run.calm_env 2 1
              (Run.start Reddit.imports) eq_refl eq_refl)
    as (e & w' & Hrun & _ & _ & _ & _ & Hq).
  exists w'. rewrite Hrun. rewrite (Hq (fun n => eq_refl)).
  split; [reflexivity|].
  assert (Hw : w' = snd (Reddit.main Run.calm_env 2 1
                           (Run.start Reddit.imports)))
    by now rewrite Hrun.
  rewrite Hw. vm_compute. split; reflexivity.
Defined.

(** ** More on the fragment tokenizer of instagram_scraper.py *)

Section TokenizerBounds.
Import Py InstagramParse.

Lemma gather_count l : forall acc,
  (List.length (fst (gather l acc)) + List.length (snd (gather l acc))
   <= List.length acc + List.length l)%nat.
Proof.
  induction l as [|s r IH]; intros acc; simpl; [lia|].
  destruct (username_pattern s && negb (is_noise s)); [simpl; lia|].
  destruct (time_pattern s); [simpl; lia|].
  destruct (is_noise s || likes_count (lower (strip s))).
  - pose proof (IH acc). lia.
  - pose proof (IH (acc ++ [s])%list) as H. rewrite length_app in H.
    simpl in H. lia.
Qed.

Lemma parse_loop_count fuel : forall l comments,
  (3 * List.length (parse_loop fuel l comments)
   <= 3 * List.length comments + List.length l)%nat.
Proof.
  induction fuel as [|fuel IH]; intros l comments; simpl; [lia|].
  destruct l as [|s r]; [lia|].
  destruct (username_pattern s && negb (is_noise s)).
  2:{ pose proof (IH r comments). simpl. lia. }
  pose proof (skip_bullets_length r) as Hsk.
  destruct (skip_bullets r) as [|t l2].
  { pose proof (IH [] comments). simpl in *. lia. }
  destruct (time_pattern t).
  2:{ pose proof (IH (t :: l2) comments). simpl in *. lia. }
  pose proof (gather_count l2 []) as Hg.
  destruct (gather l2 []) as [text_lines l3]. simpl in Hg, Hsk.
  destruct (truthy s && truthy t && truthy (strip (join " " text_lines)))
    eqn:Ht.
  - assert (text_lines <> []) as Hne.
    { intros ->. rewrite !andb_true_iff in Ht. destruct Ht as [_ Ht].
      discriminate Ht. }
    destruct text_lines as [|x xs]; [contradiction|]. simpl in Hg.
    match goal with |- context [parse_loop fuel l3 ?c] =>
      pose proof (IH l3 c) as H end.
    rewrite length_app in H. simpl in H. simpl. lia.
  - pose proof (IH l3 comments). simpl. lia.
Qed.

Lemma parse_loop_no_time fuel : forall l comments,
  Forall (fun s => time_pattern s = false) l ->
  parse_loop fuel l comments = comments.
Proof.
  induction fuel as [|fuel IH]; intros l comments Hl; simpl; [reflexivity|].
  destruct l as [|s r]; [reflexivity|].
  apply Forall_cons in Hl as [_ Hr].
  destruct (username_pattern s && negb (is_noise s)); [|now apply IH].
  assert (Hsk : Forall (fun s => time_pattern s = false) (skip_bullets r)).
  { clear -Hr. induction r as [|x r IH]; simpl; [constructor|].
    apply Forall_cons in Hr as [Hx Hr].
    destruct (is_stray_bullet x); [now apply IH | now constructor]. }
  destruct (skip_bullets r) as [|t l2]; [now apply IH|].
  pose proof Hsk as Hsk'. apply Forall_cons in Hsk' as [Ht _].
  rewrite Ht. now apply IH.
Qed.

End TokenizerBounds.

(** X1. Every record the Instagram tokenizer emits uses up at least three
    fragments of its own (a user name, a time and some text): the records
    are at most a third as many as the fragments. *)
Theorem ig_tokenizer_three_fragments_per_record :
  forall raw_texts,
    (3 * List.length (InstagramParse.parse_ig_comment_blocks raw_texts)
     <= List.length raw_texts)%nat.
Proof.
  intros raw. unfold InstagramParse.parse_ig_comment_blocks.
  pose proof (parse_loop_count (List.length raw) raw []) as H.
  simpl in H. exact H.
Qed.

(** X2. Without a fragment that passes the time test the tokenizer emits
    nothing, whatever user names and texts the fragments hold. *)
Theorem ig_tokenizer_needs_time_fragment :
  forall raw_texts,
    Forall (fun s => InstagramParse.time_pattern s = false) raw_texts ->
    InstagramParse.parse_ig_comment_blocks raw_texts = [].
Proof.
  intros raw H. apply parse_loop_no_time. exact H.
Qed.

Lemma ig_tokenizer_needs_time_fragment_witness :
  InstagramParse.parse_ig_comment_blocks
    ["alice"; "what a lovely picture"; "bob"; "2 hours"; "me too"] = [].
Proof.
  apply ig_tokenizer_needs_time_fragment.
  repeat constructor.
Defined.

(** ** The user-name and time-token helpers of facebook_scraper.py *)

Section FacebookNamesProofs.
Import Py Re Facebook FacebookNames.

Lemma all_chars_snoc p a c :
  all_chars p a = true -> p c = true ->
  all_chars p (a +:+ String c EmptyString) = true.
Proof.
  intros Ha Hc. apply all_chars_append; [exact Ha|]. simpl. now rewrite Hc.
Qed.

Lemma append_not_empty (a : string) c :
  is_empty (a +:+ String c EmptyString) = false.
Proof. destruct a; reflexivity. Qed.

Lemma split_from_words s : forall cur,
  all_chars not_space cur = true ->
  Forall is_a_word (split_from cur s).
Proof.
  induction s as [|c r IH]; intros cur Hcur; simpl.
  - destruct (is_empty cur) eqn:E; [constructor|].
    constructor; [|constructor]. split; [|exact Hcur].
    now apply is_empty_false.
  - destruct (is_space c) eqn:Hc.
    + destruct (is_empty cur) eqn:E; [now apply IH|].
      constructor; [|now apply IH]. split; [|exact Hcur].
      now apply is_empty_false.
    + apply IH. apply all_chars_snoc; [exact Hcur|].
      unfold not_space. now rewrite Hc.
Qed.

Lemma split_from_word w : forall cur rest,
  all_chars not_space w = true ->
  split_from cur (w +:+ rest) = split_from (cur +:+ w) rest.
Proof.
  induction w as [|c w IH]; intros cur rest Hw.
  - now rewrite append_nil, append_empty_r.
  - simpl in Hw. apply andb_true_iff in Hw as [Hc Hw].
    rewrite append_cons. simpl. unfold not_space in Hc.
    apply negb_true_iff in Hc. rewrite Hc. rewrite (IH _ _ Hw).
    now rewrite append_assoc.
Qed.

(** [split] undoes [" ".join] on words. *)
Lemma split_join ws :
  Forall is_a_word ws -> split (join " " ws) = ws.
Proof.
  unfold split. induction ws as [|x ws IH]; intros H; [reflexivity|].
  apply Forall_cons in H as [[Hne Hx] Hws].
  destruct ws as [|y ws].
  - simpl. rewrite <- (append_empty_r x) at 1.
    rewrite (split_from_word x _ _ Hx), append_nil. simpl.
    apply is_empty_false in Hne. now rewrite Hne.
  - change (join " " (x :: y :: ws)) with (x +:+ " " +:+ join " " (y :: ws)).
    rewrite (split_from_word x _ _ Hx), append_nil.
    rewrite append_cons, append_nil. simpl.
    apply is_empty_false in Hne. rewrite Hne. f_equal. now apply IH.
Qed.

Lemma split_from_nil s : forall cur,
  split_from cur s = [] -> cur = EmptyString /\ all_chars is_space s = true.
Proof.
  induction s as [|c r IH]; intros cur; simpl.
  - destruct (is_empty cur) eqn:E; [|discriminate].
    intros _. split; [now apply is_empty_true | reflexivity].
  - destruct (is_space c) eqn:Hc.
    + destruct (is_empty cur) eqn:E; [|discriminate].
      intros H. apply IH in H as [_ H]. split; [now apply is_empty_true|].
      exact H.
    + intros H. apply IH in H as [H _].
      pose proof (append_not_empty cur c) as Hn. rewrite H in Hn.
      discriminate.
Qed.

Lemma rstrip_spaces s : all_chars is_space s = true -> rstrip s = EmptyString.
Proof.
  induction s as [|c r IH]; [reflexivity|]. simpl.
  intros [Hc Hr]%andb_true_iff. rewrite (IH Hr), Hc. reflexivity.
Qed.

Lemma strip_spaces s : all_chars is_space s = true -> strip s = EmptyString.
Proof.
  intros H. unfold strip. apply rstrip_spaces.
  unfold lstrip. now apply all_chars_drop_while.
Qed.

Lemma firstn_words_shape (parts : list string) :
  parts <> [] ->
  let ws := firstn (Nat.min 3 (List.length parts)) parts in
  (1 <= List.length ws <= 3)%nat.
Proof.
  intros Hne ws. subst ws. rewrite length_firstn.
  destruct parts as [|a parts]; [contradiction|]. simpl List.length. lia.
Qed.

(** What [clean_username] returns is a line of one to three words. *)
Lemma clean_username_shape x :
  let r := clean_username x in
  (1 <= List.length (split r) <= 3)%nat /\ join " " (split r) = r.
Proof.
  unfold clean_username.
  destruct x as [t|]; [|vm_compute; split; [lia | reflexivity]].
  destruct (is_empty t); [vm_compute; split; [lia | reflexivity]|].
  set (u := strip (sub spaces_pattern " "
                     (sub anonymous_pattern "Anonymous participant" t))).
  destruct (startswith "Anonymous participant" u);
    [vm_compute; split; [lia | reflexivity]|].
  destruct (0 <? List.length (split u))%nat eqn:Hn.
  - apply Nat.ltb_lt in Hn.
    assert (Hne : split u <> []) by (destruct (split u); simpl in Hn; [lia | discriminate]).
    pose proof (firstn_words_shape _ Hne) as Hlen.
    assert (Hw : Forall is_a_word
                   (firstn (Nat.min 3 (List.length (split u))) (split u))).
    { apply Forall_take. apply split_from_words. reflexivity. }
    cbv zeta. rewrite (split_join _ Hw). split; [exact Hlen | reflexivity].
  - apply Nat.ltb_ge in Hn.
    assert (Hs : split u = []) by (destruct (split u); simpl in Hn; [reflexivity | lia]).
    apply split_from_nil in Hs as [_ Hs].
    assert (Hu : u = EmptyString).
    { pose proof (strip_spaces u Hs) as H. subst u.
      now rewrite strip_idem in H. }
    rewrite Hu. vm_compute. split; [split; repeat constructor | reflexivity].
Qed.

Lemma anonymous_rest_length fuel : forall s,
  (String.length (anonymous_rest fuel s) <= String.length s)%nat.
Proof.
  induction fuel as [|fuel IH]; intros s; cbn [anonymous_rest];
    [apply Nat.le_refl|].
  destruct (match_lit "Anonymous participant" s) as [r|] eqn:E;
    [|apply Nat.le_refl].
  etransitivity; [apply IH|].
  assert (Hd : forall p x, (String.length (drop_while p x) <= String.length x)%nat).
  { intros p x. induction x as [|c x IHx]; simpl; [lia|].
    destruct (p c); simpl; lia. }
  assert (Hm : forall p x y, match_lit p x = Some y ->
                 (String.length y + String.length p = String.length x)%nat).
  { induction p as [|a p IHp]; intros x y; simpl.
    - intros [= ->]. lia.
    - destruct x as [|b x]; [discriminate|].
      destruct (Ascii.eqb a b); [|discriminate].
      intros H. apply IHp in H. simpl. lia. }
  apply Hm in E. simpl in E.
  pose proof (Hd is_space (drop_while is_digit (drop_while is_space r))).
  pose proof (Hd is_digit (drop_while is_space r)).
  pose proof (Hd is_space r). lia.
Qed.

Lemma match_lit_length p : forall x y,
  match_lit p x = Some y ->
  (String.length y + String.length p = String.length x)%nat.
Proof.
  induction p as [|a p IHp]; intros x y; simpl.
  - intros [= ->]. lia.
  - destruct x as [|b x]; [discriminate|].
    destruct (Ascii.eqb a b); [|discriminate].
    intros H. apply IHp in H. simpl. lia.
Qed.

Lemma match_lit_app p : forall rest, match_lit p (p +:+ rest) = Some rest.
Proof.
  induction p as [|a p IH]; intros rest; [reflexivity|].
  rewrite append_cons. cbn [match_lit]. rewrite Ascii.eqb_refl. apply IH.
Qed.

Lemma drop_while_length p x :
  (String.length (drop_while p x) <= String.length x)%nat.
Proof.
  induction x as [|c x IHx]; simpl; [lia|]. destruct (p c); simpl; lia.
Qed.

Lemma anonymous_pattern_head prev lit rest :
  lit = "Anonymous participant" ->
  exists k, anonymous_pattern prev (lit +:+ rest) = Some (S k).
Proof.
  intros Hlit. unfold anonymous_pattern.
  assert (Hm : match_lit "Anonymous participant" (lit +:+ rest) = Some rest).
  { rewrite Hlit. apply match_lit_app. }
  rewrite Hm.
  assert (Hl : String.length (lit +:+ rest) = (21 + String.length rest)%nat).
  { rewrite length_append, Hlit. reflexivity. }
  remember (lit +:+ rest) as s eqn:Es. clear Es Hlit.
  assert (Hr : (String.length (anonymous_rest (String.length s) s)
                <= String.length rest)%nat).
  { rewrite Hl. change (21 + String.length rest)%nat
      with (S (20 + String.length rest)).
    cbn [anonymous_rest]. rewrite Hm.
    etransitivity; [apply anonymous_rest_length|].
    pose proof (drop_while_length is_space
                  (drop_while is_digit (drop_while is_space rest))).
    pose proof (drop_while_length is_digit (drop_while is_space rest)).
    pose proof (drop_while_length is_space rest). lia. }
  exists (String.length s
          - String.length (anonymous_rest (String.length s) s) - 1)%nat.
  f_equal. lia.
Qed.

Lemma sub_scan_head m repl prev c r k :
  m prev (String c r) = Some (S k) ->
  sub_scan m repl 0 prev (String c r)
  = repl +:+ sub_scan m repl k (Some c) r.
Proof. intros H. cbn [sub_scan]. now rewrite H. Qed.

(** The first substitution, on a text that starts with the literal. *)
Lemma sub_anonymous_head rest :
  exists tail,
    sub anonymous_pattern "Anonymous participant"
      ("Anonymous participant" +:+ rest)
    = "Anonymous participant" +:+ tail.
Proof.
  destruct (anonymous_pattern_head None "Anonymous participant" rest eq_refl)
    as [k Hk].
  unfold sub. rewrite append_cons in *.
  rewrite (sub_scan_head _ _ _ _ _ _ Hk). eexists. reflexivity.
Qed.

End FacebookNamesProofs.

(** X3. [clean_username] never returns an empty name: the result is a
    line of one, two or three words with single spaces between them,
    whatever the text given, missing or empty texts included. *)
Theorem clean_username_one_to_three_words :
  forall x,
    FacebookNames.clean_username x <> EmptyString /\
    (1 <= List.length (FacebookNames.split (FacebookNames.clean_username x))
     <= 3)%nat /\
    Py.join " " (FacebookNames.split (FacebookNames.clean_username x))
    = FacebookNames.clean_username x.
Proof.
  intros x. pose proof (clean_username_shape x) as [Hlen Hjoin].
  cbv zeta in Hlen, Hjoin. split; [|split; assumption].
  intros E. rewrite E in Hlen. simpl in Hlen. lia.
Qed.

(** X4. A user name text that starts with "Anonymous participant", however
    often repeated or numbered and whatever follows, is cleaned to exactly
    "Anonymous participant". *)
Theorem clean_username_anonymous_participant :
  forall rest,
    FacebookNames.clean_username (Some ("Anonymous participant" +:+ rest))
    = "Anonymous participant".
Proof.
  intros rest. unfold FacebookNames.clean_username.
  destruct (sub_anonymous_head rest) as [tail ->].
  unfold Re.sub. rewrite (proj1 (sub_spaces_squeeze _)).
  rewrite !append_cons, append_nil. reflexivity.
Qed.

(** X5. The token [extract_time_from_text] takes out of a text (digits
    and one unit letter) converts to the same number of hours as the text
    itself; where it finds no token, and for a missing or empty text, the
    conversion of the text gives [None] too. *)
Theorem extract_time_token_converts_alike :
  (forall text,
     match FacebookNames.extract_time_from_text (Some text) with
     | Some tok =>
         (exists ds u,
            tok = ds +:+ String u EmptyString /\
            ds <> EmptyString /\
            Py.all_chars Py.is_digit ds = true /\
            FacebookTime.is_unit u = true) /\
         FacebookTime.fb_time_to_hours_from_comment (Py.Str tok)
         = FacebookTime.fb_time_to_hours_from_comment (Py.Str text)
     | None =>
         FacebookTime.fb_time_to_hours_from_comment (Py.Str text)
         = Run.Ok None
     end) /\
  FacebookNames.extract_time_from_text None = None /\
  FacebookNames.extract_time_from_text (Some EmptyString) = None.
Proof.
  split; [|split; reflexivity].
  intros text. unfold FacebookNames.extract_time_from_text.
  destruct (Py.is_empty text) eqn:Ee.
  { apply is_empty_true in Ee. subst text. reflexivity. }
  unfold FacebookTime.fb_time_to_hours_from_comment at 2 3.
  destruct (FacebookTime.time_search None (Py.lower text))
    as [[ds u]|] eqn:E; [|reflexivity].
  apply time_search_sound in E as Htok.
  destruct Htok as (pre & sp & post & _ & Hne & Hd & _ & Hu & _).
  split; [exists ds, u; auto|].
  unfold FacebookTime.fb_time_to_hours_from_comment.
  rewrite lower_append, (lower_all _ _ lower_digit Hd).
  cbn [Py.lower]. rewrite (unit_lower _ Hu).
  pose proof (time_search_token ds EmptyString u Hne Hd eq_refl Hu) as Hs.
  rewrite append_nil in Hs. rewrite Hs. reflexivity.
Qed.

(** ** The container parsers of linkedin_scraper.py and reddit_scraper.py *)

Section MoreContainerProofs.
Import Py Run.

Lemma li_parse_comment_cases url b :
  (LinkedInParse.accepted b = true /\
   exists c, LinkedIn.parse_comment url b = Ok (Some c) /\
             LinkedIn.block c = b /\ LinkedInParse.well_parsed url c) \/
  (LinkedInParse.accepted b = false /\
   (LinkedIn.parse_comment url b = Ok None \/
    exists e, LinkedIn.parse_comment url b = Raise e)).
Proof.
  unfold LinkedInParse.accepted, LinkedIn.parse_comment.
  destruct (li_user b) as [u|e] eqn:E1; cbn [rbind]; [|right; eauto].
  destruct (li_comment b) as [t|e] eqn:E2; cbn [rbind]; [|right; eauto].
  destruct (String.length (strip t) <? 5)%nat eqn:E3.
  - right. apply Nat.ltb_lt in E3. split; [|left; reflexivity].
    apply Nat.leb_gt. lia.
  - apply Nat.ltb_ge in E3. left. split; [now apply Nat.leb_le|].
    eexists. split; [reflexivity|]. split; [reflexivity|].
    unfold LinkedInParse.well_parsed. simpl. auto.
Qed.

Lemma li_parse_comments_from url blocks : forall data,
  exists data',
    LinkedIn.parse_comments_from data blocks url = Ok (data ++ data')%list /\
    map LinkedIn.block data' = List.filter LinkedInParse.accepted blocks /\
    Forall (LinkedInParse.well_parsed url) data'.
Proof.
  induction blocks as [|b rest IH]; intros data.
  - exists []. simpl. rewrite app_nil_r. auto.
  - simpl.
    destruct (li_parse_comment_cases url b)
      as [[Hacc (c & -> & Hblk & Hc)]
         | [Hacc [-> | (e & ->)]]];
      rewrite Hacc; simpl.
    + destruct (IH (data ++ [c])%list) as (d' & -> & Hm & Hf).
      exists (c :: d'). rewrite <- app_assoc. simpl.
      split; [reflexivity|]. split; [now rewrite Hblk, Hm|].
      constructor; auto.
    + destruct (IH data) as (d' & -> & Hm & Hf). eauto.
    + destruct (IH data) as (d' & -> & Hm & Hf). eauto.
Qed.

Context (env : Env).

(** One container of [extract_comments]: what its [try] body returns. *)
Lemma rd_extract_block_spec url :
  hoare (fun _ => True) (Reddit.extract_block env url)
    (fun o _ => match o with
                | Some c => RedditExtract.well_extracted url c
                | None => True
                end)
    (fun _ _ => True).
Proof.
  unfold Reddit.extract_block.
  eapply hoare_bind; [apply hoare_trivial | intros t].
  destruct (is_empty (strip t) || (String.length (strip t) <? 5)%nat);
    [apply hoare_ret; auto|].
  eapply hoare_bind; [apply hoare_trivial | intros author].
  destruct (Reddit.clean_comment_text (Str (strip t))) as [text|] eqn:Ec;
    [|apply hoare_ret; auto].
  destruct (is_empty text || (String.length text <? 5)%nat) eqn:El;
    [apply hoare_ret; auto|].
  apply hoare_ret. intros w _.
  apply orb_false_iff in El as [_ El]. apply Nat.ltb_ge in El.
  split; [reflexivity|]. split; [exact El|]. exists (strip t). exact Ec.
Qed.

Lemma rd_extract_block_appends url :
  appends (fun _ => false) (fun _ => True) (Reddit.extract_block env url).
Proof.
  unfold Reddit.extract_block. unfold_ext.
  apply appends_bind; [apply appends_ext; auto | intros t].
  destruct (_ || _); [apply appends_ret|].
  apply appends_bind.
  - eapply (appends_try_except_all _ _ (fun _ => True)).
    + apply appends_bind; [apply appends_ext; auto | intros ?].
      apply appends_bind; [apply appends_ext; auto | intros ?].
      apply appends_ret.
    + apply appends_ret.
  - intros author. destruct (Reddit.clean_comment_text _); [|apply appends_ret].
    destruct (_ || _); apply appends_ret.
Qed.

Lemma rd_extract_blocks_valid url n : forall comments w,
  exists cs w',
    Reddit.extract_blocks env n url comments w
    = (Ok (comments ++ cs)%list, w') /\
    Forall (RedditExtract.well_extracted url) cs.
Proof.
  induction n as [|n IH]; intros comments w.
  - exists [], w. simpl. rewrite app_nil_r. repeat split; auto.
  - cbn [Reddit.extract_blocks]. unfold bind at 1, try_except_all.
    unfold bind at 1.
    pose proof (rd_extract_block_spec url w I) as Hspec.
    destruct (Reddit.extract_block env url w) as [[[c|]|e] w1]; unfold ret.
    + destruct (IH (comments ++ [c])%list w1) as (cs & w' & -> & Hcs).
      exists (c :: cs), w'. rewrite <- app_assoc. simpl.
      split; [reflexivity|]. constructor; assumption.
    + destruct (IH comments w1) as (cs & w' & -> & Hcs). eauto.
    + destruct (IH comments w1) as (cs & w' & -> & Hcs). eauto.
Qed.

(** One container: the [try] around its body gives the record of
    [record_at], if any, after the calls of [calls]. *)
Lemma rd_container_run url comments w :
  try_except_all
    (o <- Reddit.extract_block env url ;;
     ret match o with
         | Some c => (comments ++ [c])%list
         | None => comments
         end)
    (ret comments) w
  = (Ok (comments
         ++ option_list (RedditExtract.record_at env url (tick w)))%list,
     with_tick (RedditExtract.calls env (tick w) + tick w) w).
Proof.
  unfold RedditExtract.record_at, RedditExtract.calls,
    RedditExtract.author_at, RedditExtract.readable.
  unfold try_except_all, Reddit.extract_block, ext_text, ext_unit.
  unfold bind at 1. unfold bind at 1. unfold ext at 1.
  destruct (raises env (tick w)) as [e0|] eqn:R0.
  { cbn [option_list]. now rewrite app_nil_r. }
  destruct (is_empty (strip (texts env (tick w)))
            || (String.length (strip (texts env (tick w))) <? 5)%nat).
  { cbn [ret option_list]. now rewrite app_nil_r. }
  unfold bind at 1. unfold try_except_all, bind at 1. unfold ext at 1.
  cbn [tick with_tick].
  destruct (raises env (S (tick w))) as [e1|] eqn:R1.
  { cbn [ret].
    destruct (Reddit.clean_comment_text _) as [text|];
      [|cbn [ret option_list]; now rewrite app_nil_r].
    destruct (is_empty text || (String.length text <? 5)%nat);
      cbn [ret option_list]; [now rewrite app_nil_r | reflexivity]. }
  unfold bind at 1. unfold ext at 1. cbn [tick with_tick].
  destruct (raises env (S (S (tick w)))) as [e2|] eqn:R2.
  { cbn [ret].
    destruct (Reddit.clean_comment_text _) as [text|];
      [|cbn [ret option_list]; now rewrite app_nil_r].
    destruct (is_empty text || (String.length text <? 5)%nat);
      cbn [ret option_list]; [now rewrite app_nil_r | reflexivity]. }
  cbn [ret].
  destruct (Reddit.clean_comment_text _) as [text|];
    [|cbn [ret option_list]; now rewrite app_nil_r].
  destruct (is_empty text || (String.length text <? 5)%nat);
    cbn [ret option_list]; [now rewrite app_nil_r | reflexivity].
Qed.

Lemma rd_extract_blocks_run url n : forall comments w,
  Reddit.extract_blocks env n url comments w
  = (Ok (comments
         ++ omap (RedditExtract.record_at env url)
              (RedditExtract.first_calls env n (tick w)))%list,
     with_tick (RedditExtract.end_call env n (tick w)) w).
Proof.
  induction n as [|n IH]; intros comments w.
  - simpl. rewrite app_nil_r. unfold ret. f_equal. now destruct w.
  - cbn [Reddit.extract_blocks RedditExtract.first_calls
           RedditExtract.end_call]. unfold bind at 1.
    rewrite rd_container_run, IH. cbn [tick with_tick].
    rewrite <- app_assoc. cbn [omap list_omap].
    destruct (RedditExtract.record_at env url (tick w)); reflexivity.
Qed.

Lemma rd_calls_bounds t :
  (1 <= RedditExtract.calls env t <= 3)%nat.
Proof.
  unfold RedditExtract.calls.
  destruct (RedditExtract.readable env t); [|lia].
  destruct (raises env (S t)); lia.
Qed.

Lemma rd_end_call_bounds n : forall t,
  (t + n <= RedditExtract.end_call env n t <= t + 3 * n)%nat.
Proof.
  induction n as [|n IH]; intros t; cbn [RedditExtract.end_call]; [lia|].
  pose proof (rd_calls_bounds t). specialize (IH (RedditExtract.calls env t + t)%nat).
  lia.
Qed.

Lemma rd_first_calls_length n : forall t,
  List.length (RedditExtract.first_calls env n t) = n.
Proof.
  induction n as [|n IH]; intros t; simpl; [reflexivity | now rewrite IH].
Qed.

End MoreContainerProofs.

(** X6. [parse_comments] (LinkedIn) never raises, whatever the lookups
    raise: it returns the records of exactly the containers whose name and
    text are found and whose text has at least 5 characters, in order, each
    with the URL given, and with no time where the time element is
    missing. *)
Theorem li_parse_comments_skips_malformed :
  forall blocks url,
    exists data,
      LinkedIn.parse_comments blocks url = Run.Ok data /\
      map LinkedIn.block data = List.filter LinkedInParse.accepted blocks /\
      Forall (LinkedInParse.well_parsed url) data.
Proof.
  intros blocks url.
  destruct (li_parse_comments_from url blocks []) as (d & Hd & Hm & Hf).
  exists d. auto.
Qed.

(** X7. The loop over the containers in [extract_comments] (Reddit) never
    raises, whatever the driver raises on a container, and goes through
    all [n] of them in order, each with one to three driver calls.  It
    appends the record of exactly those containers whose text is read
    without an error, has at least 5 characters, and cleans to at least 5
    characters; each record carries the URL given and the cleaned text.
    It writes nothing and leaves the session as it is. *)
Theorem rd_extract_blocks_never_raises :
  forall (env : Run.Env) n post_url comments w,
    let visited := RedditExtract.first_calls env n (Run.tick w) in
    let cs := omap (RedditExtract.record_at env post_url) visited in
    Reddit.extract_blocks env n post_url comments w
    = (Run.Ok (comments ++ cs)%list,
       Run.with_tick (RedditExtract.end_call env n (Run.tick w)) w) /\
    List.length visited = n /\
    (Run.tick w + n <= RedditExtract.end_call env n (Run.tick w)
     <= Run.tick w + 3 * n)%nat /\
    Forall (RedditExtract.well_extracted post_url) cs.
Proof.
  intros env n url comments w. cbv zeta.
  split; [apply rd_extract_blocks_run|].
  split; [apply rd_first_calls_length|].
  split; [apply rd_end_call_bounds|].
  destruct (rd_extract_blocks_valid env url n comments w)
    as (cs & w' & Hrun & Hcs).
  rewrite rd_extract_blocks_run in Hrun. injection Hrun as Hrun _.
  apply app_inv_head in Hrun. now rewrite Hrun.
Qed.

(** On a page of four containers, the second too short and the third
    stale, the loop keeps the first and the fourth; the user link of the
    fourth is missing, and its author is unknown. *)
Lemma rd_extract_blocks_four_containers :
  exists w',
    Reddit.extract_blocks RedditExtract.four_containers 4 "u" []
      (Run.start Reddit.imports)
    = (Run.Ok [ {| Reddit.post_url := "u"; Reddit.author := "alice";
                   Reddit.text := "a first comment" |};
                {| Reddit.post_url := "u"; Reddit.author := "Unknown";
                   Reddit.text := "another comment" |} ], w') /\
    Run.tick w' = 7%nat /\
    RedditExtract.first_calls RedditExtract.four_containers 4 0
    = [0; 3; 4; 5]%nat.
Proof. eexists. split; [vm_compute; reflexivity|]. split; reflexivity. Qed.

(** ** Cleaning never lengthens; the shape of a cleaned Reddit text *)

Section CleaningBounds.
Import Py Re Facebook.

Lemma sub_scan_length m repl s : forall skip prev,
  (String.length repl <= 1)%nat ->
  (String.length (sub_scan m repl skip prev s)
   + Nat.min skip (String.length s)
   <= String.length s)%nat.
Proof.
  induction s as [|c r IH]; intros skip prev Hrepl; cbn [sub_scan];
    [simpl; lia|].
  destruct skip as [|k].
  - destruct (m prev (String c r)) as [[|k]|].
    + specialize (IH 0%nat (Some c) Hrepl). simpl in *. lia.
    + specialize (IH k (Some c) Hrepl). rewrite length_append.
      simpl String.length. lia.
    + specialize (IH 0%nat (Some c) Hrepl). simpl in *. lia.
  - specialize (IH k (Some c) Hrepl). simpl String.length.
    simpl Nat.min. lia.
Qed.

Lemma sub_length m repl s :
  (String.length repl <= 1)%nat ->
  (String.length (sub m repl s) <= String.length s)%nat.
Proof.
  intros H. pose proof (sub_scan_length m repl s 0 None H). unfold sub.
  simpl in *. lia.
Qed.

Lemma rstrip_length s : (String.length (rstrip s) <= String.length s)%nat.
Proof.
  induction s as [|c r IH]; simpl; [lia|].
  destruct (is_space c && is_empty (rstrip r)); simpl; lia.
Qed.

Lemma strip_length s : (String.length (strip s) <= String.length s)%nat.
Proof.
  unfold strip, lstrip. etransitivity; [apply rstrip_length|].
  apply drop_while_length.
Qed.

Lemma replace_newlines_length s :
  String.length (replace_newlines s) = String.length s.
Proof. induction s as [|c r IH]; simpl; [reflexivity | now rewrite IH]. Qed.

End CleaningBounds.

(** X8. [clean_comment] (Facebook) never lengthens a text: every step
    removes characters or puts one space where it removes at least one. *)
Theorem clean_comment_never_longer :
  forall comment_text,
    (String.length (Facebook.clean_comment comment_text)
     <= String.length comment_text)%nat.
Proof.
  intros x. unfold Facebook.clean_comment.
  destruct (Py.is_empty x); [simpl; lia|].
  unfold Facebook.normalize_spaces, Facebook.remove_tokens.
  repeat first
    [ etransitivity; [apply strip_length|]
    | etransitivity; [apply sub_length; simpl; lia|]
    | rewrite replace_newlines_length ].
  apply Nat.le_refl.
Qed.

(** X9. What [clean_comment_text] (Reddit) returns for a text is [None] or
    one line that is not empty, has no whitespace at its ends and holds no
    line break; for a value that is not a text it is [None]. *)
Theorem rd_clean_comment_text_one_line :
  (forall raw s,
     Reddit.clean_comment_text (Py.Str raw) = Some s ->
     s <> EmptyString /\ Py.strip s = s /\
     Py.all_chars Reddit.not_break s = true) /\
  Reddit.clean_comment_text Py.NoneVal = None /\
  (forall n, Reddit.clean_comment_text (Py.Num n) = None).
Proof.
  split; [|split; [reflexivity | intros n; reflexivity]].
  intros raw s. unfold Reddit.clean_comment_text.
  pose proof (kept_lines raw) as Hk.
  destruct (List.filter Reddit.keep_line _) as [|l ls] eqn:E;
    [discriminate|].
  remember (Py.join " " (l :: ls)) as j eqn:Ej. intros [= <-].
  pose proof Hk as Hk'. apply Forall_cons in Hk' as [(Ht & Hs & _) _].
  assert (Ht' : Py.truthy (Py.strip l) = true) by now rewrite Hs.
  destruct (strip_head l Ht') as (c & r & Hl & Hc). rewrite Hs in Hl.
  destruct (join_head l ls c r Hl) as [r' Hj]. rewrite <- Ej in Hj.
  split; [|split].
  - pose proof (strip_nonspace_head c r' Hc) as Hne. rewrite <- Hj in Hne.
    intros E0. rewrite E0 in Hne. discriminate.
  - apply strip_idem.
  - apply all_chars_strip. rewrite Ej. apply join_not_break.
    eapply Forall_impl; [exact Hk|]. intros x (_ & _ & Hx). exact Hx.
Qed.

Lemma rd_clean_comment_text_one_line_witness :
  exists s,
    Reddit.clean_comment_text
      (Py.Str ("  nice post  " +:+ Run.nl +:+ "Reply" +:+ Run.nl +:+ "12"
               +:+ Run.nl +:+ " thanks "))
    = Some s /\
    s = "nice post thanks" /\ Py.strip s = s.
Proof.
  exists "nice post thanks".
  assert (H : Reddit.clean_comment_text
                (Py.Str ("  nice post  " +:+ Run.nl +:+ "Reply" +:+ Run.nl
                         +:+ "12" +:+ Run.nl +:+ " thanks "))
              = Some "nice post thanks") by (vm_compute; reflexivity).
  split; [exact H|]. split; [reflexivity|].
  exact (proj1 (proj2 (proj1 rd_clean_comment_text_one_line _ _ H))).
Defined.

(** X10. The counts of recent comments in the result of the Facebook
    script are ordered: those of the last hour are among those of the
    last 24 hours, which are among all comments; the converted column has
    one entry per comment. *)
Theorem fb_recent_counts_ordered :
  forall rows hours,
    Facebook.hours_ago rows = Run.Ok hours ->
    List.length hours = List.length rows /\
    (0 <= Facebook.count_within 1 hours
     <= Facebook.count_within 24 hours)%Z /\
    (Facebook.count_within 24 hours <= Run.len rows)%Z.
Proof.
  intros rows hours Hrun.
  assert (Hlen : List.length hours = List.length rows).
  { revert hours Hrun. induction rows as [|row rows IH]; intros hours.
    - now intros [= <-].
    - cbn [Facebook.hours_ago].
      destruct (FacebookTime.fb_time_to_hours_from_comment _) as [h|e];
        [|discriminate]. cbn [Run.rbind].
      destruct (Facebook.hours_ago rows) as [hs|e]; [|discriminate].
      cbn [Run.rbind]. intros [= <-]. simpl. now rewrite (IH hs eq_refl). }
  split; [exact Hlen|]. unfold Run.len. rewrite <- Hlen. clear Hrun Hlen.
  unfold Facebook.count_within, Run.len.
  induction hours as [|[n|] hours IH]; [simpl; lia| |].
  - cbn [List.filter].
    destruct (Qle_bool (Py.num_val n) (inject_Z 1)) eqn:E1.
    + assert (E24 : Qle_bool (Py.num_val n) (inject_Z 24) = true).
      { apply Qle_bool_iff. apply Qle_bool_iff in E1.
        eapply Qle_trans; [exact E1|]. rewrite <- Zle_Qle. lia. }
      rewrite E24. simpl List.length. lia.
    + destruct (Qle_bool (Py.num_val n) (inject_Z 24)); simpl List.length; lia.
  - cbn [List.filter]. simpl List.length. lia.
Qed.

Lemma fb_recent_counts_ordered_witness :
  exists hours,
    Facebook.hours_ago
      [FacebookSched.sample_comment_at "A" "nice post" "45m";
       FacebookSched.sample_comment_at "B" "well said" "3h";
       FacebookSched.sample_comment_at "C" "thank you" "2d"]
    = Run.Ok hours /\
    Facebook.count_within 1 hours = 1%Z /\
    Facebook.count_within 24 hours = 2%Z /\
    (Facebook.count_within 24 hours <= 3)%Z.
Proof.
  eexists. split; [vm_compute; reflexivity|].
  split; [reflexivity|]. split; [reflexivity|].
  exact (proj2 (proj2 (fb_recent_counts_ordered
                         [FacebookSched.sample_comment_at "A" "nice post" "45m";
                          FacebookSched.sample_comment_at "B" "well said" "3h";
                          FacebookSched.sample_comment_at "C" "thank you" "2d"]
                         _ eq_refl))).
Defined.

Section ScrollBound.
Import Py Run Instagram.
Context (env : Env).

Lemma ext_tick {A} (get : Env -> nat -> A) w :
  match ext env get w with
  | (r, w') =>
      tick w' = S (tick w) /\ stdout w' = stdout w /\
      session w' = session w /\
      (forall e, r = Raise e -> from_env env e)
  end.
Proof.
  unfold ext. destruct (raises env (tick w)) as [e|] eqn:R;
    cbn [tick stdout session with_tick]; repeat split; try discriminate.
  intros e' [= <-]. now exists (tick w).
Qed.

Lemma scroll_loop_bound n : forall last st w,
  match scroll_loop env n last st w with
  | (r, w') =>
      (tick w <= tick w' <= tick w + 2 * n)%nat /\
      stdout w' = stdout w /\ session w' = session w /\
      (forall e, r = Raise e -> from_env env e)
  end.
Proof.
  induction n as [|n IH]; intros last st w; cbn [scroll_loop].
  - unfold ret. repeat split; try lia. discriminate.
  - unfold bind, ext_unit, ext_number.
    pose proof (ext_tick (fun _ _ => tt) w) as H1.
    destruct (ext env (fun _ _ => tt) w) as [[[]|e] w1];
      destruct H1 as (Ht & Ho & Hs & He).
    2:{ repeat split; try lia; auto. }
    pose proof (ext_tick numbers w1) as H2.
    destruct (ext env numbers w1) as [[z|e] w2];
      destruct H2 as (Ht2 & Ho2 & Hs2 & He2).
    2:{ repeat split; try lia; try congruence.
        intros e0 [= <-]. now apply He2. }
    assert (Hrec : forall l s,
              match scroll_loop env n l s w2 with
              | (r, w') =>
                  (tick w <= tick w' <= tick w + 2 * S n)%nat /\
                  stdout w' = stdout w /\ session w' = session w /\
                  (forall e, r = Raise e -> from_env env e)
              end).
    { intros l s. pose proof (IH l s w2) as H.
      destruct (scroll_loop env n l s w2) as [r w'].
      destruct H as (Hb & Hout & Hses & Hex).
      repeat split; try lia; try congruence; auto. }
    destruct (z =? last)%Z; [|apply Hrec].
    destruct (st + 1 >=? 5)%Z; [|apply Hrec].
    unfold ret. repeat split; try lia; try congruence; discriminate.
Qed.

Lemma scroll_panel_bound n w :
  match try_except (ext_unit env ;; scroll_loop env n (-1) 0)
          (fun e => print ("❌ Error scrolling comments: "
                           +:+ str_of_exn e)) w with
  | (r, w') =>
      (tick w < tick w' <= tick w + (1 + 2 * n))%nat /\
      session w' = session w /\
      (r = Ok tt \/
       exists e, r = Raise e /\ is_Exception e = false /\ from_env env e) /\
      (stdout w' = stdout w \/
       exists e, stdout w'
                 = (stdout w
                    ++ [Print ("❌ Error scrolling comments: "
                               +:+ str_of_exn e)])%list)
  end.
Proof.
  unfold try_except, bind, ext_unit.
  pose proof (ext_tick (fun _ _ => tt) w) as H1.
  destruct (ext env (fun _ _ => tt) w) as [[[]|e] w1];
    destruct H1 as (Ht & Ho & Hs & He).
  - pose proof (scroll_loop_bound n (-1)%Z 0%Z w1) as H2.
    destruct (scroll_loop env n (-1) 0 w1) as [[[]|e] w2];
      destruct H2 as (Hb & Hout & Hses & Hex).
    + split; [lia|]. split; [congruence|].
      split; [left; reflexivity | left; congruence].
    + destruct (is_Exception e) eqn:Ee.
      * unfold print, emit. cbn [tick session stdout with_stdout].
        split; [lia|]. split; [congruence|].
        split; [left; reflexivity|]. right. exists e. now rewrite Hout, Ho.
      * split; [lia|]. split; [congruence|].
        split; [right; exists e; auto | left; congruence].
  - destruct (is_Exception e) eqn:Ee.
    + unfold print, emit. cbn [tick session stdout with_stdout].
      split; [lia|]. split; [congruence|].
      split; [left; reflexivity|]. right. exists e. now rewrite Ho.
    + split; [lia|]. split; [congruence|].
      split; [right; exists e; auto | left; congruence].
Qed.

End ScrollBound.

(** X11. [scroll_comment_panel] (Instagram) is bounded and contained: it
    makes at least one and at most 161 driver calls (one lookup and two
    per round of at most 80 rounds), leaves the session as it is, and
    never raises an error of class [Exception]: such an error ends the
    scrolling with one message. *)
Theorem ig_scroll_comment_panel_bounded :
  forall (env : Run.Env) w,
    let r := Instagram.scroll_comment_panel env w in
    (Run.tick w < Run.tick (snd r) <= Run.tick w + 161)%nat /\
    Run.session (snd r) = Run.session w /\
    (fst r = Run.Ok tt \/
     exists e, fst r = Run.Raise e /\ Run.is_Exception e = false /\
               Run.from_env env e) /\
    (Run.stdout (snd r) = Run.stdout w \/
     exists e, Run.stdout (snd r)
               = (Run.stdout w
                  ++ [Run.Print ("❌ Error scrolling comments: "
                                 +:+ Run.str_of_exn e)])%list).
Proof.
  intros env w. cbv zeta. unfold Instagram.scroll_comment_panel.
  pose proof (scroll_panel_bound env 80 w) as H.
  destruct (Run.try_except _ _ w) as [r w']. cbn [fst snd].
  destruct H as (Hb & Hs & Hr & Ho). split; [|auto].
  change (1 + 2 * 80)%nat with 161%nat in Hb. exact Hb.
Qed.

(** ** The counters of the reply loop of facebook_scraper.py *)

Section FacebookCounters.
Import Py Run Facebook FacebookSched.
Context (env : Env) (REPLY_LIMIT : Z).

Lemma hoare_assume {A} (F : Prop) (c : M A) Q E :
  (F -> hoare (fun _ => True) c Q E) -> hoare (fun _ => F) c Q E.
Proof. intros H w HF. exact (H HF w I). Qed.

(** One pass of the loop body, as far as the loop variables go. *)
Lemma fb_reply_body_vars total row s :
  hoare (fun _ => True) (reply_body env REPLY_LIMIT total row s)
    (fun r _ =>
       match r with
       | Break s' => s' = s /\ (REPLY_LIMIT <= reply_count s)%Z
       | Next s' =>
           (reply_count s < REPLY_LIMIT)%Z /\
           ((s' = s /\ c_username row ∈ replied_users s) \/
            ((c_username row ∉ replied_users s) /\
             exists reply posted,
               replies_data s'
               = (replies_data s ++ [{| username := c_username row;
                                        reply_text := reply;
                                        success := posted |}])%list /\
               reply_count s'
               = (if posted then reply_count s + 1 else reply_count s)%Z /\
               failed_count s'
               = (if posted then failed_count s else failed_count s + 1)%Z /\
               replied_users s'
               = (if posted then {[c_username row]} ∪ replied_users s
                  else replied_users s)))
       end)
    (fun _ _ => True).
Proof.
  unfold reply_body.
  destruct (Z.geb_spec (reply_count s) REPLY_LIMIT) as [Hge|Hlt].
  { apply hoare_ret. intros w _. split; [reflexivity | lia]. }
  destruct (bool_decide (c_username row ∈ replied_users s)) eqn:Hin.
  { apply bool_decide_eq_true in Hin. apply hoare_ret. intros w _.
    split; [lia|]. left. auto. }
  apply bool_decide_eq_false in Hin.
  eapply hoare_bind; [apply hoare_trivial | intros ?].
  eapply hoare_bind; [apply hoare_trivial | intros ?].
  eapply hoare_bind; [apply hoare_trivial | intros ?].
  eapply hoare_bind; [apply hoare_trivial | intros reply].
  eapply hoare_bind; [apply hoare_trivial | intros ?].
  eapply hoare_bind; [apply hoare_trivial | intros ?].
  eapply hoare_bind; [apply hoare_trivial | intros ?].
  eapply hoare_bind; [apply hoare_trivial | intros posted].
  eapply hoare_bind with
    (R := fun s1 _ =>
            replies_data s1 = replies_data s /\
            reply_count s1
            = (if posted then reply_count s + 1 else reply_count s)%Z /\
            failed_count s1
            = (if posted then failed_count s else failed_count s + 1)%Z /\
            replied_users s1
            = (if posted then {[c_username row]} ∪ replied_users s
               else replied_users s)).
  { destruct posted.
    - eapply hoare_bind; [apply hoare_trivial | intros ?].
      apply hoare_ret. intros w _. simpl. auto.
    - eapply hoare_bind; [apply hoare_trivial | intros ?].
      apply hoare_ret. intros w _. simpl. auto. }
  intros s1. apply hoare_assume. intros (Hr & Hc & Hf & Hu).
  eapply hoare_bind; [apply hoare_trivial | intros ?].
  eapply hoare_bind; [apply hoare_trivial | intros ?].
  apply hoare_ret. intros w _. split; [lia|]. right. split; [exact Hin|].
  exists reply, posted. simpl. rewrite Hr. auto.
Qed.

Lemma counts_inv_start : counts_inv REPLY_LIMIT sched0.
Proof.
  unfold counts_inv, failures, replied_names, sched0, len; simpl.
  repeat split; try lia; try constructor.
Qed.

Lemma counts_inv_step s s' user reply posted :
  counts_inv REPLY_LIMIT s ->
  (reply_count s < REPLY_LIMIT)%Z ->
  user ∉ replied_users s ->
  replies_data s'
  = (replies_data s ++ [{| username := user; reply_text := reply;
                           success := posted |}])%list ->
  reply_count s' = (if posted then reply_count s + 1 else reply_count s)%Z ->
  failed_count s' = (if posted then failed_count s else failed_count s + 1)%Z ->
  replied_users s'
  = (if posted then {[user]} ∪ replied_users s else replied_users s) ->
  counts_inv REPLY_LIMIT s'.
Proof.
  intros (Hcnt & Hfail & H0 & Hle & Hnd & Hsub) Hlt Hnin Hr Hc Hf Hu.
  unfold counts_inv, failures, replied_names in *. rewrite Hr, Hc, Hf, Hu.
  rewrite !List.filter_app, map_app. unfold len in *.
  destruct posted; simpl; rewrite ?length_app, ?app_nil_r; simpl.
  - repeat split; try lia.
    + apply NoDup_app. split; [exact Hnd|]. split.
      * intros x Hx [->|[]]%list_elem_of_In. apply Hnin, Hsub.
        now apply list_elem_of_In.
      * apply NoDup_singleton.
    + intros v [Hi|[Hv|[]]]%in_app_iff;
        [ apply elem_of_union_r; auto
        | rewrite <- Hv; apply elem_of_union_l, elem_of_singleton;
          reflexivity ].
  - repeat split; try lia; auto.
Qed.

Lemma fb_reply_loop_vars total rows :
  hoare (fun _ => True) (reply_loop env REPLY_LIMIT total rows)
    (fun p _ =>
       counts_inv REPLY_LIMIT (fst p) /\
       (snd p = Broke -> (REPLY_LIMIT <= reply_count (fst p))%Z))
    (fun _ _ => True).
Proof.
  unfold reply_loop. eapply hoare_conseq.
  - apply (hoare_for_each (reply_body env REPLY_LIMIT total)
             (fun _ s _ => counts_inv REPLY_LIMIT s)
             (fun s _ => counts_inv REPLY_LIMIT s
                         /\ (REPLY_LIMIT <= reply_count s)%Z)
             (fun _ _ => True)).
    intros x r s w Hinv.
    pose proof (fb_reply_body_vars total x s w I) as H.
    destruct (reply_body env REPLY_LIMIT total x s w)
      as [[[s'|s']|e] w']; [| |exact I].
    + destruct H as (-> & Hge). auto.
    + destruct H as (Hlt
                     & [[-> _]|(Hnin & reply & posted & Hr & Hc & Hf & Hu)]);
        [auto|]. eapply counts_inv_step; eauto.
  - intros w _. apply counts_inv_start.
  - intros [s ex] w. simpl. destruct ex.
    + intros Hi. split; [exact Hi | discriminate].
    + intros (? & ?). auto.
  - auto.
Qed.

End FacebookCounters.

(** X12. In the Facebook reply loop with a limit that is not negative,
    [reply_count] counts the successful entries of [replies_data] and
    [failed_count] the failed ones, so the two add up to the number of
    entries; the successes never exceed the limit, and the loop is left by
    [break] only with the count at the limit. *)
Theorem fb_reply_loop_counters :
  forall (env : Run.Env) (REPLY_LIMIT total : Z) rows w s ex w',
    (0 <= REPLY_LIMIT)%Z ->
    Facebook.reply_loop env REPLY_LIMIT total rows w = (Run.Ok (s, ex), w') ->
    Run.reply_count s
    = Run.len (List.filter Run.success (Run.replies_data s)) /\
    Run.failed_count s
    = Run.len (FacebookSched.failures (Run.replies_data s)) /\
    (Run.reply_count s + Run.failed_count s
     = Run.len (Run.replies_data s))%Z /\
    (Run.reply_count s <= REPLY_LIMIT)%Z /\
    (ex = Run.Broke -> Run.reply_count s = REPLY_LIMIT).
Proof.
  intros env REPLY_LIMIT total rows w s ex w' Hlim Hrun.
  pose proof (fb_reply_loop_vars env REPLY_LIMIT total rows w I) as H.
  rewrite Hrun in H. simpl in H.
  destruct H as ((Hc & Hf & H0 & Hle & _ & _) & Hb).
  split; [auto|]. split; [auto|]. split.
  - rewrite <- Hc, <- Hf. unfold FacebookSched.failures, Run.len.
    clear. induction (Run.replies_data s) as [|r rs IH]; [reflexivity|].
    simpl. destruct (Run.success r); simpl; lia.
  - split; [auto|]. intros ->. specialize (Hb eq_refl). specialize (Hle Hlim).
    lia.
Qed.

Lemma fb_reply_loop_counters_witness :
  exists s ex w',
    Facebook.reply_loop
      (Run.failing_at 0 Run.ServiceError
         (Run.failing_at 37 Run.NoSuchElementException Run.calm_env)) 5 3
      [Facebook.sample_comment "A" "first comment";
       Facebook.sample_comment "B" "second comment"]
      (Run.start Facebook.imports)
    = (Run.Ok (s, ex), w') /\
    (Run.reply_count s + Run.failed_count s
     = Run.len (Run.replies_data s))%Z /\
    (Run.reply_count s <= 5)%Z.
Proof.
  destruct (Facebook.reply_loop
              (Run.failing_at 0 Run.ServiceError
                 (Run.failing_at 37 Run.NoSuchElementException Run.calm_env))
              5 3
              [Facebook.sample_comment "A" "first comment";
               Facebook.sample_comment "B" "second comment"]
              (Run.start Facebook.imports)) as [[[s ex]|e] w'] eqn:E.
  - exists s, ex, w'. split; [reflexivity|].
    destruct (fb_reply_loop_counters _ 5 _ _ _ _ _ _ ltac:(lia) E)
      as (_ & _ & Hsum & Hle & _). auto.
  - vm_compute in E. discriminate E.
Defined.

(** X13. In the Facebook reply loop no user is replied to successfully
    twice: the successful entries of [replies_data] carry distinct user
    names. *)
Theorem fb_reply_loop_one_success_per_user :
  forall (env : Run.Env) (REPLY_LIMIT total : Z) rows w s ex w',
    Facebook.reply_loop env REPLY_LIMIT total rows w = (Run.Ok (s, ex), w') ->
    NoDup (Run.replied_names (Run.replies_data s)).
Proof.
  intros env REPLY_LIMIT total rows w s ex w' Hrun.
  pose proof (fb_reply_loop_vars env REPLY_LIMIT total rows w I) as H.
  rewrite Hrun in H. simpl in H.
  destruct H as ((_ & _ & _ & _ & Hnd & _) & _). exact Hnd.
Qed.

Lemma fb_reply_loop_one_success_per_user_witness :
  exists s ex w',
    Facebook.reply_loop Run.calm_env 5 3
      [Facebook.sample_comment "A" "first comment";
       Facebook.sample_comment "A" "second comment";
       Facebook.sample_comment "B" "third comment"]
      (Run.start Facebook.imports)
    = (Run.Ok (s, ex), w') /\
    Run.replied_names (Run.replies_data s) = ["A"; "B"] /\
    NoDup (Run.replied_names (Run.replies_data s)).
Proof.
  destruct (Facebook.reply_loop Run.calm_env 5 3
              [Facebook.sample_comment "A" "first comment";
               Facebook.sample_comment "A" "second comment";
               Facebook.sample_comment "B" "third comment"]
              (Run.start Facebook.imports)) as [[[s ex]|e] w'] eqn:E.
  - exists s, ex, w'. split; [reflexivity|].
    pose proof (fb_reply_loop_one_success_per_user _ _ _ _ _ _ _ _ E) as Hnd.
    split; [|exact Hnd]. vm_compute in E. injection E as <- _ _. reflexivity.
  - vm_compute in E. discriminate E.
Defined.

(** ** The links collected from the Google result pages *)

Section LinkLemmas.
Import Py Run Links.

Lemma split_head_no_query s : has_query (split_head "?" s) = false.
Proof.
  unfold has_query, split_head. induction s as [|c r IH]; [reflexivity|].
  simpl. destruct (Ascii.eqb c "?") eqn:E; simpl; [reflexivity|].
  now rewrite E.
Qed.

Lemma startswith_take_while p n : forall s,
  startswith n (take_while p s) = true -> startswith n s = true.
Proof.
  induction n as [|a n IH]; intros s; [reflexivity|].
  destruct s as [|c r]; [simpl; auto|]. simpl.
  destruct (p c); [|discriminate]. simpl.
  intros [Ha Hn]%andb_true_iff. rewrite Ha. simpl. now apply IH.
Qed.

Lemma contains_take_while p n : forall s,
  contains n (take_while p s) = true -> contains n s = true.
Proof.
  induction s as [|c r IH].
  - simpl. auto.
  - cbn [take_while]. destruct (p c) eqn:Hp.
    + cbn [contains]. intros [H|H]%orb_true_iff.
      * apply orb_true_iff. left.
        apply (startswith_take_while p n (String c r)).
        cbn [take_while]. now rewrite Hp.
      * apply orb_true_iff. right. now apply IH.
    + cbn [contains]. rewrite orb_false_r. intros H.
      apply orb_true_iff. left. destruct n; [reflexivity | discriminate].
Qed.

Lemma contains_split_head needle s :
  contains needle s = false -> contains needle (split_head "?" s) = false.
Proof.
  intros H. destruct (contains needle (split_head "?" s)) eqn:E;
    [|reflexivity].
  apply contains_take_while in E. congruence.
Qed.

Lemma startswith_split_head p : forall s,
  has_query p = false -> startswith p s = true ->
  startswith p (split_head "?" s) = true.
Proof.
  unfold has_query, split_head.
  induction p as [|a p IH]; intros s Hq; [reflexivity|].
  destruct s as [|c r]; [discriminate|]. simpl in Hq.
  apply orb_false_iff in Hq as [Ha Hq]. simpl.
  intros [Hc Hp]%andb_true_iff. apply Ascii.eqb_eq in Hc. subst c.
  rewrite Ha. simpl. rewrite Ascii.eqb_refl. simpl. now apply IH.
Qed.

Lemma set_add_NoDup u links : NoDup links -> NoDup (set_add u links).
Proof.
  intros H. unfold set_add. destruct (existsb (String.eqb u) links) eqn:E;
    [exact H|].
  apply NoDup_app. split; [exact H|]. split; [|apply NoDup_singleton].
  intros x Hx [Hxu|[]]%list_elem_of_In. subst x.
  assert (existsb (String.eqb u) links = true); [|congruence].
  apply existsb_exists. exists u. split; [now apply list_elem_of_In|].
  apply String.eqb_refl.
Qed.

Lemma set_add_Forall (P : string -> Prop) u links :
  P u -> Forall P links -> Forall P (set_add u links).
Proof.
  intros Hu H. unfold set_add. destruct (existsb _ _); [exact H|].
  apply Forall_app. split; [exact H | now constructor].
Qed.

Lemma frontier_add (P : string -> Prop) u links :
  P u -> frontier P links -> frontier P (set_add u links).
Proof.
  intros Hu [Hn Hf]. split; [now apply set_add_NoDup|].
  now apply set_add_Forall.
Qed.

Lemma frontier_nil P : frontier P [].
Proof. split; constructor. Qed.

Context (env : Env).

(** The search loop keeps an invariant of the links that each page
    keeps. *)
Lemma search_loop_keeps {B} (I : list string -> Prop)
    (body : Z -> list string -> M (ctl (list string))) pages
    (rest : list string -> M B) (Q : B -> State -> Prop) :
  (forall page links, I links ->
     hoare (fun _ => True) (body page links)
       (fun c _ => match c with Break l | Next l => I l end)
       (fun _ _ => True)) ->
  (forall links, I links ->
     hoare (fun _ => True) (rest links) Q (fun _ _ => True)) ->
  I [] ->
  hoare (fun _ => True) (p <- for_each body pages [] ;; rest (fst p)) Q
    (fun _ _ => True).
Proof.
  intros Hbody Hrest H0.
  eapply hoare_bind with (R := fun p _ => I (fst p)).
  - eapply hoare_conseq.
    + apply (hoare_for_each body (fun _ l _ => I l) (fun l _ => I l)
               (fun _ _ => True)).
      intros x r s w Hs. pose proof (Hbody x s Hs w Logic.I) as H.
      destruct (body x s w) as [[[l|l]|e] w']; auto.
    + intros w _. exact H0.
    + intros [l ex] w. simpl. destruct ex; auto.
    + auto.
  - intros p w Hp. apply (Hrest (fst p) Hp w Logic.I).
Qed.

Lemma hoare_then {A B} (c : M A) (k : A -> M B) Q :
  (forall a, hoare (fun _ => True) (k a) Q (fun _ _ => True)) ->
  hoare (fun _ => True) (bind c k) Q (fun _ _ => True).
Proof.
  intros H. eapply hoare_bind; [apply hoare_trivial | exact H].
Qed.

Lemma next_page_keeps (I : list string -> Prop) links :
  I links ->
  hoare (fun _ => True)
    (try_except_all
       (ext_unit env ;; ext_unit env ;; ret (Next links))
       (ret (Break links)))
    (fun c _ => match c with Break l | Next l => I l end)
    (fun _ _ => True).
Proof.
  intros Hl. eapply hoare_try_except_all with (E1 := fun _ _ => True).
  - apply hoare_then. intros ?. apply hoare_then. intros ?.
    apply hoare_ret. auto.
  - apply hoare_ret. auto.
Qed.

Lemma ig_collect_keeps n : forall links,
  frontier ig_link links ->
  hoare (fun _ => True) (Instagram.collect_hrefs env n links)
    (fun l _ => frontier ig_link l) (fun _ _ => True).
Proof.
  induction n as [|n IH]; intros links Hl; cbn [Instagram.collect_hrefs].
  - apply hoare_ret. auto.
  - apply hoare_then. intros [href|]; [|now apply IH].
    destruct (is_empty href); [now apply IH|].
    destruct (contains "instagram.com/p/" (split_head "?" href)
              && negb (contains "/reel/" (split_head "?" href))) eqn:E;
      [|now apply IH].
    apply IH. apply frontier_add; [|exact Hl].
    apply andb_true_iff in E as [E1 E2]. apply negb_true_iff in E2.
    split; [exact E1|]. split; [exact E2 | apply split_head_no_query].
Qed.

Lemma li_collect_keeps n : forall links,
  frontier li_link links ->
  hoare (fun _ => True) (LinkedIn.collect_hrefs env n links)
    (fun l _ => frontier li_link l) (fun _ _ => True).
Proof.
  induction n as [|n IH]; intros links Hl; cbn [LinkedIn.collect_hrefs].
  - apply hoare_ret. auto.
  - apply hoare_then. intros [href|]; [|now apply IH].
    destruct (truthy href
              && startswith "https://www.linkedin.com/posts/" href
              && negb (contains "google" href)) eqn:E; [|now apply IH].
    apply IH. apply frontier_add; [|exact Hl].
    apply andb_true_iff in E as [[_ E1]%andb_true_iff E2].
    apply negb_true_iff in E2.
    split; [now apply startswith_split_head|].
    split; [now apply contains_split_head | apply split_head_no_query].
Qed.

Lemma fb_collect_keeps n : forall links,
  frontier (fun l => has_query l = false) links ->
  hoare (fun _ => True) (Facebook.collect_hrefs env n links)
    (fun l _ => frontier (fun l => has_query l = false) l)
    (fun _ _ => True).
Proof.
  induction n as [|n IH]; intros links Hl; cbn [Facebook.collect_hrefs].
  - apply hoare_ret. auto.
  - apply hoare_then. intros [url|]; [|now apply IH].
    destruct (is_empty url); [now apply IH|].
    destruct (_ && _); [|now apply IH].
    apply IH. apply frontier_add; [apply split_head_no_query | exact Hl].
Qed.

End LinkLemmas.

(** X14. The links [google_search_instagram] returns are distinct, and
    each of them holds "instagram.com/p/", holds no "/reel/" and has no
    query part. *)
Theorem ig_search_links_are_posts :
  forall (env : Run.Env) (google_pages : Z) w links w',
    Instagram.google_search_instagram env google_pages w
    = (Run.Ok links, w') ->
    NoDup links /\ Forall Links.ig_link links.
Proof.
  intros env google_pages w links w' Hrun.
  assert (H : Run.hoare (fun _ => True)
                (Instagram.google_search_instagram env google_pages)
                (fun l _ => Links.frontier Links.ig_link l)
                (fun _ _ => True)).
  { unfold Instagram.google_search_instagram.
    do 5 (apply hoare_then; intros ?).
    apply (search_loop_keeps (Links.frontier Links.ig_link)
             (Instagram.search_page env google_pages)
             (Run.range google_pages)
             (fun links =>
                Run.bind
                  (Run.log_progress "searching" (Py.Int 30) 0 0
                     ("Found " +:+ Run.str_of_Z (Run.len links)
                      +:+ " Instagram posts"))
                  (fun _ => Run.ret links))).
    - intros page l Hl. unfold Instagram.search_page.
      do 3 (apply hoare_then; intros ?).
      eapply hoare_bind; [apply (ig_collect_keeps env _ _ Hl)|].
      intros l' w0 Hl'. apply (next_page_keeps env _ _ Hl' w0 I).
    - intros l Hl. apply hoare_then. intros ?. apply hoare_ret. auto.
    - apply frontier_nil. }
  specialize (H w I). rewrite Hrun in H. exact H.
Qed.

Lemma ig_search_links_are_posts_witness :
  exists links w',
    Instagram.google_search_instagram
      (Links.two_links_env "https://www.instagram.com/p/abc/?igshid=1"
                           "https://www.instagram.com/reel/xyz/")
      2 (Run.start Instagram.imports)
    = (Run.Ok links, w') /\
    links = ["https://www.instagram.com/p/abc/"] /\
    NoDup links /\ Forall Links.ig_link links.
Proof.
  destruct (Instagram.google_search_instagram
              (Links.two_links_env
                 "https://www.instagram.com/p/abc/?igshid=1"
                 "https://www.instagram.com/reel/xyz/")
              2 (Run.start Instagram.imports)) as [[links|e] w'] eqn:E.
  - exists links, w'. split; [reflexivity|].
    pose proof (ig_search_links_are_posts _ _ _ _ _ E) as H.
    split; [|exact H]. vm_compute in E. injection E as <- _. reflexivity.
  - vm_compute in E. discriminate E.
Defined.

(** X15. The links [google_search] of linkedin_scraper.py returns are
    distinct, and each of them starts with
    "https://www.linkedin.com/posts/", holds no "google" and has no query
    part. *)
Theorem li_search_links_are_posts :
  forall (env : Run.Env) (google_pages : Z) w links w',
    LinkedIn.google_search env google_pages w = (Run.Ok links, w') ->
    NoDup links /\ Forall Links.li_link links.
Proof.
  intros env google_pages w links w' Hrun.
  assert (H : Run.hoare (fun _ => True)
                (LinkedIn.google_search env google_pages)
                (fun l _ => Links.frontier Links.li_link l)
                (fun _ _ => True)).
  { unfold LinkedIn.google_search.
    do 5 (apply hoare_then; intros ?).
    apply (search_loop_keeps (Links.frontier Links.li_link)
             (LinkedIn.search_page env google_pages)
             (Run.range google_pages)
             (fun links => Run.ret links)).
    - intros page l Hl. unfold LinkedIn.search_page.
      do 3 (apply hoare_then; intros ?).
      eapply hoare_bind; [apply (li_collect_keeps env _ _ Hl)|].
      intros l' w0 Hl'. apply (next_page_keeps env _ _ Hl' w0 I).
    - intros l Hl. apply hoare_ret. auto.
    - apply frontier_nil. }
  specialize (H w I). rewrite Hrun in H. exact H.
Qed.

Lemma li_search_links_are_posts_witness :
  exists links w',
    LinkedIn.google_search
      (Links.two_links_env
         "https://www.linkedin.com/posts/ann_topic-1?utm_source=share"
         "https://www.linkedin.com/in/ann")
      2 (Run.start LinkedIn.imports)
    = (Run.Ok links, w') /\
    links = ["https://www.linkedin.com/posts/ann_topic-1"] /\
    NoDup links /\ Forall Links.li_link links.
Proof.
  destruct (LinkedIn.google_search
              (Links.two_links_env
                 "https://www.linkedin.com/posts/ann_topic-1?utm_source=share"
                 "https://www.linkedin.com/in/ann")
              2 (Run.start LinkedIn.imports)) as [[links|e] w'] eqn:E.
  - exists links, w'. split; [reflexivity|].
    pose proof (li_search_links_are_posts _ _ _ _ _ E) as H.
    split; [|exact H]. vm_compute in E. injection E as <- _. reflexivity.
  - vm_compute in E. discriminate E.
Defined.

(** X16. The links [google_search_and_collect_links] (Facebook) returns
    are distinct and none of them has a query part. *)
Theorem fb_search_links_distinct :
  forall (env : Run.Env) (GOOGLE_PAGES : Z) w links w',
    Facebook.google_search_and_collect_links env GOOGLE_PAGES w
    = (Run.Ok links, w') ->
    NoDup links /\ Forall (fun l => Links.has_query l = false) links.
Proof.
  intros env GOOGLE_PAGES w links w' Hrun.
  assert (H : Run.hoare (fun _ => True)
                (Facebook.google_search_and_collect_links env GOOGLE_PAGES)
                (fun l _ =>
                   Links.frontier (fun l => Links.has_query l = false) l)
                (fun _ _ => True)).
  { unfold Facebook.google_search_and_collect_links.
    do 5 (apply hoare_then; intros ?).
    apply (search_loop_keeps
             (Links.frontier (fun l => Links.has_query l = false))
             (Facebook.search_page env)
             (Run.range GOOGLE_PAGES)
             (fun links => Run.ret links)).
    - intros page l Hl. unfold Facebook.search_page.
      do 2 (apply hoare_then; intros ?).
      eapply hoare_bind; [apply (fb_collect_keeps env _ _ Hl)|].
      intros l' w0 Hl'. apply (next_page_keeps env _ _ Hl' w0 I).
    - intros l Hl. apply hoare_ret. auto.
    - apply frontier_nil. }
  specialize (H w I). rewrite Hrun in H. exact H.
Qed.

Lemma fb_search_links_distinct_witness :
  exists links w',
    Facebook.google_search_and_collect_links
      (Links.two_links_env
         "https://www.facebook.com/groups/g/posts/1/?ref=share"
         "https://www.facebook.com/watch/?v=2")
      2 (Run.start Facebook.imports)
    = (Run.Ok links, w') /\
    links = ["https://www.facebook.com/groups/g/posts/1/"] /\
    NoDup links.
Proof.
  destruct (Facebook.google_search_and_collect_links
              (Links.two_links_env
                 "https://www.facebook.com/groups/g/posts/1/?ref=share"
                 "https://www.facebook.com/watch/?v=2")
              2 (Run.start Facebook.imports)) as [[links|e] w'] eqn:E.
  - exists links, w'. split; [reflexivity|].
    pose proof (fb_search_links_distinct _ _ _ _ _ E) as [H _].
    split; [|exact H]. vm_compute in E. injection E as <- _. reflexivity.
  - vm_compute in E. discriminate E.
Defined.
